(** * manga_scraper: scrape orchestration engine

    A shallow embedding of the parts of the repository that the
    specification makes promises about:

    - [Redis]        core/redis.py        (per-domain rate limiter)
    - [BrowserPool]  scrapers/browser_pool.py
    - [Fetch]        scrapers/base.py     (HTTP first, browser fallback)
    - [Registry]     scrapers/__init__.py (hostname -> adapter)
    - [Tasks]        workers/tasks.py, models/*.py, core/database.py

    and, around them, of the code they call and the code that calls them:

    - [RedisClient]  core/redis.py        (locks, the set of scraped URLs)
    - [Settings]     config.py            (rate limits per site)
    - [Scraper]      scrapers/base.py     (rate limiting, slugs, numbers)
    - [Html], [Asura], [Manhwatop], [Mgeko]
                     scrapers/*.py        (the images of a chapter)
    - [Api], [Stats] api/routes/*.py      (job records, statistics)
    - [Scheduler]    workers/tasks.py     (the hourly check)

    Python [int] is [Z]; [str] is [string]; [datetime] is a [Z] count of
    microseconds; [float] chapter numbers are rationals compared by value;
    [None]-able attributes are [option]; a raised exception is the [inl]
    side of a sum.  The external libraries (Redis, tenacity, httpx, Celery,
    SQLAlchemy) are modelled by their documented behaviour, each time next
    to the definition that stands for them. *)

From Stdlib Require Import ZArith QArith Lia Ascii String List Bool DecimalString Sorted.
From stdpp Require Import gmap strings list fin_maps.

Local Open Scope string_scope.
Local Open Scope list_scope.
Local Open Scope Z_scope.

(** ** Shared vocabulary *)

(** ASCII part of [str.lower]. *)
Definition ascii_lower (c : ascii) : ascii :=
  let n := nat_of_ascii c in
  if ((65 <=? n)%nat && (n <=? 90)%nat)%bool then ascii_of_nat (n + 32) else c.

Fixpoint lower (s : string) : string :=
  match s with
  | EmptyString => EmptyString
  | String c r => String (ascii_lower c) (lower r)
  end.

(** [needle in hay] on Python strings. *)
Fixpoint contains (needle hay : string) : bool :=
  String.prefix needle hay ||
  match hay with
  | EmptyString => false
  | String _ r => contains needle r
  end.

(** ** core/redis.py: the rate limiter *)
Module Redis.

(** One key of the store: its integer value and, when it has a TTL, the
    instant at which Redis drops it. *)
Record entry := Entry { value : Z; expires_at : option Z }.

Definition live (now : Z) (e : entry) : bool :=
  match expires_at e with
  | Some t => now <? t
  | None => true
  end.

(** GET: [None] for a missing or expired key. *)
Definition get (s : gmap string entry) (now : Z) (key : string) : option Z :=
  match s !! key with
  | Some e => if live now e then Some (value e) else None
  | None => None
  end.

(** SETEX key window v. *)
Definition setex (s : gmap string entry) (now : Z) (key : string)
    (window v : Z) : gmap string entry :=
  <[key := Entry v (Some (now + window))]> s.

(** INCR: keeps the TTL of a live key; a missing or expired key restarts
    at 1 with no TTL. *)
Definition incr (s : gmap string entry) (now : Z) (key : string)
    : gmap string entry :=
  match s !! key with
  | Some e =>
      if live now e then <[key := Entry (value e + 1) (expires_at e)]> s
      else <[key := Entry 1 None]> s
  | None => <[key := Entry 1 None]> s
  end.

(** [RedisClient.check_rate_limit].  The call issues two commands; [t1] is
    the instant of the GET and [t2] the instant of the SETEX or INCR that
    follows it. *)
Definition check_rate_limit (s : gmap string entry) (t1 t2 : Z)
    (key : string) (limit window : Z) : gmap string entry * bool :=
  match get s t1 key with
  | None => (setex s t2 key window 1, true)
  | Some current =>
      if limit <=? current then (s, false)
      else (incr s t2 key, true)
  end.

(** [RedisClient.get_rate_limit_remaining]. *)
Definition get_rate_limit_remaining (s : gmap string entry) (now : Z)
    (key : string) (limit : Z) : Z :=
  match get s now key with
  | None => limit
  | Some current => Z.max 0 (limit - current)
  end.

(** A sequence of calls, each with its two instants. *)
Fixpoint calls (s : gmap string entry) (key : string) (limit window : Z)
    (ts : list (Z * Z)) : gmap string entry * list bool :=
  match ts with
  | [] => (s, [])
  | (t1, t2) :: rest =>
      let '(s1, b) := check_rate_limit s t1 t2 key limit window in
      let '(s2, bs) := calls s1 key limit window rest in
      (s2, b :: bs)
  end.

(** The instants of a call sequence are in order and stay before [bound]. *)
Fixpoint in_window (prev bound : Z) (ts : list (Z * Z)) : Prop :=
  match ts with
  | [] => True
  | (t1, t2) :: rest =>
      prev <= t1 /\ t1 <= t2 /\ t2 < bound /\ in_window t2 bound rest
  end.

(** What the first [limit] calls answer. *)
Definition expected (limit : Z) (n : nat) : list bool :=
  map (fun i : nat => Z.of_nat i <? limit) (seq 0 n).

End Redis.

(** ** scrapers/browser_pool.py: the browser pool *)
Module BrowserPool.

Definition MAX_REQUESTS_PER_BROWSER : Z := 50.
Definition MAX_BROWSER_AGE_SECONDS : Z := 1800.

(** [BrowserInstance].  [browser] stands for the nodriver browser object (and
    its page): a natural number that names the process.  Timestamps are
    microseconds. *)
Record BrowserInstance := MkInstance {
  browser : nat;
  created_at : Z;
  request_count : Z;
  last_used : Z;
  is_busy : bool
}.

#[global] Instance BrowserInstance_eq_dec : EqDecision BrowserInstance.
Proof. solve_decision. Defined.

(** [age_seconds >= MAX_BROWSER_AGE_SECONDS], on microseconds. *)
Definition age_micros (now : Z) (i : BrowserInstance) : Z := now - created_at i.

Definition needs_replacement (now : Z) (i : BrowserInstance) : bool :=
  (MAX_REQUESTS_PER_BROWSER <=? request_count i)
  || (MAX_BROWSER_AGE_SECONDS * 1000000 <=? age_micros now i).

(** [BrowserPool]: [pool_size] and [_instances]; [spawned] counts the browser
    processes started so far and names the next one. *)
Record Pool := MkPool {
  pool_size : Z;
  _instances : list BrowserInstance;
  spawned : nat
}.

(** [BrowserPool(pool_size)]: [pool_size or settings.scraper_concurrent_browsers]. *)
Definition init (pool_size : option Z) (scraper_concurrent_browsers : Z) : Pool :=
  MkPool (match pool_size with
          | Some n => if n =? 0 then scraper_concurrent_browsers else n
          | None => scraper_concurrent_browsers
          end) [] 0.

Definition active_count (p : Pool) : Z := Z.of_nat (length (_instances p)).

Definition busy_count (p : Pool) : Z :=
  Z.of_nat (length (filter (fun i => is_busy i = true) (_instances p))).

(** [list.remove]: drops the first element equal to [x] (the dataclass
    compares field by field). *)
Fixpoint remove (x : BrowserInstance) (l : list BrowserInstance)
    : list BrowserInstance :=
  match l with
  | [] => []
  | y :: r => if decide (y = x) then r else y :: remove x r
  end.

Definition mark_busy (i : BrowserInstance) : BrowserInstance :=
  MkInstance (browser i) (created_at i) (request_count i) (last_used i) true.

(** The [for instance in self._instances] loop of [_get_instance].  Python's
    list iterator is an index into the live list: [idx] is that index, and a
    [remove] during the loop shifts the elements under it.  [fuel] bounds the
    number of iterations; [S (length l)] is always enough. *)
Fixpoint scan (fuel : nat) (now : Z) (idx : nat) (l : list BrowserInstance)
    : option (list BrowserInstance * option BrowserInstance) :=
  match fuel with
  | O => None
  | S fuel' =>
      match l !! idx with
      | None => Some (l, None)
      | Some instance =>
          if is_busy instance then scan fuel' now (S idx) l
          else if needs_replacement now instance
               then scan fuel' now (S idx) (remove instance l)
               else Some (<[idx := mark_busy instance]> l,
                          Some (mark_busy instance))
      end
  end.

(** How one pass through the critical section of [_get_instance] ends. *)
Inductive acquired :=
  | Got (instance : BrowserInstance)
  | CreateFailed
  | Wait.

(** One pass of [_get_instance] under the lock.  [create_ok] says whether
    [_create_browser] succeeds; [Wait] is the sleep that precedes the
    recursive retry. *)
Definition _get_instance (p : Pool) (now : Z) (create_ok : bool)
    : Pool * acquired :=
  match scan (S (length (_instances p))) now 0 (_instances p) with
  | None => (p, Wait)
  | Some (l, Some instance) => (MkPool (pool_size p) l (spawned p), Got instance)
  | Some (l, None) =>
      if Z.of_nat (length l) <? pool_size p then
        if create_ok then
          let instance := MkInstance (spawned p) now 0 now true in
          (MkPool (pool_size p) (l ++ [instance]) (S (spawned p)), Got instance)
        else (MkPool (pool_size p) l (spawned p), CreateFailed)
      else (MkPool (pool_size p) l (spawned p), Wait)
  end.

(** [_release_instance]: the caller's object is updated in place, wherever
    the pool still holds it. *)
Definition released (now : Z) (i : BrowserInstance) : BrowserInstance :=
  MkInstance (browser i) (created_at i) (request_count i + 1) now false.

Definition _release_instance (p : Pool) (now : Z) (h : nat) : Pool :=
  MkPool (pool_size p)
         (map (fun i => if Nat.eqb (browser i) h then released now i else i)
              (_instances p))
         (spawned p).

(** [close]: every instance is destroyed and the list cleared. *)
Definition close (p : Pool) : Pool := MkPool (pool_size p) [] (spawned p).

(** The operations a pool goes through, each with the clock reading. *)
Inductive op :=
  | Acquire (now : Z) (create_ok : bool)
  | Release (now : Z) (h : nat)
  | Close.

Definition step (p : Pool) (o : op) : Pool :=
  match o with
  | Acquire now create_ok => (_get_instance p now create_ok).1
  | Release now h => _release_instance p now h
  | Close => close p
  end.

(** A history of the pool. *)
Definition run (p : Pool) (ops : list op) : Pool := fold_left step ops p.

Definition invariant (p : Pool) : Prop :=
  busy_count p <= active_count p /\ active_count p <= pool_size p.

End BrowserPool.

(** ** scrapers/base.py: the fetch strategy *)
Module Fetch.

(** What the engine can raise.  [RetryError] is tenacity's: it wraps the
    exception of the last attempt and is not a subclass of it. *)
Inductive exn :=
  | CloudflareBlockedError (msg : string)
  | HTTPStatusError (status_code : Z)
  | TransportError
  | BrowserError
  | RetryError (last_attempt : exn).

(** [httpx.Response], as far as the engine reads it. *)
Record Response := MkResponse { status_code : Z; text : string }.

(** What a fetch does to the outside, in order. *)
Inductive event :=
  | RateLimit
  | HttpGet (url : string)
  | Wait
  | BrowserFetch (url : string) (wait_selector : option string).

(** The outside: what the [n]-th [client.get] of this fetch answers, and what
    [BrowserPool.fetch_page] answers. *)
Record Env := MkEnv {
  http_get : nat -> string -> exn + Response;
  browser_fetch : string -> option string -> exn + string
}.

Definition is_get (e : event) : bool :=
  match e with HttpGet _ => true | _ => false end.

Definition is_browser_fetch (e : event) : bool :=
  match e with BrowserFetch _ _ => true | _ => false end.

Definition count (f : event -> bool) (trace : list event) : nat :=
  length (List.filter f trace).

Definition indicators : list string :=
  ["just a moment"; "checking your browser"; "cf-browser-verification";
   "challenge-platform"; "cloudflare"; "_cf_chl"].

(** [_is_cloudflare_challenge]. *)
Definition _is_cloudflare_challenge (response : Response) : bool :=
  if (status_code response =? 403) || (status_code response =? 503) then
    existsb (fun ind => contains ind (lower (text response))) indicators
  else false.

(** [Response.raise_for_status]: anything but 2xx raises. *)
Definition raise_for_status (response : Response) : exn + unit :=
  if (200 <=? status_code response) && (status_code response <=? 299)
  then inr tt else inl (HTTPStatusError (status_code response)).

(** The body of [_fetch_http], one attempt. *)
Definition _fetch_http_attempt (env : Env) (url : string) (trace : list event)
    : list event * (exn + string) :=
  let trace := trace ++ [RateLimit] in
  let response := http_get env (count is_get trace) url in
  let trace := trace ++ [HttpGet url] in
  match response with
  | inl e => (trace, inl e)
  | inr response =>
      if _is_cloudflare_challenge response then
        (trace, inl (CloudflareBlockedError ("Cloudflare challenge detected: " +:+ url)))
      else
        match raise_for_status response with
        | inl e => (trace, inl e)
        | inr _ => (trace, inr (text response))
        end
  end.

(** tenacity's [@retry(stop=stop_after_attempt(n), wait=...)] with its
    defaults: every exception is retried after a wait; when the attempts
    are used up the last exception is wrapped in [RetryError]
    ([reraise=False]).  [more] is the number of attempts left after this one. *)
Fixpoint retry {A : Type} (more : nat)
    (attempt : list event -> list event * (exn + A)) (trace : list event)
    : list event * (exn + A) :=
  let '(trace, r) := attempt trace in
  match r with
  | inr v => (trace, inr v)
  | inl e =>
      match more with
      | O => (trace, inl (RetryError e))
      | S more' => retry more' attempt (trace ++ [Wait])
      end
  end.

(** [_fetch_http], decorated with [stop_after_attempt(3)]. *)
Definition _fetch_http (env : Env) (url : string) (trace : list event)
    : list event * (exn + string) :=
  retry 2 (_fetch_http_attempt env url) trace.

(** [_fetch_browser]. *)
Definition _fetch_browser (env : Env) (url : string)
    (wait_selector : option string) (trace : list event)
    : list event * (exn + string) :=
  (trace ++ [RateLimit; BrowserFetch url wait_selector],
   browser_fetch env url wait_selector).

(** [fetch_page].  The [except] clause names [CloudflareBlockedError] and
    [httpx.HTTPStatusError] only. *)
Definition fetch_page (requires_browser : bool) (env : Env) (url : string)
    (force_browser : bool) (wait_selector : option string)
    (trace : list event) : list event * (exn + string) :=
  if force_browser || requires_browser then
    _fetch_browser env url wait_selector trace
  else
    match _fetch_http env url trace with
    | (trace, inr content) => (trace, inr content)
    | (trace, inl (CloudflareBlockedError msg)) =>
        _fetch_browser env url wait_selector trace
    | (trace, inl (HTTPStatusError status)) =>
        if negb ((status =? 403) || (status =? 503))
        then (trace, inl (HTTPStatusError status))
        else _fetch_browser env url wait_selector trace
    | (trace, inl e) => (trace, inl e)
    end.

End Fetch.

(** ** scrapers/__init__.py: the adapter registry *)
Module Registry.

Inductive scraper_class := MgekoScraper | AsuraScraper | ManhwatopScraper.

Definition SCRAPER_REGISTRY : gmap string scraper_class :=
  list_to_map
    [("mgeko.cc", MgekoScraper); ("www.mgeko.cc", MgekoScraper);
     ("asuracomic.net", AsuraScraper); ("www.asuracomic.net", AsuraScraper);
     ("asura.nacm.xyz", AsuraScraper);
     ("manhwatop.com", ManhwatopScraper); ("www.manhwatop.com", ManhwatopScraper)].

Definition BROWSER_REQUIRED_DOMAINS : gset string :=
  list_to_set
    ["asuracomic.net"; "www.asuracomic.net"; "asura.nacm.xyz";
     "manhwatop.com"; "www.manhwatop.com"].

(** A scraper instance: its class and the [requires_browser] it was built with. *)
Record scraper := MkScraper { class : scraper_class; requires_browser : bool }.

(** [get_scraper_for_url].  [netloc] is [urlparse(url).netloc]. *)
Definition get_scraper_for_url (netloc : string -> string) (url : string)
    : option scraper :=
  let domain := lower (netloc url) in
  match SCRAPER_REGISTRY !! domain with
  | Some scraper_class =>
      Some (MkScraper scraper_class
              (bool_decide (domain ∈ BROWSER_REQUIRED_DOMAINS)))
  | None => None
  end.

(** [urllib.parse.urlparse(url).netloc] for the URLs the registry is asked
    about: an optional [scheme:] (a letter, then letters, digits, [+], [-]
    or [.]), then, after [//], everything up to the first [/], [?] or [#]. *)
Definition scheme_char (c : ascii) : bool :=
  let n := nat_of_ascii c in
  ((97 <=? n) && (n <=? 122) || (65 <=? n) && (n <=? 90)
   || (48 <=? n) && (n <=? 57) || (n =? 43) || (n =? 45) || (n =? 46))%nat.

Definition alpha (c : ascii) : bool :=
  let n := nat_of_ascii c in
  ((97 <=? n) && (n <=? 122) || (65 <=? n) && (n <=? 90))%nat.

(** The text after [scheme:], when the text up to the first colon is a scheme. *)
Fixpoint after_scheme (s : string) : option string :=
  match s with
  | EmptyString => None
  | String c r =>
      if Ascii.eqb c ":" then Some r
      else if scheme_char c then after_scheme r else None
  end.

Fixpoint until_delimiter (s : string) : string :=
  match s with
  | EmptyString => EmptyString
  | String c r =>
      if Ascii.eqb c "/" || Ascii.eqb c "?" || Ascii.eqb c "#" then EmptyString
      else String c (until_delimiter r)
  end.

Definition urlparse_netloc (url : string) : string :=
  let rest :=
    match url with
    | String c _ =>
        if alpha c then
          match after_scheme url with Some r => r | None => url end
        else url
    | EmptyString => url
    end in
  match rest with
  | String "/" (String "/" r) => until_delimiter r
  | _ => EmptyString
  end.

End Registry.

(** ** models/: the persisted entities

    Columns that no task reads or writes ([created_at], [updated_at],
    [cover_path], [rating], [extra_data], a job's [progress] counters and
    links) are left out. *)

Module Job.
Inductive JobType :=
  SCRAPE_SERIES | SCRAPE_CHAPTER | DOWNLOAD_IMAGES | CHECK_UPDATES | FULL_SYNC.
Inductive JobStatus := PENDING | RUNNING | COMPLETED | FAILED | CANCELLED | RETRY.

(** The payloads the tasks store in [result_data]. *)
Inductive result :=
  | SeriesResult (series_id chapters_found chapters_added : Z)
  | ChapterResult (images_found : Z).

Record t := Make {
  id : Z;
  celery_task_id : option string;
  job_type : JobType;
  status : JobStatus;
  result_data : option result;
  started_at : option Z;
  completed_at : option Z;
  retry_count : Z;
  max_retries : Z;
  error_message : option string;
  error_traceback : option string
}.

(** [Job.is_finished]. *)
Definition is_finished (j : t) : bool :=
  match status j with
  | COMPLETED | FAILED | CANCELLED => true
  | _ => false
  end.
End Job.

Module Series.
Record t := Make {
  id : Z;
  slug : string;
  source_site : string;
  source_id : string;
  source_url : string;
  title : string;
  title_alt : option (list string);
  description : option string;
  cover_url : option string;
  status : string;
  genres : option (list string);
  authors : option (list string);
  artists : option (list string);
  total_chapters : Z;
  latest_chapter : option Q;
  is_active : bool;
  last_checked_at : option Z
}.
End Series.

Module Chapter.
Record t := Make {
  id : Z;
  series_id : Z;
  chapter_number : Q;
  source_url : string;
  title : option string;
  release_date : option Z;
  is_scraped : bool;
  scraped_at : option Z;
  total_images : Z
}.
End Chapter.

Module ChapterImage.
Record t := Make {
  id : Z;
  chapter_id : Z;
  page_number : Z;
  source_url : string;
  storage_path : option string;
  storage_url : option string;
  file_size : option Z;
  content_type : option string;
  is_downloaded : bool
}.
End ChapterImage.

(** ** core/database.py: the session

    [SyncSessionLocal] is a SQLAlchemy [Session] with [autoflush=False] and
    [expire_on_commit=False].  An object loaded from the database is named
    by the position of its row. *)
Module Db.

Inductive exn :=
  | ValueError (msg : string)
  | AdapterError (msg : string)
  | StorageError (msg : string)
  | MultipleResultsFound
  | IntegrityError
  | PendingRollbackError
  | Retry (exc : exn).

Record Tables := MkTables {
  jobs : list Job.t;
  series : list Series.t;
  chapters : list Chapter.t;
  images : list ChapterImage.t;
  series_seq : Z;
  chapters_seq : Z;
  images_seq : Z
}.

Inductive event := Commit | Rollback | Close.

(** [committed]: the database as other connections see it.  [current]: the
    rows as this session's transaction has them, attribute changes of loaded
    objects included.  [new_chapters], [new_images]: objects passed to
    [db.add] and not flushed yet; with [autoflush=False] no query sees them.
    [inactive]: a flush failed and [rollback] has not been called since. *)
Record Session := MkSession {
  committed : Tables;
  current : Tables;
  new_series : list Series.t;
  new_chapters : list Chapter.t;
  new_images : list ChapterImage.t;
  inactive : bool;
  closed : bool;
  log : list event
}.

(** [get_sync_db()]. *)
Definition get_sync_db (database : Tables) : Session :=
  MkSession database database [] [] [] false false [].

(** Nothing added and not flushed, and no failed flush behind. *)
Definition clean (db : Session) : Prop :=
  new_series db = [] /\ new_chapters db = [] /\ new_images db = []
  /\ inactive db = false.

(** A unit of work in the session: the session afterwards and either the
    exception raised or the value. *)
Definition M (A : Type) : Type := Session -> Session * (exn + A).

Definition ret {A : Type} (a : A) : M A := fun db => (db, inr a).
Definition raise {A : Type} (e : exn) : M A := fun db => (db, inl e).
Definition bind {A B : Type} (m : M A) (k : A -> M B) : M B :=
  fun db =>
    match m db with
    | (db', inl e) => (db', inl e)
    | (db', inr a) => k a db'
    end.

(** Reading the session. *)
Definition gets {A : Type} (f : Session -> A) : M A := fun db => (db, inr (f db)).

Declare Scope db_scope.
Delimit Scope db_scope with db.
Notation "x <- m ;; k" := (bind m (fun x => k))
  (at level 20, m at level 99, k at level 200, only parsing) : db_scope.
Notation "' pat <- m ;; k" := (bind m (fun x => match x with pat => k end))
  (at level 20, pat pattern, m at level 99, k at level 200, only parsing) : db_scope.
Notation "m ;; k" := (bind m (fun _ => k))
  (at level 100, k at level 200, only parsing, right associativity) : db_scope.

(** A step that makes nothing durable: whatever it answers, the committed
    tables and the log are as before. *)
Definition quiet {A : Type} (m : M A) : Prop :=
  forall (db db' : Session) (r : exn + A),
    m db = (db', r) -> committed db' = committed db /\ log db' = log db.

(** The unique constraints, as far as the tasks can break them:
    [uq_series_source], the unique [slug], [uq_chapter_series_number]. *)
Definition unique_on {A K : Type} (same : K -> K -> bool) (key : A -> K)
    (rows : list A) : bool :=
  let keys := map key rows in
  forallb (fun k => (length (List.filter (same k) keys) <=? 1)%nat) keys.

Definition same_source (a b : string * string) : bool :=
  String.eqb a.1 b.1 && String.eqb a.2 b.2.

Definition same_chapter (a b : Z * Q) : bool :=
  (a.1 =? b.1) && Qeq_bool a.2 b.2.

Definition series_source (s : Series.t) : string * string :=
  (Series.source_site s, Series.source_id s).

Definition chapter_key (c : Chapter.t) : Z * Q :=
  (Chapter.series_id c, Chapter.chapter_number c).

Definition constraints_ok (t : Tables) : bool :=
  unique_on same_source series_source (series t)
  && unique_on String.eqb Series.slug (series t)
  && unique_on same_chapter chapter_key (chapters t).

(** Primary keys are drawn from the table's sequence at flush time. *)
Fixpoint number {A : Type} (set_id : Z -> A -> A) (next : Z) (rows : list A)
    : list A :=
  match rows with
  | [] => []
  | r :: rest => set_id next r :: number set_id (next + 1) rest
  end.

Definition series_with_id (i : Z) (s : Series.t) : Series.t :=
  Series.Make i (Series.slug s) (Series.source_site s) (Series.source_id s)
    (Series.source_url s) (Series.title s) (Series.title_alt s)
    (Series.description s) (Series.cover_url s) (Series.status s)
    (Series.genres s) (Series.authors s) (Series.artists s)
    (Series.total_chapters s) (Series.latest_chapter s) (Series.is_active s)
    (Series.last_checked_at s).

Definition chapter_with_id (i : Z) (c : Chapter.t) : Chapter.t :=
  Chapter.Make i (Chapter.series_id c) (Chapter.chapter_number c)
    (Chapter.source_url c) (Chapter.title c) (Chapter.release_date c)
    (Chapter.is_scraped c) (Chapter.scraped_at c) (Chapter.total_images c).

Definition image_with_id (i : Z) (m : ChapterImage.t) : ChapterImage.t :=
  ChapterImage.Make i (ChapterImage.chapter_id m) (ChapterImage.page_number m)
    (ChapterImage.source_url m) (ChapterImage.storage_path m)
    (ChapterImage.storage_url m) (ChapterImage.file_size m)
    (ChapterImage.content_type m) (ChapterImage.is_downloaded m).

(** The rows of [current] once the pending objects are inserted. *)
Definition flushed (db : Session) : Tables :=
  let t := current db in
  MkTables (jobs t)
    (series t ++ number series_with_id (series_seq t) (new_series db))
    (chapters t ++ number chapter_with_id (chapters_seq t) (new_chapters db))
    (images t ++ number image_with_id (images_seq t) (new_images db))
    (series_seq t + Z.of_nat (length (new_series db)))
    (chapters_seq t + Z.of_nat (length (new_chapters db)))
    (images_seq t + Z.of_nat (length (new_images db))).

(** [db.flush()].  A constraint violation rolls the transaction back and
    leaves the session inactive; an inactive session raises
    [PendingRollbackError]. *)
Definition flush : M unit := fun db =>
  if inactive db then (db, inl PendingRollbackError)
  else if constraints_ok (flushed db) then
    (MkSession (committed db) (flushed db) [] [] [] false (closed db) (log db),
     inr tt)
  else
    (MkSession (committed db) (committed db) [] [] [] true (closed db) (log db),
     inl IntegrityError).

(** [db.commit()]: flush, then make the transaction durable. *)
Definition commit : M unit := fun db =>
  match flush db with
  | (db', inl e) => (db', inl e)
  | (db', inr _) =>
      (MkSession (current db') (current db') [] [] [] false (closed db')
         (log db' ++ [Commit]), inr tt)
  end.

(** [db.rollback()]. *)
Definition rollback : M unit := fun db =>
  (MkSession (committed db) (committed db) [] [] [] false (closed db)
     (log db ++ [Rollback]), inr tt).

(** [db.close()]: whatever is not committed is dropped. *)
Definition close (db : Session) : Session :=
  MkSession (committed db) (committed db) [] [] [] false true
    (log db ++ [Close]).

(** Attribute changes on loaded objects. *)
Definition set_current (t : Tables) (db : Session) : Session :=
  MkSession (committed db) t (new_series db) (new_chapters db) (new_images db)
    (inactive db) (closed db) (log db).

Definition update_job (pos : nat) (f : Job.t -> Job.t) : M unit := fun db =>
  let t := current db in
  (set_current (MkTables (alter f pos (jobs t)) (series t) (chapters t)
                  (images t) (series_seq t) (chapters_seq t) (images_seq t)) db,
   inr tt).

Definition update_series (pos : nat) (f : Series.t -> Series.t) : M unit :=
  fun db =>
    let t := current db in
    (set_current (MkTables (jobs t) (alter f pos (series t)) (chapters t)
                    (images t) (series_seq t) (chapters_seq t) (images_seq t)) db,
     inr tt).

Definition update_chapter (pos : nat) (f : Chapter.t -> Chapter.t) : M unit :=
  fun db =>
    let t := current db in
    (set_current (MkTables (jobs t) (series t) (alter f pos (chapters t))
                    (images t) (series_seq t) (chapters_seq t) (images_seq t)) db,
     inr tt).

Definition update_image (pos : nat) (f : ChapterImage.t -> ChapterImage.t)
    : M unit := fun db =>
    let t := current db in
    (set_current (MkTables (jobs t) (series t) (chapters t)
                    (alter f pos (images t)) (series_seq t) (chapters_seq t)
                    (images_seq t)) db,
     inr tt).

(** The tables with another list of job rows. *)
Definition with_jobs (js : list Job.t) (t : Tables) : Tables :=
  MkTables js (series t) (chapters t) (images t)
    (series_seq t) (chapters_seq t) (images_seq t).

(** The tables with another list of image rows. *)
Definition with_images (ms : list ChapterImage.t) (t : Tables) : Tables :=
  MkTables (jobs t) (series t) (chapters t) ms
    (series_seq t) (chapters_seq t) (images_seq t).

(** The tables with another list of series rows. *)
Definition with_series (ss : list Series.t) (t : Tables) : Tables :=
  MkTables (jobs t) ss (chapters t) (images t)
    (series_seq t) (chapters_seq t) (images_seq t).

(** [db.add(obj)]. *)
Definition add_series (s : Series.t) : M unit := fun db =>
  (MkSession (committed db) (current db) (new_series db ++ [s])
     (new_chapters db) (new_images db) (inactive db) (closed db) (log db),
   inr tt).

Definition add_chapter (c : Chapter.t) : M unit := fun db =>
  (MkSession (committed db) (current db) (new_series db)
     (new_chapters db ++ [c]) (new_images db) (inactive db) (closed db) (log db),
   inr tt).

Definition add_image (m : ChapterImage.t) : M unit := fun db =>
  (MkSession (committed db) (current db) (new_series db) (new_chapters db)
     (new_images db ++ [m]) (inactive db) (closed db) (log db),
   inr tt).

(** [db.delete(job)] for the jobs at the given positions. *)
Definition delete_jobs (doomed : list nat) : M unit := fun db =>
  let t := current db in
  (set_current
     (MkTables
        (map snd (List.filter (fun ij => negb (existsb (Nat.eqb ij.1) doomed))
                    (imap (fun i j => (i, j)) (jobs t))))
        (series t) (chapters t) (images t)
        (series_seq t) (chapters_seq t) (images_seq t)) db,
   inr tt).

(** [select(...).where(test)]: the matching rows with their positions. *)
Definition where_ {A : Type} (test : A -> bool) (rows : list A) : list (nat * A) :=
  List.filter (fun ir => test ir.2) (imap (fun i r => (i, r)) rows).

(** [.scalar_one_or_none()]. *)
Definition scalar_one_or_none {A : Type} (found : list A) : exn + option A :=
  match found with
  | [] => inr None
  | [x] => inr (Some x)
  | _ => inl MultipleResultsFound
  end.

(** [db.get(Model, pk)]. *)
Definition get {A : Type} (pk : A -> Z) (rows : list A) (key : Z)
    : option (nat * A) :=
  head (where_ (fun r => pk r =? key) rows).

End Db.

(** ** workers/tasks.py: the units of work *)
Module Tasks.
Import Db.
Local Open Scope db_scope.

(** The dict [scraper.scrape_series] returns (see [BaseScraper.scrape_series]). *)
Module ChapterData.
Record t := Make {
  chapter_number : Q;
  source_url : string;
  title : option string;
  release_date : option Z
}.
End ChapterData.

Module SeriesData.
Record t := Make {
  source_site : string;
  source_id : string;
  source_url : string;
  slug : string;
  title : string;
  title_alt : option (list string);
  description : option string;
  cover_url : option string;
  status : string;
  genres : option (list string);
  authors : option (list string);
  artists : option (list string);
  chapters : list ChapterData.t
}.
End SeriesData.

(** One entry of the list [scraper.scrape_chapter] returns. *)
Module ImageData.
Record t := Make { page_number : Z; source_url : string }.
End ImageData.

(** The dict [ImageStorage.download_and_store] returns. *)
Module Stored.
Record t := Make { path : string; url : string; size : Z; content_type : string }.
End Stored.

(** What one execution finds outside the database: [urlparse(url).netloc],
    the outcome of [run_async] on the adapter's coroutines and on the image
    store's, and the clock. *)
Record Env := MkEnv {
  netloc : string -> string;
  run_scrape_series : Registry.scraper -> string -> exn + SeriesData.t;
  run_scrape_chapter : Registry.scraper -> string -> exn + list ImageData.t;
  download_and_store : string -> Z -> Z -> Z -> exn + Stored.t;
  now : Z
}.

(** Celery: [self.request], the calls that can be queued, and a queued
    message with the retry count it carries. *)
Record Request := MkRequest { id : string; retries : Z }.

Inductive call :=
  | ScrapeSeries (series_url : string) (job_id : option Z)
  | ScrapeChapter (chapter_id : Z) (job_id : option Z)
  | DownloadImages (chapter_id : Z).

Record message := MkMessage { target : call; msg_retries : Z }.

(** What a task returns. *)
Inductive returned :=
  | SeriesScraped (series_id chapters_added : Z)
  | ChapterScraped (chapter_id images : Z)
  | NothingToDownload
  | Downloaded (chapter_id downloaded : Z)
  | Cleaned (deleted : Z).

(** One execution: the session as it is left, the queue, and what the task
    returned or raised. *)
Record Run := MkRun {
  session : Session;
  queue : list message;
  outcome : exn + returned
}.

(** [str(exc)]. *)
Fixpoint str (e : exn) : string :=
  match e with
  | ValueError msg | AdapterError msg | StorageError msg => msg
  | MultipleResultsFound =>
      "Multiple rows were found when one or none was required"
  | IntegrityError => "IntegrityError"
  | PendingRollbackError => "PendingRollbackError"
  | Retry exc => "Retry in 60s: " +:+ str exc
  end.

(** [traceback.format_exc()]: some text that ends with the exception. *)
Definition format_exc (e : exn) : string :=
  "Traceback (most recent call last): " +:+ str e.

(** [self.retry(exc=exc)] of a task declared with [max_retries]: once
    [request.retries] has reached [max_retries] it raises [exc]; before that
    it queues the task again with one more retry and raises [Retry]. *)
Definition retry (max_retries : Z) (self : Request) (me : call) (exc : exn)
    (q : list message) : list message * exn :=
  if max_retries <=? retries self then (q, exc)
  else (q ++ [MkMessage me (retries self + 1)], Retry exc).

(** [task.delay(...)]. *)
Definition delay (c : call) (q : list message) : list message :=
  q ++ [MkMessage c 0].

Definition lift {A : Type} (r : exn + A) : M A := fun db => (db, r).

(** [if job_id: job = db.get(Job, job_id)]. *)
Definition load_job (job_id : option Z) (db : Session) : option nat :=
  match job_id with
  | Some j => if j =? 0 then None else fst <$> get Job.id (jobs (current db)) j
  | None => None
  end.

Definition set_running (task_id : string) (now : Z) (j : Job.t) : Job.t :=
  Job.Make (Job.id j) (Some task_id) (Job.job_type j) Job.RUNNING
    (Job.result_data j) (Some now) (Job.completed_at j) (Job.retry_count j)
    (Job.max_retries j) (Job.error_message j) (Job.error_traceback j).

Definition set_completed (now : Z) (r : Job.result) (j : Job.t) : Job.t :=
  Job.Make (Job.id j) (Job.celery_task_id j) (Job.job_type j) Job.COMPLETED
    (Some r) (Job.started_at j) (Some now) (Job.retry_count j)
    (Job.max_retries j) (Job.error_message j) (Job.error_traceback j).

(** The handler's writes; [scrape_chapter] leaves the traceback alone. *)
Definition set_failed (exc : exn) (with_traceback : bool) (j : Job.t) : Job.t :=
  Job.Make (Job.id j) (Job.celery_task_id j) (Job.job_type j) Job.FAILED
    (Job.result_data j) (Job.started_at j) (Job.completed_at j)
    (Job.retry_count j + 1) (Job.max_retries j) (Some (str exc))
    (if with_traceback then Some (format_exc exc) else Job.error_traceback j).

(** The "update job status" block at the start of a task. *)
Definition start_job (self : Request) (now : Z) (job : option nat) : M unit :=
  match job with
  | Some pos => update_job pos (set_running (id self) now) ;; commit
  | None => ret tt
  end.

(** The "update job" block at the end of a task. *)
Definition complete_job (now : Z) (r : Job.result) (job : option nat) : M unit :=
  match job with
  | Some pos => update_job pos (set_completed now r) ;; commit
  | None => ret tt
  end.

(** The [Series] built from every entry of [series_data] but "chapters". *)
Definition new_series_of (d : SeriesData.t) : Series.t :=
  Series.Make 0 (SeriesData.slug d) (SeriesData.source_site d)
    (SeriesData.source_id d) (SeriesData.source_url d) (SeriesData.title d)
    (SeriesData.title_alt d) (SeriesData.description d)
    (SeriesData.cover_url d) (SeriesData.status d) (SeriesData.genres d)
    (SeriesData.authors d) (SeriesData.artists d) 0 None true None.

Definition or_keep {A : Type} (value old : option A) : option A :=
  match value with Some v => Some v | None => old end.

(** The [setattr] loop: every entry of [series_data] but "chapters" whose
    value is not [None] replaces the attribute of that name. *)
Definition overwrite (d : SeriesData.t) (s : Series.t) : Series.t :=
  Series.Make (Series.id s) (SeriesData.slug d) (SeriesData.source_site d)
    (SeriesData.source_id d) (SeriesData.source_url d) (SeriesData.title d)
    (or_keep (SeriesData.title_alt d) (Series.title_alt s))
    (or_keep (SeriesData.description d) (Series.description s))
    (or_keep (SeriesData.cover_url d) (Series.cover_url s))
    (SeriesData.status d)
    (or_keep (SeriesData.genres d) (Series.genres s))
    (or_keep (SeriesData.authors d) (Series.authors s))
    (or_keep (SeriesData.artists d) (Series.artists s))
    (Series.total_chapters s) (Series.latest_chapter s) (Series.is_active s)
    (Series.last_checked_at s).

(** The [Chapter] built from [series.id] and the entries of [ch_data]. *)
Definition new_chapter_of (series_id : Z) (c : ChapterData.t) : Chapter.t :=
  Chapter.Make 0 series_id (ChapterData.chapter_number c)
    (ChapterData.source_url c) (ChapterData.title c)
    (ChapterData.release_date c) false None 0.

(** [max(...)] over floats: the first of the largest. *)
Definition py_max (x : Q) (xs : list Q) : Q :=
  fold_left (fun m y => if Qle_bool y m then m else y) xs x.

(** The three assignments that follow the chapter loop. *)
Definition checked (now : Z) (d : SeriesData.t) (s : Series.t) : Series.t :=
  Series.Make (Series.id s) (Series.slug s) (Series.source_site s)
    (Series.source_id s) (Series.source_url s) (Series.title s)
    (Series.title_alt s) (Series.description s) (Series.cover_url s)
    (Series.status s) (Series.genres s) (Series.authors s) (Series.artists s)
    (Z.of_nat (length (SeriesData.chapters d)))
    (match map ChapterData.chapter_number (SeriesData.chapters d) with
     | [] => Series.latest_chapter s
     | x :: xs => Some (py_max x xs)
     end)
    (Series.is_active s) (Some now).

Definition matches_series (d : SeriesData.t) (s : Series.t) : bool :=
  String.eqb (Series.source_site s) (SeriesData.source_site d)
  && String.eqb (Series.source_id s) (SeriesData.source_id d).

Definition matches_chapter (series_id : Z) (c : ChapterData.t) (row : Chapter.t)
    : bool :=
  (Chapter.series_id row =? series_id)
  && Qeq_bool (Chapter.chapter_number row) (ChapterData.chapter_number c).

(** The series lookup and the [if series is None ... else ...] that follows.
    The value is the position of the series row. *)
Definition save_series (d : SeriesData.t) : M nat := fun db =>
  match scalar_one_or_none (where_ (matches_series d) (series (current db))) with
  | inl e => (db, inl e)
  | inr None =>
      (add_series (new_series_of d) ;;
       flush ;;
       ret (length (series (current db)))) db
  | inr (Some (pos, _)) => (update_series pos (overwrite d) ;; ret pos) db
  end.

(** [series.id]. *)
Definition series_id_at (pos : nat) (db : Session) : Z :=
  match series (current db) !! pos with
  | Some s => Series.id s
  | None => 0
  end.

(** The chapter loop; the value is [chapters_added]. *)
Fixpoint save_chapters (series_id : Z) (chs : list ChapterData.t)
    (chapters_added : Z) : M Z := fun db =>
  match chs with
  | [] => (db, inr chapters_added)
  | ch_data :: rest =>
      match scalar_one_or_none
              (where_ (matches_chapter series_id ch_data) (chapters (current db)))
      with
      | inl e => (db, inl e)
      | inr (Some _) => save_chapters series_id rest chapters_added db
      | inr None =>
          (add_chapter (new_chapter_of series_id ch_data) ;;
           save_chapters series_id rest (chapters_added + 1)) db
      end
  end.

(** "Save to database" up to the first [db.commit()] after it. *)
Definition merge_series (now : Z) (d : SeriesData.t) : M (Z * Z) :=
  pos <- save_series d ;;
  series_id <- gets (series_id_at pos) ;;
  chapters_added <- save_chapters series_id (SeriesData.chapters d) 0 ;;
  update_series pos (checked now d) ;;
  commit ;;
  ret (series_id, chapters_added).

(** The [try] block of [scrape_series]. *)
Definition scrape_series_try (env : Env) (self : Request) (series_url : string)
    (job : option nat) : M returned :=
  start_job self (now env) job ;;
  match Registry.get_scraper_for_url (netloc env) series_url with
  | None => raise (ValueError ("No scraper available for URL: " +:+ series_url))
  | Some scraper =>
      series_data <- lift (run_scrape_series env scraper series_url) ;;
      '(series_id, chapters_added) <- merge_series (now env) series_data ;;
      complete_job (now env)
        (Job.SeriesResult series_id
           (Z.of_nat (length (SeriesData.chapters series_data)))
           chapters_added) job ;;
      ret (SeriesScraped series_id chapters_added)
  end.

(** The [except Exception as exc] block of [scrape_series] and
    [scrape_chapter], followed by the [finally]. *)
Definition on_error (max_retries : Z) (with_traceback : bool) (self : Request)
    (me : call) (job : option nat) (exc : exn) (db : Session)
    (q : list message) : Run :=
  match (match job with
         | Some pos => update_job pos (set_failed exc with_traceback) ;; commit
         | None => ret tt
         end) db with
  | (db, inl raised_in_handler) => MkRun (close db) q (inl raised_in_handler)
  | (db, inr _) =>
      let '(db, _) := rollback db in
      let '(q, raised) := retry max_retries self me exc q in
      MkRun (close db) q (inl raised)
  end.

(** [scrape_series], a task with [max_retries=3]. *)
Definition scrape_series (env : Env) (self : Request) (series_url : string)
    (job_id : option Z) (database : Tables) (q : list message) : Run :=
  let db := get_sync_db database in
  let job := load_job job_id db in
  match scrape_series_try env self series_url job db with
  | (db, inr r) => MkRun (close db) q (inr r)
  | (db, inl exc) =>
      on_error 3 true self (ScrapeSeries series_url job_id) job exc db q
  end.

(** [str(n)] for an [int]. *)
Definition str_int (n : Z) : string := NilZero.string_of_int (Z.to_int n).

Definition new_image_of (chapter_id : Z) (d : ImageData.t) : ChapterImage.t :=
  ChapterImage.Make 0 chapter_id (ImageData.page_number d)
    (ImageData.source_url d) None None None None false.

Definition matches_image (chapter_id : Z) (d : ImageData.t)
    (row : ChapterImage.t) : bool :=
  (ChapterImage.chapter_id row =? chapter_id)
  && (ChapterImage.page_number row =? ImageData.page_number d).

(** The image loop of [scrape_chapter]. *)
Fixpoint save_images (chapter_id : Z) (images_data : list ImageData.t) : M unit :=
  fun db =>
  match images_data with
  | [] => (db, inr tt)
  | img_data :: rest =>
      match scalar_one_or_none
              (where_ (matches_image chapter_id img_data) (images (current db)))
      with
      | inl e => (db, inl e)
      | inr (Some _) => save_images chapter_id rest db
      | inr None =>
          (add_image (new_image_of chapter_id img_data) ;;
           save_images chapter_id rest) db
      end
  end.

Definition scraped (now : Z) (n : nat) (c : Chapter.t) : Chapter.t :=
  Chapter.Make (Chapter.id c) (Chapter.series_id c) (Chapter.chapter_number c)
    (Chapter.source_url c) (Chapter.title c) (Chapter.release_date c)
    true (Some now) (Z.of_nat n).

(** The [try] block of [scrape_chapter] up to and including the first
    [db.commit()] after the image loop; the value is the number of images. *)
Definition scrape_chapter_save (env : Env) (self : Request) (chapter_id : Z)
    (chapter : nat * Chapter.t) (job : option nat) : M nat :=
  start_job self (now env) job ;;
  match Registry.get_scraper_for_url (netloc env) (Chapter.source_url chapter.2) with
  | None => raise (ValueError ("No scraper for URL: " +:+ Chapter.source_url chapter.2))
  | Some scraper =>
      images_data <- lift (run_scrape_chapter env scraper (Chapter.source_url chapter.2)) ;;
      save_images chapter_id images_data ;;
      update_chapter chapter.1 (scraped (now env) (length images_data)) ;;
      commit ;;
      ret (length images_data)
  end.

(** [scrape_chapter], a task with [max_retries=3].  [job] is still [None]
    when the chapter is not found. *)
Definition scrape_chapter (env : Env) (self : Request) (chapter_id : Z)
    (job_id : option Z) (database : Tables) (q : list message) : Run :=
  let db := get_sync_db database in
  let me := ScrapeChapter chapter_id job_id in
  match get Chapter.id (chapters (current db)) chapter_id with
  | None =>
      on_error 3 false self me None
        (ValueError ("Chapter " +:+ str_int chapter_id +:+ " not found")) db q
  | Some chapter =>
      let job := load_job job_id db in
      match scrape_chapter_save env self chapter_id chapter job db with
      | (db, inl exc) => on_error 3 false self me job exc db q
      | (db, inr n) =>
          let q := delay (DownloadImages chapter_id) q in
          match complete_job (now env) (Job.ChapterResult (Z.of_nat n)) job db with
          | (db, inl exc) => on_error 3 false self me job exc db q
          | (db, inr _) =>
              MkRun (close db) q (inr (ChapterScraped chapter_id (Z.of_nat n)))
          end
      end
  end.

(** [.order_by(ChapterImage.page_number)]. *)
Fixpoint insert_by_page (x : nat * ChapterImage.t)
    (l : list (nat * ChapterImage.t)) : list (nat * ChapterImage.t) :=
  match l with
  | [] => [x]
  | y :: r =>
      if ChapterImage.page_number x.2 <=? ChapterImage.page_number y.2
      then x :: y :: r else y :: insert_by_page x r
  end.

Definition order_by_page_number (l : list (nat * ChapterImage.t))
    : list (nat * ChapterImage.t) :=
  fold_right insert_by_page [] l.

Definition stored (r : Stored.t) (m : ChapterImage.t) : ChapterImage.t :=
  ChapterImage.Make (ChapterImage.id m) (ChapterImage.chapter_id m)
    (ChapterImage.page_number m) (ChapterImage.source_url m)
    (Some (Stored.path r)) (Some (Stored.url r)) (Some (Stored.size r))
    (Some (Stored.content_type r)) true.

(** The [for image in images] loop of [download_images], with its inner
    [try]/[except]; the value is [downloaded]. *)
Fixpoint download_each (env : Env) (series_id chapter_id : Z)
    (todo : list (nat * ChapterImage.t)) (downloaded : Z) : M Z :=
  match todo with
  | [] => ret downloaded
  | (pos, image) :: rest =>
      match download_and_store env (ChapterImage.source_url image) series_id
              chapter_id (ChapterImage.page_number image) with
      | inr result =>
          update_image pos (stored result) ;;
          download_each env series_id chapter_id rest (downloaded + 1)
      | inl _ => download_each env series_id chapter_id rest downloaded
      end
  end.

(** The [where] clause of [download_images]. *)
Definition to_download (chapter_id : Z) (m : ChapterImage.t) : bool :=
  (ChapterImage.chapter_id m =? chapter_id) && negb (ChapterImage.is_downloaded m).

Definition pending_images (chapter_id : Z) (db : Session)
    : list (nat * ChapterImage.t) :=
  order_by_page_number (where_ (to_download chapter_id) (images (current db))).

(** Whether [download_and_store] returns for this image. *)
Definition ingested (env : Env) (series_id chapter_id : Z) (m : ChapterImage.t)
    : bool :=
  match download_and_store env (ChapterImage.source_url m) series_id chapter_id
          (ChapterImage.page_number m) with
  | inr _ => true
  | inl _ => false
  end.

(** The outer [except] of [download_images] and [scrape_chapter_browser]:
    no job record is touched. *)
Definition on_error_plain (max_retries : Z) (self : Request) (me : call)
    (exc : exn) (db : Session) (q : list message) : Run :=
  let '(db, _) := rollback db in
  let '(q, raised) := retry max_retries self me exc q in
  MkRun (close db) q (inl raised).

(** [download_images], a task with [max_retries=3]. *)
Definition download_images (env : Env) (self : Request) (chapter_id : Z)
    (database : Tables) (q : list message) : Run :=
  let db := get_sync_db database in
  let me := DownloadImages chapter_id in
  match get Chapter.id (chapters (current db)) chapter_id with
  | None =>
      on_error_plain 3 self me
        (ValueError ("Chapter " +:+ str_int chapter_id +:+ " not found")) db q
  | Some chapter =>
      match pending_images chapter_id db with
      | [] => MkRun (close db) q (inr NothingToDownload)
      | todo =>
          match (downloaded <-
                   download_each env (Chapter.series_id chapter.2) chapter_id todo 0 ;;
                 commit ;;
                 ret downloaded) db with
          | (db, inl exc) => on_error_plain 3 self me exc db q
          | (db, inr downloaded) =>
              MkRun (close db) q (inr (Downloaded chapter_id downloaded))
          end
      end
  end.

Definition seven_days : Z := 7 * 86400 * 1000000.

(** The [where] clause of [cleanup_old_jobs]; SQL's [NULL < cutoff] selects
    nothing. *)
Definition old_job (cutoff : Z) (j : Job.t) : bool :=
  match Job.status j with
  | Job.COMPLETED | Job.FAILED => true
  | _ => false
  end
  && match Job.completed_at j with
     | Some t => t <? cutoff
     | None => false
     end.

(** [cleanup_old_jobs]: no [except], a [finally]. *)
Definition cleanup_old_jobs (now : Z) (database : Tables) : Run :=
  let db := get_sync_db database in
  let cutoff := now - seven_days in
  let old_jobs := where_ (old_job cutoff) (jobs (current db)) in
  match (delete_jobs (map fst old_jobs) ;; commit) db with
  | (db, inl exc) => MkRun (close db) [] (inl exc)
  | (db, inr _) => MkRun (close db) [] (inr (Cleaned (Z.of_nat (length old_jobs))))
  end.

(** What the [try] block of [scrape_series] raises between the job update
    and the merge, if it does: no adapter for the URL, or the adapter's own
    exception. *)
Definition early_error (env : Env) (series_url : string) : option exn :=
  match Registry.get_scraper_for_url (netloc env) series_url with
  | None => Some (ValueError ("No scraper available for URL: " +:+ series_url))
  | Some scraper =>
      match run_scrape_series env scraper series_url with
      | inl e => Some e
      | inr _ => None
      end
  end.

(** The job row after the [n]-th execution when it fails before the merge. *)
Definition failed_once (env : nat -> Env) (task_id series_url : string)
    (n : nat) (j : Job.t) : Job.t :=
  match early_error (env n) series_url with
  | Some exc => set_failed exc true (set_running task_id (now (env n)) j)
  | None => j
  end.

(** What the adapter answers for a URL, when an adapter exists and returns. *)
Definition adapter_output (env : Env) (series_url : string)
    : option SeriesData.t :=
  match Registry.get_scraper_for_url (netloc env) series_url with
  | Some scraper =>
      match run_scrape_series env scraper series_url with
      | inr d => Some d
      | inl _ => None
      end
  | None => None
  end.

(** The tables already hold what the adapter output [d] says: the series
    row at [pos] carries its values and counts, and every chapter of [d] has
    a row under that series. *)
Definition merged (d : SeriesData.t) (pos : nat) (t : Tables) : Prop :=
  constraints_ok t = true
  /\ exists s,
       series t !! pos = Some s
       /\ matches_series d s = true
       /\ overwrite d s = s
       /\ (forall now,
            Series.total_chapters (checked now d s) = Series.total_chapters s
            /\ Series.latest_chapter (checked now d s) = Series.latest_chapter s)
       /\ forall ch, In ch (SeriesData.chapters d) ->
            exists row, In row (chapters t)
                        /\ matches_chapter (Series.id s) ch row = true.

(** The worker side of Celery: a message is executed with the retry count
    it carries, on the database as the previous execution left it. *)
Definition execute (env : Env) (task_id : string) (m : message)
    (database : Tables) : Run :=
  let self := MkRequest task_id (msg_retries m) in
  match target m with
  | ScrapeSeries series_url job_id => scrape_series env self series_url job_id database []
  | ScrapeChapter chapter_id job_id => scrape_chapter env self chapter_id job_id database []
  | DownloadImages chapter_id => download_images env self chapter_id database []
  end.

(** The message a run queued for its own retry, if it did. *)
Definition retry_message (r : Run) : option message :=
  match outcome r with
  | inl (Retry _) => last (queue r)
  | _ => None
  end.

(** A message and the retries it leads to; [env n] is what the [n]-th
    execution finds.  The list holds the executions in order. *)
Fixpoint work (fuel : nat) (env : nat -> Env) (task_id : string) (n : nat)
    (m : message) (database : Tables) : list Run :=
  match fuel with
  | O => []
  | S fuel' =>
      let r := execute (env n) task_id m database in
      r :: match retry_message r with
           | Some m' => work fuel' env task_id (S n) m' (committed (session r))
           | None => []
           end
  end.

End Tasks.

(** ** core/redis.py: locks and the set of scraped URLs *)
Module RedisClient.
Import Redis.

(** What redis-py answers to [SET ... NX EX]: [True], [None] when the key
    is there already, or a [ResponseError] for an expiry that is not
    positive. *)
Inductive reply := Ok | Nil | ResponseError.

(** SET key v NX EX timeout. *)
Definition set_nx_ex (s : gmap string entry) (now : Z) (key : string)
    (v timeout : Z) : gmap string entry * reply :=
  if timeout <=? 0 then (s, ResponseError)
  else match get s now key with
       | Some _ => (s, Nil)
       | None => (<[key := Entry v (Some (now + timeout))]> s, Ok)
       end.

(** [acquire_lock]: the value stored is the string "1". *)
Definition acquire_lock (s : gmap string entry) (now : Z) (name : string)
    (timeout : Z) : gmap string entry * reply :=
  set_nx_ex s now ("lock:" +:+ name) 1 timeout.

(** [release_lock]: DEL, whoever asks. *)
Definition release_lock (s : gmap string entry) (name : string)
    : gmap string entry :=
  delete ("lock:" +:+ name) s.

(** A key that holds a set, with the instant at which Redis drops it. *)
Record set_entry := SetEntry { elements : gset string; set_expires_at : option Z }.

Definition set_live (now : Z) (e : set_entry) : bool :=
  match set_expires_at e with
  | Some t => now <? t
  | None => true
  end.

(** SISMEMBER. *)
Definition sismember (s : gmap string set_entry) (now : Z) (key member : string)
    : bool :=
  match s !! key with
  | Some e => set_live now e && bool_decide (member ∈ elements e)
  | None => false
  end.

(** SADD: a missing or expired key starts a new set with no TTL. *)
Definition sadd (s : gmap string set_entry) (now : Z) (key member : string)
    : gmap string set_entry :=
  match s !! key with
  | Some e =>
      if set_live now e
      then <[key := SetEntry ({[member]} ∪ elements e) (set_expires_at e)]> s
      else <[key := SetEntry {[member]} None]> s
  | None => <[key := SetEntry {[member]} None]> s
  end.

(** EXPIRE key ttl: nothing for a missing or expired key; a ttl that is not
    positive deletes the key. *)
Definition expire (s : gmap string set_entry) (now : Z) (key : string) (ttl : Z)
    : gmap string set_entry :=
  match s !! key with
  | Some e =>
      if set_live now e then
        if ttl <=? 0 then delete key s
        else <[key := SetEntry (elements e) (Some (now + ttl))]> s
      else s
  | None => s
  end.

(** [is_url_scraped]. *)
Definition is_url_scraped (s : gmap string set_entry) (now : Z) (url : string)
    : bool :=
  sismember s now "scraped_urls" url.

(** [mark_url_scraped]: SADD at [t1], then EXPIRE at [t2]. *)
Definition mark_url_scraped (s : gmap string set_entry) (t1 t2 : Z)
    (url : string) (ttl : Z) : gmap string set_entry :=
  expire (sadd s t1 "scraped_urls" url) t2 "scraped_urls" ttl.

End RedisClient.

(** ** config.py: the settings the scrapers read *)
Module Settings.

Record t := Make {
  rate_limit_default : Z;
  rate_limit_asuracomic : Z;
  rate_limit_manhwatop : Z;
  rate_limit_mgeko : Z
}.

(** The values of a [Settings()] built with no environment. *)
Definition defaults : t := Make 20 10 10 30.

(** [Settings.get_rate_limit]. *)
Definition get_rate_limit (settings : t) (domain : string) : Z :=
  let limits : gmap string Z :=
    list_to_map [("asuracomic.net", rate_limit_asuracomic settings);
                 ("manhwatop.com", rate_limit_manhwatop settings);
                 ("mgeko.cc", rate_limit_mgeko settings)] in
  default (rate_limit_default settings) (limits !! domain).

End Settings.

(** ** scrapers/base.py and the site classes: rate limiting and text helpers *)
Module Scraper.

(** The class attributes of the three site scrapers. *)
Definition SITE_NAME (c : Registry.scraper_class) : string :=
  match c with
  | Registry.MgekoScraper => "mgeko"
  | Registry.AsuraScraper => "asura"
  | Registry.ManhwatopScraper => "manhwatop"
  end.

Definition BASE_URL (c : Registry.scraper_class) : string :=
  match c with
  | Registry.MgekoScraper => "https://www.mgeko.cc"
  | Registry.AsuraScraper => "https://asuracomic.net"
  | Registry.ManhwatopScraper => "https://manhwatop.com"
  end.

Definition REQUIRES_BROWSER (c : Registry.scraper_class) : bool :=
  match c with
  | Registry.MgekoScraper => false
  | Registry.AsuraScraper | Registry.ManhwatopScraper => true
  end.

(** The [while not await self.redis.check_rate_limit(...)] loop: [polls]
    holds the instants of the successive calls, which the loop spaces by a
    sleep of one second.  The value is the number of refusals before the call
    that was allowed, or [None] when the polls run out first. *)
Fixpoint wait_for_slot (s : gmap string Redis.entry) (key : string) (limit : Z)
    (polls : list (Z * Z)) : gmap string Redis.entry * option nat :=
  match polls with
  | [] => (s, None)
  | (t1, t2) :: rest =>
      let '(s1, allowed) := Redis.check_rate_limit s t1 t2 key limit 60 in
      if allowed then (s1, Some 0%nat)
      else let '(s2, n) := wait_for_slot s1 key limit rest in (s2, S <$> n)
  end.

(** [BaseScraper._rate_limit] up to the random delay that ends it. *)
Definition _rate_limit (settings : Settings.t) (c : Registry.scraper_class)
    (s : gmap string Redis.entry) (polls : list (Z * Z))
    : gmap string Redis.entry * option nat :=
  let domain := Registry.urlparse_netloc (BASE_URL c) in
  let limit := Settings.get_rate_limit settings domain in
  let key := "rate:" +:+ domain in
  wait_for_slot s key limit polls.

(** Text that is ASCII only; [str.lower], [str.strip] and the classes [\w],
    [\s] and [\d] of [re] are modelled on such text. *)
Fixpoint ascii_text (s : string) : bool :=
  match s with
  | EmptyString => true
  | String c r => (nat_of_ascii c <? 128)%nat && ascii_text r
  end.

(** [\s] and the characters [str.strip] drops. *)
Definition is_space (c : ascii) : bool :=
  let n := nat_of_ascii c in
  ((9 <=? n) && (n <=? 13) || (28 <=? n) && (n <=? 32))%nat.

(** [\d]. *)
Definition is_digit (c : ascii) : bool :=
  let n := nat_of_ascii c in ((48 <=? n) && (n <=? 57))%nat.

(** [\w]. *)
Definition is_word (c : ascii) : bool :=
  let n := nat_of_ascii c in
  ((97 <=? n) && (n <=? 122) || (65 <=? n) && (n <=? 90) || is_digit c
   || (n =? 95))%nat.

Fixpoint lstrip (s : string) : string :=
  match s with
  | EmptyString => EmptyString
  | String c r => if is_space c then lstrip r else s
  end.

Fixpoint rstrip (s : string) : string :=
  match s with
  | EmptyString => EmptyString
  | String c r =>
      match rstrip r with
      | EmptyString => if is_space c then EmptyString else String c EmptyString
      | r' => String c r'
      end
  end.

(** [str.strip]. *)
Definition strip (s : string) : string := rstrip (lstrip s).

(** [re.sub(r"[^\w\s-]", "", text)]. *)
Fixpoint drop_punctuation (s : string) : string :=
  match s with
  | EmptyString => EmptyString
  | String c r =>
      if is_word c || is_space c || Ascii.eqb c "-"
      then String c (drop_punctuation r) else drop_punctuation r
  end.

(** [re.sub(r"[-\s]+", "-", text)]; [in_run] says that the character before
    was part of the run being replaced. *)
Fixpoint hyphenate (in_run : bool) (s : string) : string :=
  match s with
  | EmptyString => EmptyString
  | String c r =>
      if is_space c || Ascii.eqb c "-"
      then if in_run then hyphenate true r else String "-" (hyphenate true r)
      else String c (hyphenate false r)
  end.

(** [text[:n]]. *)
Fixpoint first_chars (n : nat) (s : string) : string :=
  match n, s with
  | S n', String c r => String c (first_chars n' r)
  | _, _ => EmptyString
  end.

(** [BaseScraper.slugify]. *)
Definition slugify (text : string) : string :=
  let text := strip (lower text) in
  let text := drop_punctuation text in
  let text := hyphenate false text in
  first_chars 200 text.

(** The longest run of digits a text starts with, and what follows it. *)
Fixpoint digits (s : string) : string * string :=
  match s with
  | EmptyString => (EmptyString, EmptyString)
  | String c r =>
      if is_digit c then let '(d, rest) := digits r in (String c d, rest)
      else (EmptyString, s)
  end.

(** A match of [\d+(?:\.\d+)?] that starts at the first character. *)
Definition number_here (s : string) : option string :=
  match digits s with
  | (EmptyString, _) => None
  | (whole, String "." after) =>
      match digits after with
      | (EmptyString, _) => Some whole
      | (fraction, _) => Some (whole +:+ "." +:+ fraction)
      end
  | (whole, _) => Some whole
  end.

(** [re.search(r"(\d+(?:\.\d+)?)", text)]: the leftmost match. *)
Fixpoint search_number (s : string) : option string :=
  match number_here s with
  | Some m => Some m
  | None =>
      match s with
      | EmptyString => None
      | String _ r => search_number r
      end
  end.

(** The value of a run of digits read after [acc]. *)
Fixpoint digits_value (acc : Z) (s : string) : Z :=
  match s with
  | EmptyString => acc
  | String c r => digits_value (10 * acc + (Z.of_nat (nat_of_ascii c) - 48)) r
  end.

(** [float(m)] for a match [m] of the pattern, as a rational. *)
Fixpoint float_of (whole : Z) (s : string) : Q :=
  match s with
  | EmptyString => inject_Z whole
  | String c r =>
      if Ascii.eqb c "."
      then inject_Z whole
           + inject_Z (digits_value 0 r) / inject_Z (10 ^ Z.of_nat (String.length r))
      else float_of (10 * whole + (Z.of_nat (nat_of_ascii c) - 48)) r
  end.

(** [BaseScraper.extract_number]. *)
Definition extract_number (text : string) : option Q :=
  match text with
  | EmptyString => None
  | _ => float_of 0 <$> search_number text
  end.

End Scraper.

(** ** Shapes of text, for the statements about [slugify] and [extract_number] *)
Module Text.

Fixpoint all_chars (p : ascii -> bool) (s : string) : bool :=
  match s with
  | EmptyString => true
  | String c r => p c && all_chars p r
  end.

(** A lower-case letter, a digit, an underscore or a hyphen. *)
Definition slug_char (c : ascii) : bool :=
  let n := nat_of_ascii c in
  ((97 <=? n) && (n <=? 122) || (48 <=? n) && (n <=? 57) || (n =? 95)
   || (n =? 45))%nat.

(** No hyphen follows a hyphen; [after_hyphen] is what precedes the text. *)
Fixpoint single_hyphens (after_hyphen : bool) (s : string) : bool :=
  match s with
  | EmptyString => true
  | String c r =>
      if Ascii.eqb c "-" then negb after_hyphen && single_hyphens true r
      else single_hyphens false r
  end.

End Text.

(** ** Reading a fetch trace and a pool history *)
Module Trace.

Definition is_rate_limit (e : Fetch.event) : bool :=
  match e with Fetch.RateLimit => true | _ => false end.

Definition is_wait (e : Fetch.event) : bool :=
  match e with Fetch.Wait => true | _ => false end.

End Trace.

Module PoolFacts.
Import BrowserPool.

(** The elements at the odd positions of a list. *)
Fixpoint every_other {A : Type} (l : list A) : list A :=
  match l with
  | _ :: y :: r => y :: every_other r
  | _ => []
  end.

(** No instance has served more than [MAX_REQUESTS_PER_BROWSER] requests,
    and a busy one has at least one request left. *)
Definition within_budget (p : Pool) : Prop :=
  Forall (fun i => request_count i <= MAX_REQUESTS_PER_BROWSER
                   /\ (is_busy i = true ->
                       request_count i < MAX_REQUESTS_PER_BROWSER))
         (_instances p).

(** A release is of a handle that is held: [acquire] releases the instance
    it was given, once. *)
Definition held (p : Pool) (o : op) : Prop :=
  match o with
  | Release _ h =>
      Forall (fun i => browser i = h -> is_busy i = true) (_instances p)
  | _ => True
  end.

Fixpoint releases_held (p : Pool) (ops : list op) : Prop :=
  match ops with
  | [] => True
  | o :: rest => held p o /\ releases_held (step p o) rest
  end.

End PoolFacts.

(** ** What a unit of work leaves alone *)
Module Frame.
Import Db Tasks.

(** The job a queued call was given, if any. *)
Definition job_of (c : call) : option Z :=
  match c with
  | ScrapeSeries _ job_id | ScrapeChapter _ job_id => job_id
  | DownloadImages _ => None
  end.

(** The job rows of [t] are those of [js0], but for the row at [own]. *)
Definition jobs_elsewhere (own : option nat) (js0 : list Job.t) (t : Tables)
    : Prop :=
  length (jobs t) = length js0
  /\ forall pos : nat, Some pos <> own -> jobs t !! pos = js0 !! pos.

Definition other_jobs_kept (own : option nat) (js0 : list Job.t) (db : Session)
    : Prop :=
  jobs_elsewhere own js0 (current db) /\ jobs_elsewhere own js0 (committed db).

(** A step that keeps a property of the session, whatever it answers. *)
Definition keeps {A : Type} (P : Session -> Prop) (m : M A) : Prop :=
  forall (db db' : Session) (r : exn + A), m db = (db', r) -> P db -> P db'.

End Frame.

(** ** api/routes and the hourly check: job records as the API creates and
    reads them

    [get_db] commits when a route returns and rolls back when it raises.
    The routes below raise before they change anything, and what they change
    is job rows only, which no unique constraint can refuse; so a route is
    given as the database it leaves committed, with what it sent to Celery
    and what it answers. *)
Module Api.
Import Db Tasks.

(** The columns of a job row that the units of work never read. *)
Record JobLinks := MkLinks {
  series_id : option Z;
  chapter_id : option Z;
  input_data : option (gmap string string)
}.

(** The database with the sequence of the job ids and, by job id, the
    columns [Job.t] leaves out. *)
Record Store := MkStore {
  tables : Tables;
  jobs_seq : Z;
  links : gmap Z JobLinks
}.

(** Ids come from the sequence: it is positive and above every id in use. *)
Definition well_formed (s : Store) : Prop :=
  0 < jobs_seq s /\ Forall (fun j => Job.id j < jobs_seq s) (jobs (tables s)).

(** [Job(job_type=...)]: the other columns take their defaults. *)
Definition new_job (id : Z) (job_type : Job.JobType) : Job.t :=
  Job.Make id None job_type Job.PENDING None None None 0 3 None None.

(** [db.add(job)] and the INSERT of the flush or commit that follows it. *)
Definition insert_job (job_type : Job.JobType) (l : JobLinks) (s : Store)
    : Store * Z :=
  let id := jobs_seq s in
  (MkStore (with_jobs (jobs (tables s) ++ [new_job id job_type]) (tables s))
     (id + 1) (<[id := l]> (links s)),
   id).

(** What an [HTTPException] says. *)
Inductive detail :=
  | JobNotFound
  | AlreadyFinished (status : Job.JobStatus)
  | OnlyFailedJobs
  | UrlNotSupported
  | SeriesExists
  | SeriesNotFound
  | ChapterNotFound
  | NotScrapedYet.

Inductive error :=
  | HTTPException (status_code : Z) (d : detail)
  | DatabaseError (e : Db.exn).

(** A request: the database afterwards, the messages sent to the queue,
    the task ids revoked, and the answer. *)
Record Answer (A : Type) := MkAnswer {
  store : Store;
  queued : list message;
  revoked : list string;
  result : error + A
}.
Arguments MkAnswer {A}.
Arguments store {A}.
Arguments queued {A}.
Arguments revoked {A}.
Arguments result {A}.

Definition refused {A : Type} (s : Store) (e : error) : Answer A :=
  MkAnswer s [] [] (inl e).

Definition set_cancelled (now : Z) (j : Job.t) : Job.t :=
  Job.Make (Job.id j) (Job.celery_task_id j) (Job.job_type j) Job.CANCELLED
    (Job.result_data j) (Job.started_at j) (Some now) (Job.retry_count j)
    (Job.max_retries j) (Job.error_message j) (Job.error_traceback j).

Definition with_tables (t : Tables) (s : Store) : Store :=
  MkStore t (jobs_seq s) (links s).

(** [cancel_job] (jobs.py). *)
Definition cancel_job (now : Z) (job_id : Z) (s : Store) : Answer string :=
  match get Job.id (jobs (tables s)) job_id with
  | None => refused s (HTTPException 404 JobNotFound)
  | Some (pos, job) =>
      if Job.is_finished job
      then refused s (HTTPException 409 (AlreadyFinished (Job.status job)))
      else
        MkAnswer
          (with_tables
             (with_jobs (alter (set_cancelled now) pos (jobs (tables s)))
                (tables s)) s)
          []
          (match Job.celery_task_id job with
           | Some task_id => if String.eqb task_id "" then [] else [task_id]
           | None => []
           end)
          (inr "Job cancelled")
  end.

Definition set_pending (j : Job.t) : Job.t :=
  Job.Make (Job.id j) (Job.celery_task_id j) (Job.job_type j) Job.PENDING
    (Job.result_data j) None None (Job.retry_count j) (Job.max_retries j)
    None None.

(** [job.input_data.get("url") if job.input_data else None]. *)
Definition input_url (l : option JobLinks) : option string :=
  match l with
  | Some (MkLinks _ _ (Some d)) => d !! "url"
  | _ => None
  end.

(** [job.chapter_id], when it is set and not zero. *)
Definition linked_chapter (l : option JobLinks) : option Z :=
  match l with
  | Some (MkLinks _ (Some c) _) => if c =? 0 then None else Some c
  | _ => None
  end.

(** The "re-queue based on job type" part of [retry_job]. *)
Definition requeue (job : Job.t) (l : option JobLinks) : list message :=
  match Job.job_type job with
  | Job.SCRAPE_SERIES =>
      match input_url l with
      | Some url =>
          if String.eqb url "" then []
          else delay (ScrapeSeries url (Some (Job.id job))) []
      | None => []
      end
  | Job.SCRAPE_CHAPTER | Job.CHECK_UPDATES =>
      match linked_chapter l with
      | Some c => delay (ScrapeChapter c (Some (Job.id job))) []
      | None => []
      end
  | Job.DOWNLOAD_IMAGES =>
      match linked_chapter l with
      | Some c => delay (DownloadImages c) []
      | None => []
      end
  | Job.FULL_SYNC => []
  end.

(** [retry_job] (jobs.py). *)
Definition retry_job (job_id : Z) (s : Store) : Answer string :=
  match get Job.id (jobs (tables s)) job_id with
  | None => refused s (HTTPException 404 JobNotFound)
  | Some (pos, job) =>
      match Job.status job with
      | Job.FAILED =>
          MkAnswer
            (with_tables
               (with_jobs (alter set_pending pos (jobs (tables s))) (tables s)) s)
            (requeue job (links s !! Job.id job))
            []
            (inr "Job requeued")
      | _ => refused s (HTTPException 409 OnlyFailedJobs)
      end
  end.

(** [add_series] (series.py); the answer holds [job_id]. *)
Definition add_series (netloc : string -> string) (url : string) (s : Store)
    : Answer Z :=
  match Registry.get_scraper_for_url netloc url with
  | None => refused s (HTTPException 400 UrlNotSupported)
  | Some _ =>
      match scalar_one_or_none
              (where_ (fun r => String.eqb (Series.source_url r) url)
                 (series (tables s)))
      with
      | inl e => refused s (DatabaseError e)
      | inr (Some _) => refused s (HTTPException 409 SeriesExists)
      | inr None =>
          let '(s', id) :=
            insert_job Job.SCRAPE_SERIES
              (MkLinks None None (Some {["url" := url]})) s in
          MkAnswer s' (delay (ScrapeSeries url (Some id)) []) [] (inr id)
      end
  end.

(** [refresh_series] (series.py). *)
Definition refresh_series (series_id : Z) (s : Store) : Answer Z :=
  match get Series.id (series (tables s)) series_id with
  | None => refused s (HTTPException 404 SeriesNotFound)
  | Some (_, row) =>
      let '(s', id) :=
        insert_job Job.CHECK_UPDATES
          (MkLinks (Some series_id) None
             (Some {["url" := Series.source_url row]})) s in
      MkAnswer s' (delay (ScrapeSeries (Series.source_url row) (Some id)) []) []
        (inr id)
  end.

(** [download_chapter_images] (chapters.py). *)
Definition download_chapter_images (chapter_id : Z) (s : Store) : Answer Z :=
  match get Chapter.id (chapters (tables s)) chapter_id with
  | None => refused s (HTTPException 404 ChapterNotFound)
  | Some (_, chapter) =>
      if negb (Chapter.is_scraped chapter)
      then refused s (HTTPException 409 NotScrapedYet)
      else
        let '(s', id) :=
          insert_job Job.DOWNLOAD_IMAGES
            (MkLinks (Some (Chapter.series_id chapter)) (Some chapter_id) None) s in
        MkAnswer s' (delay (DownloadImages chapter_id) []) [] (inr id)
  end.

End Api.

(** ** workers/tasks.py: the hourly check for updates *)
Module Scheduler.
Import Db Tasks Api.

Definition one_hour : Z := 3600 * 1000000.

(** The [where] clause of [check_all_series_updates]. *)
Definition due (cutoff : Z) (s : Series.t) : bool :=
  Series.is_active s
  && match Series.last_checked_at s with
     | None => true
     | Some checked_at => checked_at <? cutoff
     end.

(** The [for series in series_list] loop: a job, a commit and a message
    for each. *)
Fixpoint queue_updates (series_list : list Series.t) (s : Store)
    (q : list message) : Store * list message :=
  match series_list with
  | [] => (s, q)
  | row :: rest =>
      let '(s1, id) :=
        insert_job Job.CHECK_UPDATES
          (MkLinks (Some (Series.id row)) None
             (Some {["series_url" := Series.source_url row]})) s in
      queue_updates rest s1 (delay (ScrapeSeries (Series.source_url row) (Some id)) q)
  end.

(** The rows the query of [check_all_series_updates] selects. *)
Definition series_list (now : Z) (s : Store) : list Series.t :=
  let cutoff := now - one_hour in
  map snd (where_ (due cutoff) (series (tables s))).

(** [check_all_series_updates]; the number is [series_checked]. *)
Definition check_all_series_updates (now : Z) (s : Store)
    : Store * list message * Z :=
  let '(s', q) := queue_updates (series_list now s) s [] in
  (s', q, Z.of_nat (length (series_list now s))).

(** [f] applied to the elements of a list and to the ids drawn for them
    from [next] on. *)
Fixpoint with_ids {A B : Type} (f : Z -> A -> B) (next : Z) (l : list A) : list B :=
  match l with
  | [] => []
  | x :: rest => f next x :: with_ids f (next + 1) rest
  end.

End Scheduler.

(** ** scrapers/asura.py, manhwatop.py, mgeko.py: the images of a chapter

    [scrape_chapter] from the parsed page on.  The page is given by what
    [soup.select] finds in it, an [img] element by the attributes the
    scrapers read, and [urljoin] is taken as it is. *)
Module Html.
Import Tasks.

(** [img.get(name)] is [None] for an attribute the element does not have. *)
Record Img := MkImg {
  src : option string;
  data_src : option string;
  data_lazy_src : option string
}.

(** Truth value of a [str | None]. *)
Definition truthy (v : option string) : bool :=
  match v with
  | Some s => negb (String.eqb s "")
  | None => false
  end.

(** [a or b]. *)
Definition or_ (a b : option string) : option string :=
  if truthy a then a else b.

(** [for selector in img_selectors: img_elems = soup.select(selector);
    if img_elems: break]. *)
Fixpoint first_selected (soup : string -> list Img) (img_selectors : list string)
    (img_elems : list Img) : list Img :=
  match img_selectors with
  | [] => img_elems
  | selector :: rest =>
      match soup selector with
      | [] => first_selected soup rest []
      | found => found
      end
  end.

(** [any(skip in img_url.lower() for skip in skip_words)]. *)
Definition any_skip (skip_words : list string) (img_url : string) : bool :=
  existsb (fun skip => contains skip (lower img_url)) skip_words.

(** [self.absolute_url(url)], with the default [base]. *)
Definition absolute_url (urljoin : string -> string -> string)
    (c : Registry.scraper_class) (url : string) : string :=
  urljoin (Scraper.BASE_URL c) url.

(** The image loop of [AsuraScraper.scrape_chapter] and of
    [ManhwatopScraper.scrape_chapter], which differ in the attributes read
    ([image_url]) and in the words skipped. *)
Fixpoint unique_images (image_url : Img -> option string)
    (skip_words : list string) (absolute : string -> string)
    (img_elems : list Img) (seen_urls : gset string)
    (images : list ImageData.t) : list ImageData.t :=
  match img_elems with
  | [] => images
  | img :: rest =>
      let continue := unique_images image_url skip_words absolute rest in
      match image_url img with
      | None => continue seen_urls images
      | Some img_url =>
          if negb (truthy (Some img_url)) then continue seen_urls images
          else if any_skip skip_words img_url then continue seen_urls images
          else
            let img_url := absolute (Scraper.strip img_url) in
            if bool_decide (img_url ∈ seen_urls) then continue seen_urls images
            else
              continue ({[img_url]} ∪ seen_urls)
                (images
                 ++ [ImageData.Make (Z.of_nat (length images) + 1) img_url])
      end
  end.

(** An element the loop takes a URL from, and that URL. *)
Definition taken (image_url : Img -> option string) (skip_words : list string)
    (absolute : string -> string) (img : Img) : option string :=
  match image_url img with
  | Some img_url =>
      if truthy (Some img_url) && negb (any_skip skip_words img_url)
      then Some (absolute (Scraper.strip img_url)) else None
  | None => None
  end.

(** The pages are numbered from 1 without a gap. *)
Definition consecutive (images : list ImageData.t) : Prop :=
  map ImageData.page_number images
  = map (fun i => Z.of_nat i + 1) (seq 0 (length images)).

End Html.

Module Asura.
Import Tasks Html.

Definition img_selectors : list string :=
  ["img[src*='storage/media']"; "img[alt*='chapter']";
   ".w-full img[src*='asura']"; "img.max-w-full"].

Definition skip_words : list string :=
  ["logo"; "icon"; "avatar"; "banner"; "ads"; "placeholder"].

(** [img.get("src")]. *)
Definition image_url (img : Img) : option string := src img.

Definition scrape_chapter (urljoin : string -> string -> string)
    (soup : string -> list Img) : list ImageData.t :=
  unique_images image_url skip_words
    (absolute_url urljoin Registry.AsuraScraper)
    (first_selected soup img_selectors []) ∅ [].

End Asura.

Module Manhwatop.
Import Tasks Html.

Definition img_selectors : list string :=
  [".reading-content img"; ".chapter-content img"; ".page-break img";
   "#manga-reading img"; ".wp-manga-chapter-img"].

Definition skip_words : list string :=
  ["placeholder"; "loading"; "spinner"; "logo"; "icon"; "avatar"; "banner"].

(** [img.get("data-src") or img.get("data-lazy-src") or img.get("src")]. *)
Definition image_url (img : Img) : option string :=
  or_ (or_ (data_src img) (data_lazy_src img)) (src img).

Definition scrape_chapter (urljoin : string -> string -> string)
    (soup : string -> list Img) : list ImageData.t :=
  unique_images image_url skip_words
    (absolute_url urljoin Registry.ManhwatopScraper)
    (first_selected soup img_selectors []) ∅ [].

End Manhwatop.

Module Mgeko.
Import Tasks Html.

Definition img_selectors : list string :=
  [".reading-content img"; ".chapter-content img"; ".page-break img";
   "#manga-reading-nav-body img"; ".wp-manga-chapter-img"].

Definition image_url (img : Img) : option string :=
  or_ (or_ (data_src img) (data_lazy_src img)) (src img).

(** ["placeholder" in img_url.lower() or "loading" in img_url.lower()]. *)
Definition is_placeholder (img_url : string) : bool :=
  contains "placeholder" (lower img_url) || contains "loading" (lower img_url).

(** [for idx, img in enumerate(img_elems, 1)], from [idx] on. *)
Fixpoint enumerated_images (absolute : string -> string) (idx : Z)
    (img_elems : list Img) : list ImageData.t :=
  match img_elems with
  | [] => []
  | img :: rest =>
      let continue := enumerated_images absolute (idx + 1) rest in
      match image_url img with
      | None => continue
      | Some img_url =>
          if negb (truthy (Some img_url)) then continue
          else if is_placeholder img_url then continue
          else ImageData.Make idx (absolute (Scraper.strip img_url)) :: continue
      end
  end.

Definition scrape_chapter (urljoin : string -> string -> string)
    (soup : string -> list Img) : list ImageData.t :=
  enumerated_images (absolute_url urljoin Registry.MgekoScraper) 1
    (first_selected soup img_selectors []).

(** An element the loop appends an entry for, and the URL it gives it. *)
Definition kept (absolute : string -> string) (img : Img) : option string :=
  match image_url img with
  | Some img_url =>
      if truthy (Some img_url) && negb (is_placeholder img_url)
      then Some (absolute (Scraper.strip img_url)) else None
  | None => None
  end.

End Mgeko.
(** ** api/routes/jobs.py: the statistics *)
Module Stats.
Import Db Api.

Record JobStatsResponse := MkStats {
  pending : Z;
  running : Z;
  completed : Z;
  failed : Z;
  total : Z
}.

(** [Job.status == status]. *)
Definition has_status (status : Job.JobStatus) (j : Job.t) : bool :=
  match Job.status j, status with
  | Job.PENDING, Job.PENDING | Job.RUNNING, Job.RUNNING
  | Job.COMPLETED, Job.COMPLETED | Job.FAILED, Job.FAILED
  | Job.CANCELLED, Job.CANCELLED | Job.RETRY, Job.RETRY => true
  | _, _ => false
  end.

(** [select(func.count()).where(Job.status == status)]. *)
Definition count (status : Job.JobStatus) (s : Store) : Z :=
  Z.of_nat (length (where_ (has_status status) (jobs (tables s)))).

(** [get_job_stats]: the four counts of the loop and their sum. *)
Definition get_job_stats (s : Store) : JobStatsResponse :=
  let stats := map (fun status => count status s)
                 [Job.PENDING; Job.RUNNING; Job.COMPLETED; Job.FAILED] in
  MkStats (nth 0 stats 0) (nth 1 stats 0) (nth 2 stats 0) (nth 3 stats 0)
    (fold_right Z.add 0 stats).

End Stats.

(** * Properties *)

(** ** Rate limiter *)

Section RateLimit.
Variables (key : string) (limit window : Z).

Lemma get_live (s : gmap string Redis.entry) (now v exp : Z) :
  s !! key = Some (Redis.Entry v (Some exp)) -> now < exp ->
  Redis.get s now key = Some v.
Proof.
  intros Hs Hlt. unfold Redis.get, Redis.live. rewrite Hs. simpl.
  destruct (Z.ltb_spec now exp); [reflexivity | lia].
Qed.

Lemma get_expired (s : gmap string Redis.entry) (now v exp : Z) :
  s !! key = Some (Redis.Entry v (Some exp)) -> exp <= now ->
  Redis.get s now key = None.
Proof.
  intros Hs Hle. unfold Redis.get, Redis.live. rewrite Hs. simpl.
  destruct (Z.ltb_spec now exp); [lia | reflexivity].
Qed.

(** One call on a live counter: it answers [v <? limit] and moves the
    counter up only when it answers [true]; the TTL is kept. *)
Lemma check_rate_limit_live (s : gmap string Redis.entry) (t1 t2 v exp : Z) :
  s !! key = Some (Redis.Entry v (Some exp)) -> t1 <= t2 -> t2 < exp ->
  exists v',
    (Redis.check_rate_limit s t1 t2 key limit window).1 !! key
      = Some (Redis.Entry v' (Some exp))
    /\ (Redis.check_rate_limit s t1 t2 key limit window).2 = (v <? limit)
    /\ (forall i : nat, (v' + Z.of_nat i <? limit) = (v + Z.of_nat (S i) <? limit)).
Proof.
  intros Hs H12 Hexp. unfold Redis.check_rate_limit.
  rewrite (get_live s t1 v exp Hs) by lia.
  destruct (Z.leb_spec limit v) as [Hge | Hlt].
  - exists v. simpl. repeat split; [assumption | |].
    + symmetry. apply Z.ltb_ge. lia.
    + intros i. transitivity false; [apply Z.ltb_ge | symmetry; apply Z.ltb_ge]; lia.
  - exists (v + 1). simpl. unfold Redis.incr, Redis.live. rewrite Hs. simpl.
    destruct (Z.ltb_spec t2 exp); [| lia].
    rewrite lookup_insert_eq. repeat split.
    + symmetry. apply Z.ltb_lt. lia.
    + intros i. f_equal. lia.
Qed.

Lemma calls_live (exp : Z) (rest : list (Z * Z)) :
  forall (s : gmap string Redis.entry) (prev v : Z),
    s !! key = Some (Redis.Entry v (Some exp)) ->
    Redis.in_window prev exp rest ->
    (exists v', (Redis.calls s key limit window rest).1 !! key
                = Some (Redis.Entry v' (Some exp)))
    /\ (Redis.calls s key limit window rest).2
       = map (fun i : nat => v + Z.of_nat i <? limit) (seq 0 (length rest)).
Proof.
  induction rest as [| [t1 t2] rest IH]; intros s prev v Hs Hw.
  - simpl. split; [exists v; assumption | reflexivity].
  - simpl in Hw. destruct Hw as (_ & H12 & Hexp & Hw).
    destruct (check_rate_limit_live s t1 t2 v exp Hs H12 Hexp)
      as (v' & Hs' & Hb & Hshift).
    simpl. destruct (Redis.check_rate_limit s t1 t2 key limit window) as [s1 b].
    simpl in Hs', Hb. specialize (IH s1 t2 v' Hs' Hw).
    destruct (Redis.calls s1 key limit window rest) as [s2 bs].
    simpl in IH |- *. destruct IH as [Hv' Hbs]. split; [exact Hv' |].
    rewrite Hb, Z.add_0_r. f_equal.
    rewrite Hbs, <- seq_shift, map_map. apply map_ext. intros i. apply Hshift.
Qed.

End RateLimit.



(** ** Browser pool *)

Section Pool.
Import BrowserPool.

Lemma remove_length (x : BrowserInstance) (l : list BrowserInstance) :
  (length (remove x l) <= length l)%nat.
Proof.
  induction l as [| y r IH]; simpl; [lia |].
  destruct (decide (y = x)); simpl; lia.
Qed.

Lemma remove_elem_of (x y : BrowserInstance) (l : list BrowserInstance) :
  y ∈ remove x l -> y ∈ l.
Proof.
  induction l as [| z r IH]; simpl; [trivial |].
  destruct (decide (z = x)).
  - intros H. now apply elem_of_cons; right.
  - intros H. apply elem_of_cons in H as [-> | H]; apply elem_of_cons; auto.
Qed.

(** The loop ends within the fuel it is given. *)
Lemma scan_total (now : Z) (fuel : nat) :
  forall (idx : nat) (l : list BrowserInstance),
    (length l - idx < fuel)%nat -> is_Some (scan fuel now idx l).
Proof.
  induction fuel as [| fuel IH]; intros idx l Hlt; [lia |].
  simpl. destruct (l !! idx) as [instance |] eqn:Hidx; [| eauto].
  pose proof (lookup_lt_Some _ _ _ Hidx) as Hi.
  destruct (is_busy instance); [apply IH; lia |].
  destruct (needs_replacement now instance); [| eauto].
  apply IH. pose proof (remove_length instance l). lia.
Qed.

(** The loop never lengthens the list. *)
Lemma scan_length (now : Z) (fuel : nat) :
  forall (idx : nat) (l l' : list BrowserInstance) (r : option BrowserInstance),
    scan fuel now idx l = Some (l', r) -> (length l' <= length l)%nat.
Proof.
  induction fuel as [| fuel IH]; intros idx l l' r H; [discriminate |].
  simpl in H. destruct (l !! idx) as [instance |] eqn:Hidx.
  - destruct (is_busy instance); [eauto |].
    destruct (needs_replacement now instance).
    + apply IH in H. pose proof (remove_length instance l). lia.
    + inversion H; subst. rewrite length_insert. lia.
  - inversion H; subst. lia.
Qed.

(** Whatever the loop hands out was idle and below both thresholds. *)
Lemma scan_found (now : Z) (fuel : nat) :
  forall (idx : nat) (l l' : list BrowserInstance) (got : BrowserInstance),
    scan fuel now idx l = Some (l', Some got) ->
    exists old, old ∈ l /\ is_busy old = false
                /\ needs_replacement now old = false /\ got = mark_busy old.
Proof.
  induction fuel as [| fuel IH]; intros idx l l' got H; [discriminate |].
  simpl in H. destruct (l !! idx) as [instance |] eqn:Hidx; [| discriminate].
  destruct (is_busy instance) eqn:Hbusy; [eauto |].
  destruct (needs_replacement now instance) eqn:Hneed.
  - destruct (IH _ _ _ _ H) as (old & Hin & Hrest).
    exists old. split; [eapply remove_elem_of; eassumption | exact Hrest].
  - inversion H; subst. exists instance.
    split; [eapply list_elem_of_lookup_2; eassumption | auto].
Qed.

(** ... and is in the list the loop leaves behind. *)
Lemma scan_member (now : Z) (fuel : nat) :
  forall (idx : nat) (l l' : list BrowserInstance) (got : BrowserInstance),
    scan fuel now idx l = Some (l', Some got) -> got ∈ l'.
Proof.
  induction fuel as [| fuel IH]; intros idx l l' got H; [discriminate |].
  simpl in H. destruct (l !! idx) as [instance |] eqn:Hidx; [| discriminate].
  destruct (is_busy instance); [eauto |].
  destruct (needs_replacement now instance); [eauto |].
  inversion H; subst. eapply list_elem_of_lookup_2.
  apply list_lookup_insert_eq. eapply lookup_lt_Some; eassumption.
Qed.

Lemma busy_le_active (p : Pool) : busy_count p <= active_count p.
Proof.
  unfold busy_count, active_count. apply inj_le, length_filter.
Qed.

Lemma _get_instance_bounded (p : Pool) (now : Z) (create_ok : bool) :
  active_count p <= pool_size p ->
  active_count (_get_instance p now create_ok).1 <= pool_size p
  /\ pool_size (_get_instance p now create_ok).1 = pool_size p.
Proof.
  unfold active_count, _get_instance. intros Ha.
  destruct (scan _ now 0 (_instances p)) as [[l [got |]] |] eqn:Hscan;
    simpl; [| | auto].
  - apply scan_length in Hscan. split; [lia | reflexivity].
  - apply scan_length in Hscan.
    destruct (Z.ltb_spec (Z.of_nat (length l)) (pool_size p)) as [Hlt | Hge].
    + destruct create_ok; simpl; [rewrite length_app; simpl |];
        (split; [lia | reflexivity]).
    + simpl. split; [lia | reflexivity].
Qed.

(** One operation keeps the invariant. *)
Lemma step_invariant (p : Pool) (o : op) : invariant p -> invariant (step p o).
Proof.
  intros [Hb Ha]. split; [apply busy_le_active |].
  destruct o as [now create_ok | now h |]; simpl.
  - destruct (_get_instance_bounded p now create_ok Ha) as [H1 H2].
    rewrite H2. exact H1.
  - unfold active_count in *. simpl. rewrite length_map. exact Ha.
  - unfold active_count in *. simpl in *. lia.
Qed.

(** A new pool satisfies the invariant as soon as its size is not negative
    (the setting is at least 1). *)
Lemma init_invariant (size : option Z) (setting : Z) :
  0 <= setting -> (forall n, size = Some n -> 0 <= n) ->
  invariant (init size setting).
Proof.
  intros Hs Hn. unfold invariant, init, busy_count, active_count. simpl.
  split; [lia |]. destruct size as [n |]; [| exact Hs].
  destruct (n =? 0); [exact Hs | auto].
Qed.

(** What an acquire hands out, in any pool. *)
Lemma _get_instance_healthy (p : Pool) (now : Z) (create_ok : bool)
    (got : BrowserInstance) :
  (_get_instance p now create_ok).2 = Got got ->
  request_count got < MAX_REQUESTS_PER_BROWSER
  /\ age_micros now got < MAX_BROWSER_AGE_SECONDS * 1000000
  /\ is_busy got = true
  /\ got ∈ _instances (_get_instance p now create_ok).1.
Proof.
  unfold _get_instance.
  destruct (scan _ now 0 (_instances p)) as [[l [found |]] |] eqn:Hscan;
    simpl; [| | discriminate].
  - intros [= ->].
    destruct (scan_found _ _ _ _ _ _ Hscan) as (old & Hin & Hidle & Hneed & ->).
    unfold needs_replacement in Hneed. apply orb_false_elim in Hneed as [Hrc Hage].
    apply Z.leb_gt in Hrc, Hage. simpl. repeat split; try assumption.
    eapply scan_member; eassumption.
  - destruct (Z.of_nat (length l) <? pool_size p); [| discriminate].
    destruct create_ok; [| discriminate]. simpl. intros [= <-]. simpl.
    unfold age_micros, MAX_REQUESTS_PER_BROWSER, MAX_BROWSER_AGE_SECONDS. simpl.
    repeat split; try lia. apply elem_of_app. right.
    apply list_elem_of_singleton. reflexivity.
Qed.

(** C5. From a pool that satisfies
    [busy_count <= active_count <= pool_size], every history of acquire
    passes, releases and closes leads to a pool that satisfies it; in the
    pool so reached the scan of an acquire always ends, and the instance an
    acquire hands out is marked busy, belongs to the pool, and has fewer than
    50 requests and less than 1800 seconds of age at that moment (an idle
    instance over either threshold is removed from the pool by the scan,
    never returned). *)
Theorem pool_invariant_preserved (p : Pool) (ops : list op) :
  invariant p ->
  invariant (run p ops)
  /\ forall (now : Z) (create_ok : bool),
       is_Some (scan (S (length (_instances (run p ops)))) now 0
                  (_instances (run p ops)))
       /\ forall got : BrowserInstance,
            (_get_instance (run p ops) now create_ok).2 = Got got ->
            request_count got < MAX_REQUESTS_PER_BROWSER
            /\ age_micros now got < MAX_BROWSER_AGE_SECONDS * 1000000
            /\ is_busy got = true
            /\ got ∈ _instances (step (run p ops) (Acquire now create_ok)).
Proof.
  intros Hinv. split.
  - unfold run. revert p Hinv. induction ops as [| o ops IH]; intros p Hinv;
      [exact Hinv |].
    simpl. apply IH, step_invariant, Hinv.
  - intros now create_ok. split; [apply scan_total; lia |].
    intros got. apply _get_instance_healthy.
Qed.

End Pool.

(** Python's list iterator and [remove]: the scan drops the first retired
    instance and thereby steps over the second, which stays in the pool; the
    third one, idle and young, is handed out. *)
Example scan_steps_over_after_remove :
  let old := fun b : nat => BrowserPool.MkInstance b 0 50 10 false in
  let young := BrowserPool.MkInstance 2 90 3 95 false in
  BrowserPool._get_instance (BrowserPool.MkPool 3 [old 0%nat; old 1%nat; young] 3)
    100 true
  = (BrowserPool.MkPool 3 [old 1%nat; BrowserPool.mark_busy young] 3,
     BrowserPool.Got (BrowserPool.mark_busy young)).
Proof. reflexivity. Qed.

Lemma pool_invariant_preserved_witness :
  let p := BrowserPool.MkPool 2
             [BrowserPool.MkInstance 0 0 50 10 false;
              BrowserPool.MkInstance 1 5 3 20 false] 2 in
  BrowserPool.invariant
    (BrowserPool.run p [BrowserPool.Acquire 100 true; BrowserPool.Release 200 1;
                        BrowserPool.Acquire 300 true; BrowserPool.Close]).
Proof.
  refine (proj1 (pool_invariant_preserved _ _ _)).
  unfold BrowserPool.invariant, BrowserPool.busy_count, BrowserPool.active_count.
  simpl. lia.
Defined.

(** ** Fetch strategy *)

Section FetchStrategy.
Import Fetch.

Lemma count_app (f : event -> bool) (t1 t2 : list event) :
  count f (t1 ++ t2) = (count f t1 + count f t2)%nat.
Proof. unfold count. rewrite List.filter_app, length_app. reflexivity. Qed.

(** One attempt over HTTP touches the rate limiter and the HTTP client,
    never the browser. *)
Lemma _fetch_http_attempt_no_browser (env : Env) (url : string)
    (trace : list event) :
  count is_browser_fetch (_fetch_http_attempt env url trace).1
  = count is_browser_fetch trace.
Proof.
  unfold _fetch_http_attempt.
  assert (H : count is_browser_fetch ((trace ++ [RateLimit]) ++ [HttpGet url])
              = count is_browser_fetch trace).
  { rewrite !count_app. unfold count. simpl. lia. }
  destruct (http_get env _ url) as [e | response]; [exact H |].
  destruct (_is_cloudflare_challenge response); [exact H |].
  destruct (raise_for_status response); exact H.
Qed.

(** Whatever the decorated [_fetch_http] raises is a [RetryError], and the
    browser is not used on the way. *)
Lemma retry_outcome (env : Env) (url : string) (more : nat) :
  forall trace : list event,
    count is_browser_fetch (retry more (_fetch_http_attempt env url) trace).1
    = count is_browser_fetch trace
    /\ match (retry more (_fetch_http_attempt env url) trace).2 with
       | inl e => exists last, e = RetryError last
       | inr _ => True
       end.
Proof.
  induction more as [| more IH]; intros trace; simpl;
    pose proof (_fetch_http_attempt_no_browser env url trace) as Hn;
    destruct (_fetch_http_attempt env url trace) as [trace' [e | v]];
    simpl in *; eauto.
  destruct (IH (trace' ++ [Wait])) as [H1 H2]. split; [| exact H2].
  rewrite H1, count_app, Hn. unfold count. simpl. lia.
Qed.

(** Without [force_browser] on a site that does not require the browser,
    [fetch_page] is [_fetch_http]: its two fallback branches wait for
    exceptions that the retry decorator never lets through. *)
Lemma fetch_page_is_fetch_http (env : Env) (url : string)
    (wait_selector : option string) (trace : list event) :
  fetch_page false env url false wait_selector trace = _fetch_http env url trace
  /\ count is_browser_fetch (fetch_page false env url false wait_selector trace).1
     = count is_browser_fetch trace.
Proof.
  unfold fetch_page, _fetch_http. cbn [orb].
  destruct (retry_outcome env url 2 trace) as [Hn He].
  destruct (retry 2 (_fetch_http_attempt env url) trace) as [trace' [e | v]];
    cbn [fst snd] in *; [| auto].
  destruct He as [last ->]. split; [reflexivity | exact Hn].
Qed.

End FetchStrategy.

(** C1 (the code at the failing input).  Every direct response is a 503 whose
    body contains "just a moment": [fetch_page] makes three HTTP attempts,
    never calls the browser, and raises tenacity's [RetryError] instead of
    returning the browser's content. *)
Theorem fetch_page_challenge_not_recovered :
  let env := Fetch.MkEnv
               (fun _ _ => inr (Fetch.MkResponse 503 "<title>Just a moment...</title>"))
               (fun _ _ => inr "<html>chapter list</html>") in
  let url := "https://www.mgeko.cc/manga/solo/" in
  Fetch._is_cloudflare_challenge
    (Fetch.MkResponse 503 "<title>Just a moment...</title>") = true
  /\ Fetch.fetch_page false env url false None []
     = ([Fetch.RateLimit; Fetch.HttpGet url; Fetch.Wait;
         Fetch.RateLimit; Fetch.HttpGet url; Fetch.Wait;
         Fetch.RateLimit; Fetch.HttpGet url],
        inl (Fetch.RetryError
               (Fetch.CloudflareBlockedError
                  "Cloudflare challenge detected: https://www.mgeko.cc/manga/solo/")))
  /\ Fetch.count Fetch.is_browser_fetch
       (Fetch.fetch_page false env url false None []).1 = 0%nat.
Proof. vm_compute. repeat split. Qed.

(** ** Adapter registry *)

(** tests/test_scrapers.py, on the model. *)
Example test_get_scraper_for_url_mgeko :
  Registry.get_scraper_for_url Registry.urlparse_netloc
    "https://www.mgeko.cc/manga/test/"
  = Some (Registry.MkScraper Registry.MgekoScraper false).
Proof. vm_compute. reflexivity. Qed.

Example test_get_scraper_for_url_asura :
  Registry.get_scraper_for_url Registry.urlparse_netloc
    "https://asuracomic.net/series/test"
  = Some (Registry.MkScraper Registry.AsuraScraper true).
Proof. vm_compute. reflexivity. Qed.

Example test_get_scraper_for_unsupported_url :
  Registry.get_scraper_for_url Registry.urlparse_netloc
    "https://example.com/manga/test/" = None.
Proof. vm_compute. reflexivity. Qed.

(** ** Session and queries *)

Section Queries.
Import Db.

Lemma bind_inr {A B : Type} (m : M A) (k : A -> M B) (db db' : Session) (b : B) :
  bind m k db = (db', inr b) ->
  exists db1 a, m db = (db1, inr a) /\ k a db1 = (db', inr b).
Proof.
  unfold bind. destruct (m db) as [db1 [e | a]]; [discriminate | eauto].
Qed.

Lemma bind_inl {A B : Type} (m : M A) (k : A -> M B) (db db' : Session) (e : exn) :
  bind m k db = (db', inl e) ->
  m db = (db', inl e)
  \/ exists db1 a, m db = (db1, inr a) /\ k a db1 = (db', inl e).
Proof.
  unfold bind. destruct (m db) as [db1 [e1 | a]]; intros H;
    [left; inversion H; reflexivity | right; eauto].
Qed.

(** Positions and rows of a query. *)
Lemma where_spec {A : Type} (test : A -> bool) (rows : list A) (i : nat) (r : A) :
  In (i, r) (where_ test rows) <-> rows !! i = Some r /\ test r = true.
Proof.
  unfold where_. rewrite List.filter_In. simpl.
  rewrite <- list_elem_of_In, elem_of_lookup_imap. split.
  - intros [(j & x & [= -> ->] & Hx) Ht]. auto.
  - intros [Hx Ht]. split; [exists i, r; auto | assumption].
Qed.

(** The rows of a query are the rows that pass the test, in table order. *)
Lemma filter_imap_rows {A : Type} (test : A -> bool) (rows : list A) :
  forall f : nat -> A -> nat * A,
    (forall i r, (f i r).2 = r) ->
    map snd (List.filter (fun ir => test ir.2) (imap f rows))
    = List.filter test rows.
Proof.
  induction rows as [| r rows IH]; intros f Hf; [reflexivity |].
  simpl. rewrite Hf.
  destruct (test r); simpl; rewrite IH by (intros; apply Hf);
    rewrite ?Hf; reflexivity.
Qed.

Lemma where_rows {A : Type} (test : A -> bool) (rows : list A) :
  map snd (where_ test rows) = List.filter test rows.
Proof. apply filter_imap_rows. reflexivity. Qed.

End Queries.

Section SessionFacts.
Import Db.

Lemma get_sync_db_clean (t : Tables) : clean (get_sync_db t).
Proof. repeat split. Qed.

Lemma flushed_clean (db : Session) : clean db -> flushed db = current db.
Proof.
  intros (H1 & H2 & H3 & _). unfold flushed. rewrite H1, H2, H3. simpl.
  rewrite !app_nil_r, !Z.add_0_r. destruct (current db); reflexivity.
Qed.

Lemma commit_clean (db : Session) :
  clean db -> constraints_ok (current db) = true ->
  commit db = (MkSession (current db) (current db) [] [] [] false (closed db)
                 (log db ++ [Commit]), inr tt).
Proof.
  intros Hc Hok. pose proof (flushed_clean db Hc) as Hf.
  destruct Hc as (_ & _ & _ & Hi). unfold commit, flush.
  rewrite Hi, Hf, Hok. reflexivity.
Qed.

(** The constraints look at the series and chapter rows only. *)
Lemma constraints_ok_rows (t t' : Tables) :
  series t' = series t -> chapters t' = chapters t ->
  constraints_ok t' = constraints_ok t.
Proof. unfold constraints_ok. intros -> ->. reflexivity. Qed.

(** Deleting the rows a query selected leaves the rows that fail its test. *)
Lemma delete_selected {A : Type} (test : A -> bool) (rows : list A) :
  map snd (List.filter
             (fun ij : nat * A =>
                negb (existsb (Nat.eqb ij.1) (map fst (where_ test rows))))
             (imap (fun i j => (i, j)) rows))
  = List.filter (fun r => negb (test r)) rows.
Proof.
  rewrite <- (filter_imap_rows (fun r => negb (test r)) rows (fun i j => (i, j)))
    by reflexivity.
  f_equal. apply List.filter_ext_in. intros [i j] Hin. simpl. f_equal.
  apply list_elem_of_In, elem_of_lookup_imap in Hin as (i' & j' & [= <- <-] & Hj).
  destruct (test j) eqn:Ht.
  - apply existsb_exists. exists i. split; [| apply Nat.eqb_refl].
    apply in_map_iff. exists (i, j). split; [reflexivity |].
    apply where_spec. auto.
  - apply not_true_is_false. intros Hex.
    apply existsb_exists in Hex as (x & Hx & Heq). apply Nat.eqb_eq in Heq as <-.
    apply in_map_iff in Hx as ([i2 r] & Hfst & Hin). simpl in Hfst. subst i2.
    apply where_spec in Hin as [Hr Htr]. congruence.
Qed.

Lemma alter_fixed {A : Type} (f : A -> A) (rows : list A) (pos : nat) (r : A) :
  rows !! pos = Some r -> f r = r -> alter f pos rows = rows.
Proof.
  intros Hr Hf. apply list_eq. intros i.
  destruct (decide (pos = i)) as [<- | Hne].
  - rewrite list_lookup_alter_eq, Hr. simpl. congruence.
  - apply list_lookup_alter_ne. exact Hne.
Qed.

Lemma map_alter_same {A K : Type} (key : A -> K) (f : A -> A) (rows : list A)
    (pos : nat) :
  (forall r, key (f r) = key r) -> map key (alter f pos rows) = map key rows.
Proof.
  intros Hk. revert pos. induction rows as [| r rows IH]; intros [| pos]; simpl;
    [reflexivity | reflexivity | rewrite Hk; reflexivity |].
  f_equal. apply IH.
Qed.

Lemma unique_on_alter {A K : Type} (same : K -> K -> bool) (key : A -> K)
    (f : A -> A) (rows : list A) (pos : nat) :
  (forall r, key (f r) = key r) ->
  unique_on same key (alter f pos rows) = unique_on same key rows.
Proof. intros Hk. unfold unique_on. rewrite map_alter_same by exact Hk. reflexivity. Qed.

End SessionFacts.

(** ** Cleanup of old jobs *)

(** What [cleanup_old_jobs] deletes on a consistent database: exactly the
    rows whose status is COMPLETED or FAILED and whose [completed_at] lies
    more than seven days back. *)
Lemma cleanup_old_jobs_deletes (now : Z) (t : Db.Tables) :
  Db.constraints_ok t = true ->
  let r := Tasks.cleanup_old_jobs now t in
  Tasks.outcome r
  = inr (Tasks.Cleaned
           (Z.of_nat (length (List.filter
                                (Tasks.old_job (now - Tasks.seven_days))
                                (Db.jobs t)))))
  /\ Db.jobs (Db.committed (Tasks.session r))
     = List.filter (fun j => negb (Tasks.old_job (now - Tasks.seven_days) j))
         (Db.jobs t)
  /\ Db.closed (Tasks.session r) = true.
Proof.
  intros Hok. unfold Tasks.cleanup_old_jobs, Db.bind, Db.delete_jobs. simpl.
  rewrite commit_clean.
  - simpl. rewrite delete_selected, <- where_rows, length_map. auto.
  - repeat split.
  - simpl. erewrite constraints_ok_rows; [exact Hok | reflexivity | reflexivity].
Qed.

(** C8 (the code at the failing input).  Three finished jobs whose
    [completed_at] is eight days old: the COMPLETED and the FAILED one are
    deleted, the CANCELLED one stays. *)
Theorem cleanup_old_jobs_keeps_cancelled :
  let job := fun (i : Z) (s : Job.JobStatus) =>
    Job.Make i None Job.SCRAPE_SERIES s None (Some 0) (Some 0) 0 3 None None in
  let t := Db.MkTables
             [job 1 Job.COMPLETED; job 2 Job.CANCELLED; job 3 Job.FAILED]
             [] [] [] 1 1 1 in
  let r := Tasks.cleanup_old_jobs (8 * 86400 * 1000000) t in
  Job.is_finished (job 2 Job.CANCELLED) = true
  /\ Tasks.outcome r = inr (Tasks.Cleaned 2)
  /\ Db.jobs (Db.committed (Tasks.session r)) = [job 2 Job.CANCELLED].
Proof. vm_compute. repeat split. Qed.

(** ** Failing executions of [scrape_series] *)

Section Failure.
Import Db Tasks.

Lemma commit_job_update (pos : nat) (f : Job.t -> Job.t) (db : Session) :
  clean db -> constraints_ok (current db) = true ->
  bind (update_job pos f) (fun _ => commit) db
  = (let t := with_jobs (alter f pos (jobs (current db))) (current db) in
     MkSession t t [] [] [] false (closed db) (log db ++ [Commit]), inr tt).
Proof.
  intros Hc Hok. unfold bind, update_job. rewrite commit_clean.
  - reflexivity.
  - destruct Hc as (? & ? & ? & ?). repeat split; assumption.
  - simpl. erewrite constraints_ok_rows; [exact Hok | reflexivity | reflexivity].
Qed.

(** One execution whose [try] block raises [exc] before the merge, on a
    consistent database: what is left in the database, what the session did,
    and what goes to the queue. *)
Lemma scrape_series_early_error (env : Env) (self : Request) (series_url : string)
    (job_id : option Z) (t : Tables) (q : list message) (exc : exn) :
  constraints_ok t = true ->
  early_error env series_url = Some exc ->
  let job := load_job job_id (get_sync_db t) in
  let r := scrape_series env self series_url job_id t q in
  committed (session r)
  = match job with
    | Some pos =>
        with_jobs (alter (fun j => set_failed exc true (set_running (id self) (now env) j))
                     pos (jobs t)) t
    | None => t
    end
  /\ log (session r)
     = match job with
       | Some _ => [Commit; Commit; Rollback; Close]
       | None => [Rollback; Close]
       end
  /\ closed (session r) = true
  /\ (queue r, outcome r)
     = (let '(q', raised) := retry 3 self (ScrapeSeries series_url job_id) exc q in
        (q', inl raised)).
Proof.
  intros Hok Hearly job r. subst r. unfold scrape_series. fold job.
  assert (Htry : scrape_series_try env self series_url job (get_sync_db t)
                 = (match job with
                    | Some pos =>
                        let t' := with_jobs (alter (set_running (id self) (now env)) pos (jobs t)) t in
                        MkSession t' t' [] [] [] false false [Commit]
                    | None => get_sync_db t
                    end, inl exc)).
  { unfold scrape_series_try, start_job. unfold early_error in Hearly.
    destruct job as [pos |].
    - unfold bind at 1. rewrite commit_job_update by (repeat split; assumption).
      simpl. destruct (Registry.get_scraper_for_url (netloc env) series_url) as [sc |].
      + unfold bind, lift. destruct (run_scrape_series env sc series_url); congruence.
      + unfold raise. congruence.
    - unfold bind, ret.
      destruct (Registry.get_scraper_for_url (netloc env) series_url) as [sc |].
      + unfold lift. destruct (run_scrape_series env sc series_url); congruence.
      + unfold raise. congruence. }
  rewrite Htry. unfold on_error. destruct job as [pos |].
  - rewrite commit_job_update.
    + simpl. destruct (retry 3 self _ exc q) as [q' raised]. simpl.
      repeat split. unfold with_jobs. simpl. f_equal.
      rewrite list_alter_alter_eq. reflexivity.
    + repeat split.
    + simpl. erewrite constraints_ok_rows; [exact Hok | reflexivity | reflexivity].
  - unfold ret. simpl. destruct (retry 3 self _ exc q) as [q' raised]. simpl.
    repeat split.
Qed.

End Failure.

(** ** No adapter for the URL *)

(** C7 (counterexample).  [example.com] has no entry in the registry, and
    the first execution queues the task again. *)
Lemma scrape_series_unknown_host_is_retried :
  let url := "https://example.com/manga/test/" in
  let env := Tasks.MkEnv Registry.urlparse_netloc
               (fun _ _ => inl (Db.AdapterError "unreachable"))
               (fun _ _ => inl (Db.AdapterError "unreachable"))
               (fun _ _ _ _ => inl (Db.StorageError "unreachable")) 1000 in
  let r := Tasks.scrape_series env (Tasks.MkRequest "task-1" 0) url None
             (Db.MkTables [] [] [] [] 1 1 1) [] in
  Registry.SCRAPER_REGISTRY !! lower (Registry.urlparse_netloc url) = None
  /\ Tasks.outcome r
     = inl (Db.Retry (Db.ValueError
                        "No scraper available for URL: https://example.com/manga/test/"))
  /\ Tasks.queue r = [Tasks.MkMessage (Tasks.ScrapeSeries url None) 1].
Proof. vm_compute. repeat split. Qed.

(** C7 (amended).  When the hostname of the URL has no entry in the
    registry, [scrape_series] raises its [ValueError] whatever the adapters
    would answer, and the error takes the ordinary retry path: the task is
    queued again while [request.retries] is below 3, and the [ValueError]
    itself leaves the task only on the execution with [retries = 3].  No
    series, chapter or image row changes. *)
Theorem scrape_series_unknown_host (env : Tasks.Env) (self : Tasks.Request)
    (series_url : string) (job_id : option Z) (t : Db.Tables)
    (q : list Tasks.message) :
  Db.constraints_ok t = true ->
  Registry.SCRAPER_REGISTRY !! lower (Tasks.netloc env series_url) = None ->
  let r := Tasks.scrape_series env self series_url job_id t q in
  let exc := Db.ValueError ("No scraper available for URL: " +:+ series_url) in
  (Tasks.queue r, Tasks.outcome r)
  = (if 3 <=? Tasks.retries self then (q, inl exc)
     else (q ++ [Tasks.MkMessage (Tasks.ScrapeSeries series_url job_id)
                   (Tasks.retries self + 1)],
           inl (Db.Retry exc)))
  /\ Db.series (Db.committed (Tasks.session r)) = Db.series t
  /\ Db.chapters (Db.committed (Tasks.session r)) = Db.chapters t
  /\ Db.images (Db.committed (Tasks.session r)) = Db.images t.
Proof.
  intros Hok Hreg r exc.
  assert (Hearly : Tasks.early_error env series_url = Some exc).
  { unfold Tasks.early_error, Registry.get_scraper_for_url. rewrite Hreg. reflexivity. }
  destruct (scrape_series_early_error env self series_url job_id t q exc Hok Hearly)
    as (Hc & _ & _ & Hq).
  fold r in Hc, Hq. rewrite Hq, Hc. unfold Tasks.retry.
  destruct (3 <=? Tasks.retries self);
    (split; [reflexivity |]);
    destruct (Tasks.load_job job_id (Db.get_sync_db t)); auto.
Qed.

Lemma scrape_series_unknown_host_witness :
  let url := "https://example.com/manga/test/" in
  let env := Tasks.MkEnv Registry.urlparse_netloc
               (fun _ _ => inl (Db.AdapterError "unreachable"))
               (fun _ _ => inl (Db.AdapterError "unreachable"))
               (fun _ _ _ _ => inl (Db.StorageError "unreachable")) 1000 in
  let t := Db.MkTables [] [] [] [] 1 1 1 in
  let r := Tasks.scrape_series env (Tasks.MkRequest "task-1" 3) url None t [] in
  Db.series (Db.committed (Tasks.session r)) = Db.series t.
Proof.
  intros url env t.
  refine (proj1 (proj2 (scrape_series_unknown_host env (Tasks.MkRequest "task-1" 3)
                          url None t [] _ _))).
  - reflexivity.
  - vm_compute. reflexivity.
Defined.

(** ** Retry budget *)

Section RetryBudget.
Import Db Tasks.

(** An attribute change that keeps what a query tests keeps the positions
    the query finds. *)
Lemma where_alter_positions {A : Type} (test : A -> bool) (f : A -> A)
    (rows : list A) :
  (forall r, test (f r) = test r) ->
  forall (p : nat) (g : nat -> A -> nat * A),
    (forall i r, (g i r).2 = r) ->
    (forall i r r', (g i r).1 = (g i r').1) ->
    map fst (List.filter (fun ir => test ir.2) (imap g (alter f p rows)))
    = map fst (List.filter (fun ir => test ir.2) (imap g rows)).
Proof.
  intros Hf. induction rows as [| r rows IH]; intros p g H2 H1; [reflexivity |].
  destruct p as [| p]; simpl; rewrite !H2.
  - rewrite Hf. destruct (test r); simpl; [rewrite (H1 0%nat (f r) r) |]; reflexivity.
  - destruct (test r); simpl; [f_equal |]; apply IH; intros; (apply H2 || apply H1).
Qed.

Lemma load_job_alter (job_id : option Z) (pos : nat) (t : Tables)
    (f : Job.t -> Job.t) :
  (forall j, Job.id (f j) = Job.id j) ->
  load_job job_id (get_sync_db (with_jobs (alter f pos (jobs t)) t))
  = load_job job_id (get_sync_db t).
Proof.
  intros Hid. unfold load_job. destruct job_id as [i |]; [| reflexivity].
  destruct (i =? 0); [reflexivity |]. simpl.
  unfold get.
  assert (Hhead : forall l : list (nat * Job.t), fst <$> head l = head (map fst l))
    by (intros [| [? ?] ?]; reflexivity).
  rewrite !Hhead. unfold where_. f_equal.
  apply (where_alter_positions (fun r => Job.id r =? i) f (jobs t)).
  - intros j. rewrite Hid. reflexivity.
  - reflexivity.
  - reflexivity.
Qed.

Variables (env : nat -> Env) (task_id series_url : string) (job_id : option Z)
          (pos : nat).

(** Every execution fails before the merge. *)
Hypothesis always_fails : forall n, is_Some (early_error (env n) series_url).

Lemma failed_once_id (n : nat) (j : Job.t) :
  Job.id (failed_once env task_id series_url n j) = Job.id j.
Proof. unfold failed_once. destruct (early_error (env n) series_url); reflexivity. Qed.

(** One link of the chain. *)
Lemma execute_failing (n : nat) (k : Z) (t : Tables) :
  constraints_ok t = true ->
  load_job job_id (get_sync_db t) = Some pos ->
  let r := execute (env n) task_id (MkMessage (ScrapeSeries series_url job_id) k) t in
  let t' := with_jobs (alter (failed_once env task_id series_url n) pos (jobs t)) t in
  committed (session r) = t'
  /\ constraints_ok t' = true
  /\ load_job job_id (get_sync_db t') = Some pos
  /\ retry_message r
     = (if k <? 3 then Some (MkMessage (ScrapeSeries series_url job_id) (k + 1))
        else None).
Proof.
  intros Hok Hjob r t'. subst r t'. unfold execute. simpl.
  destruct (always_fails n) as [exc Hexc].
  destruct (scrape_series_early_error (env n) (MkRequest task_id k) series_url
              job_id t [] exc Hok Hexc) as (Hc & _ & _ & Hq).
  rewrite Hjob in Hc. simpl in Hc.
  assert (Hfo : failed_once env task_id series_url n
                = fun j => set_failed exc true (set_running task_id (now (env n)) j)).
  { unfold failed_once. rewrite Hexc. reflexivity. }
  rewrite Hfo. split; [exact Hc |]. split; [| split].
  - erewrite constraints_ok_rows; [exact Hok | reflexivity | reflexivity].
  - rewrite load_job_alter; [exact Hjob | reflexivity].
  - unfold retry_message. unfold retry in Hq. simpl in Hq.
    destruct (Z.leb_spec 3 k); destruct (Z.ltb_spec k 3); try lia;
      injection Hq as Hq1 Hq2; rewrite Hq1, Hq2.
    + destruct exc; reflexivity.
    + reflexivity.
Qed.

(** The chain of executions that starts with [k] retries already used. *)
Lemma work_failing (m : nat) :
  forall (fuel n : nat) (k : Z) (t : Tables) (j : Job.t),
    (m < fuel)%nat -> k = 3 - Z.of_nat m ->
    constraints_ok t = true ->
    load_job job_id (get_sync_db t) = Some pos ->
    jobs t !! pos = Some j ->
    let runs := work fuel env task_id n
                  (MkMessage (ScrapeSeries series_url job_id) k) t in
    length runs = S m
    /\ forall (i : nat) (r : Run), runs !! i = Some r ->
         exists exc j',
           early_error (env (n + i)%nat) series_url = Some exc
           /\ jobs (committed (session r)) !! pos = Some j'
           /\ Job.status j' = Job.FAILED
           /\ Job.error_message j' = Some (str exc)
           /\ Job.error_traceback j' = Some (format_exc exc)
           /\ Job.retry_count j' = Job.retry_count j + Z.of_nat i + 1
           /\ Job.max_retries j' = Job.max_retries j
           /\ retry_message r
              = (if k + Z.of_nat i <? 3
                 then Some (MkMessage (ScrapeSeries series_url job_id)
                              (k + Z.of_nat i + 1))
                 else None).
Proof.
  induction m as [| m IH]; intros fuel n k t j Hfuel Hk Hok Hjob Hj runs;
    subst runs; (destruct fuel as [| fuel]; [lia |]); simpl work;
    destruct (execute_failing n k t Hok Hjob) as (Hc & Hok' & Hjob' & Hmsg);
    rewrite Hmsg;
    (assert (Hj' : jobs (with_jobs (alter (failed_once env task_id series_url n) pos (jobs t)) t)
                   !! pos = Some (failed_once env task_id series_url n j))
       by (simpl; rewrite list_lookup_alter_eq, Hj; reflexivity));
    destruct (always_fails n) as [exc Hexc];
    (assert (Hhead : exists exc j',
               early_error (env (n + 0)%nat) series_url = Some exc
               /\ jobs (committed (session (execute (env n) task_id
                          (MkMessage (ScrapeSeries series_url job_id) k) t))) !! pos
                  = Some j'
               /\ Job.status j' = Job.FAILED
               /\ Job.error_message j' = Some (str exc)
               /\ Job.error_traceback j' = Some (format_exc exc)
               /\ Job.retry_count j' = Job.retry_count j + Z.of_nat 0 + 1
               /\ Job.max_retries j' = Job.max_retries j
               /\ retry_message (execute (env n) task_id
                          (MkMessage (ScrapeSeries series_url job_id) k) t)
                  = (if k + Z.of_nat 0 <? 3
                     then Some (MkMessage (ScrapeSeries series_url job_id)
                                  (k + Z.of_nat 0 + 1))
                     else None))
       by (exists exc, (failed_once env task_id series_url n j);
           rewrite Hc, Hj', Hmsg, Nat.add_0_r, !Z.add_0_r; unfold failed_once;
           rewrite Hexc; simpl; repeat split; lia)).
  - destruct (Z.ltb_spec k 3); [lia |]. split; [reflexivity |].
    intros [| i] r Hr; [| discriminate]. injection Hr as <-. exact Hhead.
  - destruct (Z.ltb_spec k 3); [| lia]. rewrite Hc.
    destruct (IH fuel (S n) (k + 1) _ (failed_once env task_id series_url n j)
                ltac:(lia) ltac:(lia) Hok' Hjob' Hj') as [Hlen Hruns].
    split; [simpl; rewrite Hlen; reflexivity |].
    intros [| i] r Hr; [injection Hr as <-; exact Hhead |].
    destruct (Hruns i r Hr) as (e & j' & H1 & H2 & H3 & H4 & H5 & H6 & H7 & H8).
    exists e, j'. replace (n + S i)%nat with (S n + i)%nat by lia.
    unfold failed_once in H6, H7. rewrite Hexc in H6, H7. simpl in H6, H7.
    replace (k + Z.of_nat (S i)) with (k + 1 + Z.of_nat i) by lia.
    repeat split; try assumption; lia.
Qed.

End RetryBudget.

(** C2 (counterexample).  A job with [max_retries = 3] whose adapter fails
    every time.  After the first failure the job is FAILED although the task
    is queued again; after three failures in a row a further retry is still
    queued; the job ends FAILED with [retry_count = 4]. *)
Lemma scrape_series_retry_count_exceeds_max_retries :
  let url := "https://www.mgeko.cc/manga/solo/" in
  let env := fun _ : nat =>
    Tasks.MkEnv Registry.urlparse_netloc
      (fun _ _ => inl (Db.AdapterError "timeout"))
      (fun _ _ => inl (Db.AdapterError "timeout"))
      (fun _ _ _ _ => inl (Db.StorageError "timeout")) 1000 in
  let job := Job.Make 1 None Job.SCRAPE_SERIES Job.PENDING None None None 0 3
               None None in
  let t := Db.MkTables [job] [] [] [] 1 1 1 in
  let runs := Tasks.work 10 env "task-1" 0
                (Tasks.MkMessage (Tasks.ScrapeSeries url (Some 1)) 0) t in
  map (fun r => (Job.status <$> head (Db.jobs (Db.committed (Tasks.session r))),
                 Job.retry_count <$> head (Db.jobs (Db.committed (Tasks.session r))),
                 Tasks.msg_retries <$> Tasks.retry_message r)) runs
  = [(Some Job.FAILED, Some 1, Some 1); (Some Job.FAILED, Some 2, Some 2);
     (Some Job.FAILED, Some 3, Some 3); (Some Job.FAILED, Some 4, None)]
  /\ Job.max_retries job = 3.
Proof. vm_compute. split; reflexivity. Qed.

(** C2 (amended).  A [scrape_series] job whose executions all fail before
    the merge (no adapter, or the adapter raises), on a consistent database.
    The task runs four times: the first execution and the three retries that
    [max_retries=3] of the task allows; the job's own [max_retries] is not
    consulted.  Every failed execution leaves the job FAILED with the
    message and traceback of its exception and [retry_count] one higher; the
    first three queue the task again, the fourth does not, and the job ends
    with [retry_count] four higher than it started. *)
Theorem scrape_series_retry_budget (env : nat -> Tasks.Env)
    (task_id series_url : string) (job_id : option Z) (pos : nat)
    (t : Db.Tables) (j : Job.t) :
  Db.constraints_ok t = true ->
  Tasks.load_job job_id (Db.get_sync_db t) = Some pos ->
  Db.jobs t !! pos = Some j ->
  (forall n, is_Some (Tasks.early_error (env n) series_url)) ->
  let runs := Tasks.work 10 env task_id 0
                (Tasks.MkMessage (Tasks.ScrapeSeries series_url job_id) 0) t in
  length runs = 4%nat
  /\ forall (i : nat) (r : Tasks.Run), runs !! i = Some r ->
       exists exc j',
         Tasks.early_error (env i) series_url = Some exc
         /\ Db.jobs (Db.committed (Tasks.session r)) !! pos = Some j'
         /\ Job.status j' = Job.FAILED
         /\ Job.error_message j' = Some (Tasks.str exc)
         /\ Job.error_traceback j' = Some (Tasks.format_exc exc)
         /\ Job.retry_count j' = Job.retry_count j + Z.of_nat i + 1
         /\ Job.max_retries j' = Job.max_retries j
         /\ Tasks.retry_message r
            = (if Z.of_nat i <? 3
               then Some (Tasks.MkMessage (Tasks.ScrapeSeries series_url job_id)
                            (Z.of_nat i + 1))
               else None).
Proof.
  intros Hok Hjob Hj Hfail.
  exact (work_failing env task_id series_url job_id pos Hfail 3 10 0 0 t j
           ltac:(lia) ltac:(lia) Hok Hjob Hj).
Qed.

Lemma scrape_series_retry_budget_witness :
  let env := fun _ : nat =>
    Tasks.MkEnv Registry.urlparse_netloc
      (fun _ _ => inl (Db.AdapterError "timeout"))
      (fun _ _ => inl (Db.AdapterError "timeout"))
      (fun _ _ _ _ => inl (Db.StorageError "timeout")) 1000 in
  let job := Job.Make 1 None Job.SCRAPE_SERIES Job.PENDING None None None 0 3
               None None in
  let t := Db.MkTables [job] [] [] [] 1 1 1 in
  length (Tasks.work 10 env "task-1" 0
            (Tasks.MkMessage
               (Tasks.ScrapeSeries "https://www.mgeko.cc/manga/solo/" (Some 1)) 0) t)
  = 4%nat.
Proof.
  intros env job t.
  refine (proj1 (scrape_series_retry_budget env "task-1"
                   "https://www.mgeko.cc/manga/solo/" (Some 1) 0 t job _ _ _ _)).
  - reflexivity.
  - reflexivity.
  - reflexivity.
  - intros n. exists (Db.AdapterError "timeout"). vm_compute. reflexivity.
Defined.

(** ** Transactions *)

Section Transactions.
Import Db Tasks.

Lemma quiet_ret {A : Type} (a : A) : quiet (ret a).
Proof. intros db db' r [= <- <-]. auto. Qed.

Lemma quiet_raise {A : Type} (e : exn) : quiet (@raise A e).
Proof. intros db db' r [= <- <-]. auto. Qed.

Lemma quiet_lift {A : Type} (x : exn + A) : quiet (lift x).
Proof. intros db db' r [= <- <-]. auto. Qed.

Lemma quiet_bind {A B : Type} (m : M A) (k : A -> M B) :
  quiet m -> (forall a, quiet (k a)) -> quiet (bind m k).
Proof.
  intros Hm Hk db db' r. unfold bind.
  destruct (m db) as [db1 [e | a]] eqn:Em.
  - intros [= <- <-]. exact (Hm _ _ _ Em).
  - intros Ek. destruct (Hm _ _ _ Em) as [<- <-]. exact (Hk a _ _ _ Ek).
Qed.

Lemma quiet_flush : quiet flush.
Proof.
  intros db db' r. unfold flush.
  destruct (inactive db); [intros [= <- <-]; auto |].
  destruct (constraints_ok (flushed db)); intros [= <- <-]; auto.
Qed.

Lemma quiet_update_job (pos : nat) (f : Job.t -> Job.t) : quiet (update_job pos f).
Proof. intros db db' r [= <- <-]. auto. Qed.

Lemma quiet_update_series (pos : nat) (f : Series.t -> Series.t) :
  quiet (update_series pos f).
Proof. intros db db' r [= <- <-]. auto. Qed.

Lemma quiet_update_chapter (pos : nat) (f : Chapter.t -> Chapter.t) :
  quiet (update_chapter pos f).
Proof. intros db db' r [= <- <-]. auto. Qed.

Lemma quiet_add_series (s : Series.t) : quiet (add_series s).
Proof. intros db db' r [= <- <-]. auto. Qed.

Lemma quiet_add_chapter (c : Chapter.t) : quiet (add_chapter c).
Proof. intros db db' r [= <- <-]. auto. Qed.

Lemma quiet_add_image (m : ChapterImage.t) : quiet (add_image m).
Proof. intros db db' r [= <- <-]. auto. Qed.

Create HintDb quiet.
#[local] Hint Resolve quiet_ret quiet_raise quiet_lift quiet_bind quiet_flush
  quiet_update_job quiet_update_series quiet_update_chapter
  quiet_add_series quiet_add_chapter quiet_add_image : quiet.

Lemma quiet_save_series (d : SeriesData.t) : quiet (save_series d).
Proof.
  intros db db' r. unfold save_series.
  destruct (scalar_one_or_none _) as [e | [[pos s] |]].
  - intros [= <- <-]. auto.
  - apply quiet_bind; auto with quiet.
  - apply quiet_bind; auto 6 with quiet.
Qed.

Lemma quiet_save_chapters (series_id : Z) (chs : list ChapterData.t) :
  forall added, quiet (save_chapters series_id chs added).
Proof.
  induction chs as [| ch rest IH]; intros added db db' r; simpl.
  - intros [= <- <-]. auto.
  - destruct (scalar_one_or_none _) as [e | [found |]].
    + intros [= <- <-]. auto.
    + apply IH.
    + apply quiet_bind; auto with quiet.
Qed.

Lemma quiet_save_images (chapter_id : Z) (images_data : list ImageData.t) :
  quiet (save_images chapter_id images_data).
Proof.
  induction images_data as [| d rest IH]; intros db db' r; simpl.
  - intros [= <- <-]. auto.
  - destruct (scalar_one_or_none _) as [e | [found |]].
    + intros [= <- <-]. auto.
    + apply IH.
    + apply quiet_bind; auto with quiet.
Qed.

(** A commit that raises has made nothing durable. *)
Lemma commit_inl (db db' : Session) (e : exn) :
  commit db = (db', inl e) -> committed db' = committed db /\ log db' = log db.
Proof.
  unfold commit. destruct (flush db) as [db1 [e1 | []]] eqn:Ef; [| discriminate].
  intros [= <- <-]. exact (quiet_flush _ _ _ Ef).
Qed.

(** A quiet step followed directly by a commit: when the pair raises,
    nothing was made durable. *)
Lemma then_commit_inl {A B : Type} (m : M A) (k : A -> M B)
    (db db' : Session) (e : exn) :
  quiet m ->
  bind m (fun a => bind commit (fun _ => k a)) db = (db', inl e) ->
  (committed db' = committed db /\ log db' = log db)
  \/ exists db1 db2 a, m db = (db1, inr a) /\ commit db1 = (db2, inr tt)
                       /\ k a db2 = (db', inl e).
Proof.
  intros Hm H. apply bind_inl in H as [H | (db1 & a & Hma & H)].
  - left. exact (Hm _ _ _ H).
  - destruct (Hm _ _ _ Hma) as [Hc Hl].
    apply bind_inl in H as [H | (db2 & [] & Hcommit & H)].
    + left. apply commit_inl in H as [-> ->]. auto.
    + right. eauto 6.
Qed.

Lemma merge_series_inl (now : Z) (d : SeriesData.t) (db db' : Session) (e : exn) :
  merge_series now d db = (db', inl e) ->
  committed db' = committed db /\ log db' = log db.
Proof.
  unfold merge_series. intros H.
  apply bind_inl in H as [H | (db1 & pos & Hs & H)];
    [exact (quiet_save_series _ _ _ _ H) |].
  destruct (quiet_save_series _ _ _ _ Hs) as [<- <-].
  apply bind_inl in H as [H | (? & series_id & [= <- <-] & H)]; [discriminate |].
  apply bind_inl in H as [H | (db2 & added & Hc & H)];
    [exact (quiet_save_chapters _ _ _ _ _ _ H) |].
  destruct (quiet_save_chapters _ _ _ _ _ _ Hc) as [<- <-].
  apply then_commit_inl in H as [H | (? & ? & ? & _ & _ & H)];
    [exact H | discriminate | apply quiet_update_series].
Qed.

(** Without a job record, a [try] block that raises has committed nothing. *)
Lemma scrape_series_try_inl (env : Env) (self : Request) (series_url : string)
    (db db' : Session) (e : exn) :
  scrape_series_try env self series_url None db = (db', inl e) ->
  committed db' = committed db /\ log db' = log db.
Proof.
  unfold scrape_series_try, start_job, complete_job. intros H.
  apply bind_inl in H as [H | (db1 & [] & [= <-] & H)]; [discriminate |].
  destruct (Registry.get_scraper_for_url _ _) as [sc |];
    [| exact (quiet_raise _ _ _ _ H)].
  apply bind_inl in H as [H | (db2 & d & Hl & H)];
    [exact (quiet_lift _ _ _ _ H) |].
  destruct (quiet_lift _ _ _ _ Hl) as [<- <-].
  apply bind_inl in H as [H | (db3 & [sid added] & _ & H)];
    [exact (merge_series_inl _ _ _ _ _ H) |].
  apply bind_inl in H as [H | (? & ? & _ & H)]; discriminate.
Qed.

Lemma scrape_chapter_save_inl (env : Env) (self : Request) (chapter_id : Z)
    (chapter : nat * Chapter.t) (db db' : Session) (e : exn) :
  scrape_chapter_save env self chapter_id chapter None db = (db', inl e) ->
  committed db' = committed db /\ log db' = log db.
Proof.
  unfold scrape_chapter_save, start_job. intros H.
  apply bind_inl in H as [H | (db1 & [] & [= <-] & H)]; [discriminate |].
  destruct (Registry.get_scraper_for_url _ _) as [sc |];
    [| exact (quiet_raise _ _ _ _ H)].
  apply bind_inl in H as [H | (db2 & d & Hl & H)];
    [exact (quiet_lift _ _ _ _ H) |].
  destruct (quiet_lift _ _ _ _ Hl) as [<- <-].
  apply bind_inl in H as [H | (db3 & [] & Hi & H)];
    [exact (quiet_save_images _ _ _ _ _ H) |].
  destruct (quiet_save_images _ _ _ _ _ Hi) as [<- <-].
  apply then_commit_inl in H as [H | (? & ? & ? & _ & _ & H)];
    [exact H | discriminate | apply quiet_update_chapter].
Qed.

Lemma on_error_closes (max_retries : Z) (tb : bool) (self : Request) (me : call)
    (job : option nat) (exc : exn) (db : Session) (q : list message) :
  let r := on_error max_retries tb self me job exc db q in
  closed (session r) = true /\ last (log (session r)) = Some Close.
Proof.
  unfold on_error. destruct job as [pos |].
  - destruct (bind (update_job pos _) _ db) as [db1 [e | []]]; simpl.
    + split; [reflexivity | apply last_snoc].
    + destruct (retry max_retries self me exc q). simpl.
      split; [reflexivity | apply last_snoc].
  - unfold ret. simpl. destruct (retry max_retries self me exc q). simpl.
    split; [reflexivity | apply last_snoc].
Qed.

Lemma on_error_no_job (max_retries : Z) (tb : bool) (self : Request) (me : call)
    (exc : exn) (db : Session) (q : list message) :
  let r := on_error max_retries tb self me None exc db q in
  committed (session r) = committed db
  /\ log (session r) = log db ++ [Rollback; Close].
Proof.
  unfold on_error, ret. simpl. destruct (retry max_retries self me exc q). simpl.
  rewrite <- app_assoc. auto.
Qed.

End Transactions.




(** The handler commits before it rolls back, so with a job record attached
    whatever the failed execution had added to the session becomes durable.
    Page 1 of chapter 7 is stored twice (no constraint forbids it); a later
    scrape adds page 2, fails on the lookup of page 1, and the handler's
    commit stores page 2 together with the job's failure. *)
Example scrape_chapter_handler_commits_pending_image :
  let env := Tasks.MkEnv Registry.urlparse_netloc
               (fun _ _ => inl (Db.AdapterError "unused"))
               (fun _ _ => inr [Tasks.ImageData.Make 2 "https://cdn/2.jpg";
                                Tasks.ImageData.Make 1 "https://cdn/1.jpg"])
               (fun _ _ _ _ => inl (Db.StorageError "unused")) 1000 in
  let page1 := fun i : Z =>
    ChapterImage.Make i 7 1 "https://cdn/1.jpg" None None None None false in
  let t := Db.MkTables
             [Job.Make 1 None Job.SCRAPE_CHAPTER Job.PENDING None None None 0 3
                None None]
             []
             [Chapter.Make 7 1 (5 # 1) "https://www.mgeko.cc/reader/solo-5/"
                None None false None 0]
             [page1 1; page1 2] 2 8 3 in
  let r := Tasks.scrape_chapter env (Tasks.MkRequest "task-1" 0) 7 (Some 1) t [] in
  Tasks.outcome r = inl (Db.Retry Db.MultipleResultsFound)
  /\ map ChapterImage.page_number (Db.images (Db.committed (Tasks.session r)))
     = [1; 1; 2]
  /\ (Chapter.is_scraped <$> head (Db.chapters (Db.committed (Tasks.session r))))
     = Some false.
Proof. vm_compute. repeat split. Qed.

(** ** Successful steps *)

Section Steps.
Import Db Tasks.

Lemma get_spec {A : Type} (pk : A -> Z) (rows : list A) (key : Z) (pos : nat) (r : A) :
  get pk rows key = Some (pos, r) -> rows !! pos = Some r /\ pk r = key.
Proof.
  unfold get. intros H. apply head_Some in H as [rest H].
  assert (Hin : In (pos, r) (where_ (fun r => pk r =? key) rows))
    by (rewrite H; left; reflexivity).
  apply where_spec in Hin as [Hr Hk]. split; [exact Hr | lia].
Qed.

(** A commit that goes through: the flushed rows are now both the current
    and the committed ones. *)
Lemma commit_inr (db db' : Session) (u : unit) :
  commit db = (db', inr u) ->
  constraints_ok (flushed db) = true
  /\ db' = MkSession (flushed db) (flushed db) [] [] [] false (closed db)
             (log db ++ [Commit]).
Proof.
  unfold commit, flush. destruct (inactive db); [discriminate |].
  destruct (constraints_ok (flushed db)); [| discriminate].
  simpl. intros [= <-]. auto.
Qed.

(** The job blocks at the start and at the end of a task, when they go
    through on a clean session: only job rows change. *)
Lemma job_block_inr (job : option nat) (f : Job.t -> Job.t) (db db' : Session) :
  clean db ->
  match job with
  | Some pos => bind (update_job pos f) (fun _ => commit)
  | None => ret tt
  end db = (db', inr tt) ->
  clean db'
  /\ series (current db') = series (current db)
  /\ chapters (current db') = chapters (current db)
  /\ images (current db') = images (current db)
  /\ series_seq (current db') = series_seq (current db)
  /\ chapters_seq (current db') = chapters_seq (current db)
  /\ images_seq (current db') = images_seq (current db)
  /\ closed db' = closed db
  /\ match job with
     | Some _ => constraints_ok (current db) = true
                 /\ committed db' = current db'
     | None => db' = db
     end.
Proof.
  intros Hclean. destruct job as [pos |].
  - intros H. apply bind_inr in H as (db1 & [] & [= <-] & H).
    apply commit_inr in H as [Hok ->].
    rewrite flushed_clean in * by (destruct Hclean as (? & ? & ? & ?); repeat split; assumption).
    simpl in *. repeat split.
    erewrite <- constraints_ok_rows; [exact Hok | reflexivity | reflexivity].
  - intros [= <-]. repeat split; apply Hclean.
Qed.

Lemma save_images_frame (chapter_id : Z) (images_data : list ImageData.t) :
  forall (db db' : Session) (r : exn + unit),
    save_images chapter_id images_data db = (db', r) ->
    current db' = current db /\ new_series db' = new_series db
    /\ new_chapters db' = new_chapters db /\ inactive db' = inactive db
    /\ closed db' = closed db.
Proof.
  induction images_data as [| d rest IH]; intros db db' r; simpl.
  - intros [= <- <-]. auto.
  - destruct (scalar_one_or_none _) as [e | [found |]].
    + intros [= <- <-]. auto.
    + apply IH.
    + unfold bind, add_image. intros H. apply IH in H. simpl in H. exact H.
Qed.

Lemma on_error_raises (max_retries : Z) (tb : bool) (self : Request) (me : call)
    (job : option nat) (exc : exn) (db : Session) (q : list message)
    (r : returned) :
  outcome (on_error max_retries tb self me job exc db q) <> inr r.
Proof.
  unfold on_error. destruct job as [pos |].
  - destruct (bind (update_job pos _) _ db) as [db1 [e | []]]; simpl; [discriminate |].
    destruct (retry max_retries self me exc q). simpl. discriminate.
  - unfold ret. simpl. destruct (retry max_retries self me exc q). simpl. discriminate.
Qed.

End Steps.

(** ** Chapter scrape *)

(** The empty list is no failure: on a consistent database, for a chapter
    that exists and whose adapter answers with no image at all,
    [scrape_chapter] returns. *)
Lemma scrape_chapter_returns_on_empty_list (env : Tasks.Env) (self : Tasks.Request)
    (chapter_id : Z) (job_id : option Z) (t : Db.Tables)
    (q : list Tasks.message) (pos : nat) (c : Chapter.t)
    (scraper : Registry.scraper) :
  Db.constraints_ok t = true ->
  Db.get Chapter.id (Db.chapters t) chapter_id = Some (pos, c) ->
  Registry.get_scraper_for_url (Tasks.netloc env) (Chapter.source_url c)
  = Some scraper ->
  Tasks.run_scrape_chapter env scraper (Chapter.source_url c) = inr [] ->
  Tasks.outcome (Tasks.scrape_chapter env self chapter_id job_id t q)
  = inr (Tasks.ChapterScraped chapter_id 0).
Proof.
  intros Hok Hget Hsc Hrun. unfold Tasks.scrape_chapter. simpl Db.current.
  rewrite Hget.
  assert (Hok' : forall js cs,
             Db.constraints_ok
               (Db.MkTables js (Db.series t) cs (Db.images t) (Db.series_seq t)
                  (Db.chapters_seq t) (Db.images_seq t))
             = Db.unique_on Db.same_source Db.series_source (Db.series t)
               && Db.unique_on String.eqb Series.slug (Db.series t)
               && Db.unique_on Db.same_chapter Db.chapter_key cs)
    by reflexivity.
  assert (Hkeys : forall f,
             Db.unique_on Db.same_chapter Db.chapter_key
               (alter (Tasks.scraped (Tasks.now env) f) pos (Db.chapters t))
             = Db.unique_on Db.same_chapter Db.chapter_key (Db.chapters t))
    by (intros f; apply unique_on_alter; reflexivity).
  unfold Db.constraints_ok in Hok.
  destruct (Tasks.load_job job_id (Db.get_sync_db t)) as [p |].
  - eassert (Hsave : Tasks.scrape_chapter_save env self chapter_id (pos, c)
                       (Some p) (Db.get_sync_db t) = _).
    { unfold Tasks.scrape_chapter_save, Tasks.start_job. simpl fst. simpl snd.
      unfold Db.bind at 1.
      rewrite commit_job_update; [| apply get_sync_db_clean | exact Hok].
      cbv beta iota zeta. rewrite Hsc.
      unfold Db.bind at 1. unfold Tasks.lift. rewrite Hrun. cbv beta iota.
      unfold Db.bind, Tasks.save_images, Db.update_chapter, Db.ret. cbv beta iota.
      rewrite commit_clean; [| repeat split | simpl; rewrite Hok', Hkeys; exact Hok].
      reflexivity. }
    rewrite Hsave. unfold Tasks.complete_job.
    rewrite commit_job_update;
      [reflexivity | repeat split | simpl; rewrite Hok', Hkeys; exact Hok].
  - eassert (Hsave : Tasks.scrape_chapter_save env self chapter_id (pos, c)
                       None (Db.get_sync_db t) = _).
    { unfold Tasks.scrape_chapter_save, Tasks.start_job. simpl fst. simpl snd.
      unfold Db.bind at 1. unfold Db.ret at 1. cbv beta iota. rewrite Hsc.
      unfold Db.bind at 1. unfold Tasks.lift. rewrite Hrun. cbv beta iota.
      unfold Db.bind, Tasks.save_images, Db.update_chapter, Db.ret. cbv beta iota.
      rewrite commit_clean; [| repeat split | simpl; rewrite Hok', Hkeys; exact Hok].
      reflexivity. }
    rewrite Hsave. reflexivity.
Qed.

(** C10. Whenever [scrape_chapter] returns, the chapter existed, an adapter
    was found for its URL and answered with a list of images (possibly
    empty); the chapter row is committed with [is_scraped = true],
    [scraped_at] set to the time of the execution and [total_images] equal to
    the length of that list; and a [download_images] call for the same
    chapter has been added to the queue. *)
Theorem scrape_chapter_marks_scraped (env : Tasks.Env) (self : Tasks.Request)
    (chapter_id : Z) (job_id : option Z) (t : Db.Tables)
    (q : list Tasks.message) (ret : Tasks.returned) :
  Tasks.outcome (Tasks.scrape_chapter env self chapter_id job_id t q) = inr ret ->
  exists (pos : nat) (c c' : Chapter.t) (scraper : Registry.scraper)
         (images_data : list Tasks.ImageData.t),
    Db.chapters t !! pos = Some c
    /\ Chapter.id c = chapter_id
    /\ Registry.get_scraper_for_url (Tasks.netloc env) (Chapter.source_url c)
       = Some scraper
    /\ Tasks.run_scrape_chapter env scraper (Chapter.source_url c) = inr images_data
    /\ ret = Tasks.ChapterScraped chapter_id (Z.of_nat (length images_data))
    /\ Db.chapters (Db.committed
                      (Tasks.session
                         (Tasks.scrape_chapter env self chapter_id job_id t q)))
         !! pos = Some c'
    /\ Chapter.id c' = chapter_id
    /\ Chapter.is_scraped c' = true
    /\ Chapter.scraped_at c' = Some (Tasks.now env)
    /\ Chapter.total_images c' = Z.of_nat (length images_data)
    /\ Tasks.queue (Tasks.scrape_chapter env self chapter_id job_id t q)
       = q ++ [Tasks.MkMessage (Tasks.DownloadImages chapter_id) 0].
Proof.
  unfold Tasks.scrape_chapter.
  destruct (Db.get Chapter.id _ chapter_id) as [[pos c] |] eqn:Hget.
  2: { intros H. apply on_error_raises in H. destruct H. }
  apply get_spec in Hget as [Hc Hid]. simpl in Hc.
  destruct (Tasks.scrape_chapter_save env self chapter_id (pos, c) _ _)
    as [db1 [exc | n]] eqn:Esave.
  { intros H. apply on_error_raises in H. destruct H. }
  destruct (Tasks.complete_job _ _ _ db1) as [db2 [exc | []]] eqn:Ejob.
  { intros H. apply on_error_raises in H. destruct H. }
  simpl. intros [= <-].
  unfold Tasks.scrape_chapter_save in Esave.
  apply bind_inr in Esave as (db0 & [] & Hstart & Esave).
  apply job_block_inr in Hstart as (Hclean0 & _ & Hch0 & _); [| apply get_sync_db_clean].
  simpl in Esave.
  destruct (Registry.get_scraper_for_url _ _) as [scraper |] eqn:Hscraper;
    [| discriminate].
  apply bind_inr in Esave as (dbl & images_data & Hlift & Esave).
  unfold Tasks.lift in Hlift. injection Hlift as <- Hrun.
  apply bind_inr in Esave as (dbi & [] & Himg & Esave).
  apply save_images_frame in Himg as (Hcur & Hns & Hnc & Hin & _).
  apply bind_inr in Esave as (dbu & [] & Hupd & Esave).
  unfold Db.update_chapter in Hupd. injection Hupd as <-.
  apply bind_inr in Esave as (dbc & [] & Hcommit & Esave).
  injection Esave as <- <-.
  apply commit_inr in Hcommit as [_ ->].
  unfold Tasks.complete_job in Ejob.
  apply job_block_inr in Ejob as (_ & _ & Hch2 & _ & _ & _ & _ & _ & Hjob);
    [| repeat split].
  assert (Hfinal : Db.chapters (Db.committed db2)
                   = alter (Tasks.scraped (Tasks.now env) (length images_data)) pos
                       (Db.chapters t)).
  { destruct (Tasks.load_job job_id (Db.get_sync_db t)).
    - destruct Hjob as [_ ->]. rewrite Hch2. simpl.
      destruct Hclean0 as (_ & Hnc0 & _). rewrite Hnc, Hnc0, Hcur, Hch0. simpl.
      apply app_nil_r.
    - subst db2. simpl.
      destruct Hclean0 as (_ & Hnc0 & _). rewrite Hnc, Hnc0, Hcur, Hch0. simpl.
      apply app_nil_r. }
  exists pos, c, (Tasks.scraped (Tasks.now env) (length images_data) c),
    scraper, images_data.
  rewrite Hfinal, list_lookup_alter_eq, Hc. simpl. repeat split; assumption.
Qed.

Lemma scrape_chapter_marks_scraped_witness :
  let env := Tasks.MkEnv Registry.urlparse_netloc
               (fun _ _ => inl (Db.AdapterError "unused"))
               (fun _ _ => inr [])
               (fun _ _ _ _ => inl (Db.StorageError "unused")) 1000 in
  let t := Db.MkTables []
             []
             [Chapter.Make 7 1 (5 # 1) "https://www.mgeko.cc/reader/solo-5/"
                None None false None 0]
             [] 2 8 1 in
  Tasks.queue (Tasks.scrape_chapter env (Tasks.MkRequest "task-1" 0) 7 None t [])
  = [Tasks.MkMessage (Tasks.DownloadImages 7) 0].
Proof.
  intros env t.
  destruct (scrape_chapter_marks_scraped env (Tasks.MkRequest "task-1" 0) 7 None t []
              (Tasks.ChapterScraped 7 0) eq_refl)
    as (pos & c & c' & scraper & images_data & H).
  exact (proj2 (proj2 (proj2 (proj2 (proj2 (proj2 (proj2 (proj2 (proj2 (proj2 H)))))))))).
Defined.

(** ** Image download *)

Section Download.
Import Db Tasks.

Variables (env : Env) (series_id chapter_id : Z).

Lemma insert_by_page_existsb (f : nat * ChapterImage.t -> bool)
    (x : nat * ChapterImage.t) (l : list (nat * ChapterImage.t)) :
  existsb f (insert_by_page x l) = f x || existsb f l.
Proof.
  induction l as [| y r IH]; simpl; [reflexivity |].
  destruct (_ <=? _); simpl; [reflexivity |].
  rewrite IH. destruct (f x), (f y); reflexivity.
Qed.

Lemma order_by_page_number_existsb (f : nat * ChapterImage.t -> bool)
    (l : list (nat * ChapterImage.t)) :
  existsb f (order_by_page_number l) = existsb f l.
Proof.
  induction l as [| x r IH]; simpl; [reflexivity |].
  rewrite insert_by_page_existsb, IH. reflexivity.
Qed.

Lemma insert_by_page_count (f : nat * ChapterImage.t -> bool)
    (x : nat * ChapterImage.t) (l : list (nat * ChapterImage.t)) :
  length (List.filter f (insert_by_page x l)) = length (List.filter f (x :: l)).
Proof.
  induction l as [| y r IH]; simpl; [reflexivity |].
  destruct (_ <=? _); simpl; [reflexivity |].
  simpl in IH. destruct (f x), (f y); simpl in *; lia.
Qed.

Lemma order_by_page_number_count (f : nat * ChapterImage.t -> bool)
    (l : list (nat * ChapterImage.t)) :
  length (List.filter f (order_by_page_number l)) = length (List.filter f l).
Proof.
  induction l as [| x r IH]; simpl; [reflexivity |].
  rewrite insert_by_page_count. simpl. destruct (f x); simpl; lia.
Qed.

(** The images are handed to the store by increasing page number. *)
Lemma order_by_page_number_sorted (l : list (nat * ChapterImage.t)) :
  Sorted (fun a b => ChapterImage.page_number a.2 <= ChapterImage.page_number b.2)
    (order_by_page_number l).
Proof.
  induction l as [| x r IH]; simpl; [constructor |].
  revert IH. generalize (order_by_page_number r). intros s Hs.
  induction Hs as [| y s Hs IHs Hhd]; simpl; [repeat constructor |].
  destruct (Z.leb_spec (ChapterImage.page_number x.2) (ChapterImage.page_number y.2)).
  - constructor; [constructor; assumption | constructor; assumption].
  - constructor; [exact IHs |].
    destruct s as [| z s]; simpl.
    + constructor. lia.
    + destruct (_ <=? _); constructor; [lia | inversion Hhd; assumption].
Qed.

(** The loop never raises; it counts the images the store accepted and
    marks exactly those. *)
Lemma download_each_spec (todo : list (nat * ChapterImage.t)) :
  forall (db : Session) (downloaded : Z),
    exists ms,
      download_each env series_id chapter_id todo downloaded db
      = (set_current (with_images ms (current db)) db,
         inr (downloaded
              + Z.of_nat (length (List.filter
                                    (fun x => ingested env series_id chapter_id x.2)
                                    todo))))
      /\ forall (i : nat) (m : ChapterImage.t),
           images (current db) !! i = Some m ->
           exists m',
             ms !! i = Some m'
             /\ ChapterImage.page_number m' = ChapterImage.page_number m
             /\ ChapterImage.is_downloaded m'
                = ChapterImage.is_downloaded m
                  || existsb (fun x => Nat.eqb x.1 i
                                        && ingested env series_id chapter_id x.2)
                       todo.
Proof.
  remember (ingested env series_id chapter_id) as ing eqn:Hing.
  induction todo as [| [pos image] rest IH]; intros db downloaded.
  - exists (images (current db)). split.
    + simpl. unfold ret. rewrite Z.add_0_r. f_equal.
      destruct db as [c t]; destruct t; reflexivity.
    + intros i m Hm. exists m. rewrite orb_false_r. auto.
  - simpl.
    destruct (download_and_store env (ChapterImage.source_url image) series_id
                chapter_id (ChapterImage.page_number image)) as [e | result] eqn:E.
    + assert (Himage : ing image = false)
        by (subst ing; unfold ingested; rewrite E; reflexivity).
      rewrite Himage. destruct (IH db downloaded) as (ms & Heq & Hms). exists ms.
      split; [exact Heq |]. intros i m Hm.
      destruct (Hms i m Hm) as (m' & H1 & H2 & H3). exists m'.
      rewrite andb_false_r. simpl. auto.
    + assert (Himage : ing image = true)
        by (subst ing; unfold ingested; rewrite E; reflexivity).
      rewrite Himage. unfold bind, update_image.
      destruct (IH (set_current
                      (MkTables (jobs (current db)) (series (current db))
                         (chapters (current db))
                         (alter (stored result) pos (images (current db)))
                         (series_seq (current db)) (chapters_seq (current db))
                         (images_seq (current db))) db) (downloaded + 1))
        as (ms & Heq & Hms).
      exists ms. split.
      * rewrite Heq. simpl. f_equal. f_equal. lia.
      * intros i m Hm. simpl in Hms.
        destruct (Nat.eqb_spec pos i) as [-> | Hne].
        -- destruct (Hms i (stored result m)) as (m' & H1 & H2 & H3).
           { rewrite list_lookup_alter_eq, Hm. reflexivity. }
           exists m'. rewrite H3. simpl. rewrite orb_true_r. auto.
        -- destruct (Hms i m) as (m' & H1 & H2 & H3).
           { rewrite list_lookup_alter_ne by assumption. exact Hm. }
           exists m'. auto.
Qed.

(** A position is selected when its row passes the test. *)
Lemma where_existsb {A : Type} (test f : A -> bool) (rows : list A) (i : nat) (m : A) :
  rows !! i = Some m ->
  existsb (fun x : nat * A => Nat.eqb x.1 i && f x.2) (where_ test rows)
  = test m && f m.
Proof.
  intros Hm. apply eq_true_iff_eq. rewrite existsb_exists, andb_true_iff. split.
  - intros ([j x] & Hin & Hx). simpl in Hx. apply andb_true_iff in Hx as [Hj Hf].
    apply Nat.eqb_eq in Hj as ->. apply where_spec in Hin as [Hr Ht].
    rewrite Hm in Hr. injection Hr as <-. auto.
  - intros [Ht Hf]. exists (i, m). split; [apply where_spec; auto |].
    simpl. rewrite Nat.eqb_refl. exact Hf.
Qed.

End Download.

Lemma order_by_page_number_nil (l : list (nat * ChapterImage.t)) :
  Tasks.order_by_page_number l = [] -> l = [].
Proof.
  destruct l as [| x r]; [reflexivity |]. simpl.
  destruct (Tasks.order_by_page_number r) as [| y s]; simpl; [discriminate |].
  destruct (_ <=? _); discriminate.
Qed.

Lemma filter_map_length {A B : Type} (f : B -> bool) (g : A -> B) (l : list A) :
  length (List.filter (fun x => f (g x)) l) = length (List.filter f (map g l)).
Proof.
  induction l as [| x r IH]; simpl; [reflexivity |].
  destruct (f (g x)); simpl; rewrite IH; reflexivity.
Qed.

(** C9. [download_images] on a consistent database, for a chapter that
    exists: the images not yet downloaded are handed to the store by
    increasing page number; an image the store fails on is skipped; the task
    returns (it does not raise) with [downloaded] equal to the number of
    images the store accepted; afterwards an image of the batch has
    [is_downloaded] set exactly when the store accepted it, and every other
    image row keeps its flag. *)
Theorem download_images_skips_failures (env : Tasks.Env) (self : Tasks.Request)
    (chapter_id : Z) (t : Db.Tables) (q : list Tasks.message)
    (pos : nat) (c : Chapter.t) :
  Db.constraints_ok t = true ->
  Db.get Chapter.id (Db.chapters t) chapter_id = Some (pos, c) ->
  let r := Tasks.download_images env self chapter_id t q in
  let ok := Tasks.ingested env (Chapter.series_id c) chapter_id in
  let todo := List.filter (Tasks.to_download chapter_id) (Db.images t) in
  Tasks.outcome r
  = inr (match todo with
         | [] => Tasks.NothingToDownload
         | _ => Tasks.Downloaded chapter_id
                  (Z.of_nat (length (List.filter ok todo)))
         end)
  /\ Tasks.queue r = q
  /\ Sorted (fun a b => ChapterImage.page_number a.2 <= ChapterImage.page_number b.2)
       (Tasks.pending_images chapter_id (Db.get_sync_db t))
  /\ forall (i : nat) (m : ChapterImage.t),
       Db.images t !! i = Some m ->
       exists m',
         Db.images (Db.committed (Tasks.session r)) !! i = Some m'
         /\ ChapterImage.page_number m' = ChapterImage.page_number m
         /\ ChapterImage.is_downloaded m'
            = (if Tasks.to_download chapter_id m then ok m
               else ChapterImage.is_downloaded m).
Proof.
  intros Hok Hget r ok todo.
  assert (Hrows : map snd (Db.where_ (Tasks.to_download chapter_id) (Db.images t)) = todo)
    by apply where_rows.
  split; [| split; [| split; [apply order_by_page_number_sorted |]]];
    subst r; unfold Tasks.download_images; simpl Db.current; rewrite Hget;
    unfold Tasks.pending_images; simpl Db.current;
    destruct (Tasks.order_by_page_number
                (Db.where_ (Tasks.to_download chapter_id) (Db.images t)))
      as [| x rest] eqn:Hsorted.
  - apply order_by_page_number_nil in Hsorted. rewrite Hsorted in Hrows.
    simpl in Hrows. rewrite <- Hrows. reflexivity.
  - rewrite <- Hsorted.
    destruct (download_each_spec env (Chapter.series_id c) chapter_id
                (Tasks.order_by_page_number
                   (Db.where_ (Tasks.to_download chapter_id) (Db.images t)))
                (Db.get_sync_db t) 0) as (ms & Heq & _).
    unfold Db.bind. simpl Chapter.series_id. rewrite Heq.
    rewrite commit_clean; [| repeat split |
      simpl; erewrite constraints_ok_rows; [exact Hok | reflexivity | reflexivity]].
    simpl. rewrite order_by_page_number_count.
    rewrite (filter_map_length ok snd), Hrows.
    destruct todo as [| m0 todo']; [| reflexivity].
    destruct (Db.where_ _ _); [discriminate | discriminate].
  - reflexivity.
  - rewrite <- Hsorted.
    destruct (download_each_spec env (Chapter.series_id c) chapter_id
                (Tasks.order_by_page_number
                   (Db.where_ (Tasks.to_download chapter_id) (Db.images t)))
                (Db.get_sync_db t) 0) as (ms & Heq & _).
    unfold Db.bind. simpl Chapter.series_id. rewrite Heq.
    rewrite commit_clean; [| repeat split |
      simpl; erewrite constraints_ok_rows; [exact Hok | reflexivity | reflexivity]].
    reflexivity.
  - apply order_by_page_number_nil in Hsorted.
    intros i m Hm. exists m. simpl. repeat split; [exact Hm |].
    destruct (Tasks.to_download chapter_id m) eqn:Ht; [| reflexivity].
    assert (Hin : In (i, m) (Db.where_ (Tasks.to_download chapter_id) (Db.images t)))
      by (apply where_spec; auto).
    rewrite Hsorted in Hin. destruct Hin.
  - rewrite <- Hsorted.
    destruct (download_each_spec env (Chapter.series_id c) chapter_id
                (Tasks.order_by_page_number
                   (Db.where_ (Tasks.to_download chapter_id) (Db.images t)))
                (Db.get_sync_db t) 0) as (ms & Heq & Hms).
    unfold Db.bind. simpl Chapter.series_id. rewrite Heq.
    rewrite commit_clean; [| repeat split |
      simpl; erewrite constraints_ok_rows; [exact Hok | reflexivity | reflexivity]].
    intros i m Hm. destruct (Hms i m Hm) as (m' & H1 & H2 & H3).
    exists m'. simpl. repeat split; [exact H1 | exact H2 |].
    rewrite H3, order_by_page_number_existsb.
    rewrite (where_existsb (Tasks.to_download chapter_id)
               (Tasks.ingested env (Chapter.series_id c) chapter_id) (Db.images t) i m Hm).
    unfold Tasks.to_download. fold ok.
    destruct (ChapterImage.chapter_id m =? chapter_id),
      (ChapterImage.is_downloaded m), (ok m); reflexivity.
Qed.

(** The scenario of the specification: five images not yet downloaded, the
    store fails on page 3. *)
Lemma download_images_skips_failures_witness :
  let env := Tasks.MkEnv Registry.urlparse_netloc
               (fun _ _ => inl (Db.AdapterError "unused"))
               (fun _ _ => inl (Db.AdapterError "unused"))
               (fun _ _ _ page =>
                  if page =? 3 then inl (Db.StorageError "502 Bad Gateway")
                  else inr (Tasks.Stored.Make "series/1/chapters/7/page.webp"
                              "http://localhost:9000/manga-images/page.webp"
                              2048 "image/webp"))
               1000 in
  let image := fun i : Z =>
    ChapterImage.Make i 7 i "https://cdn/page.jpg" None None None None false in
  let t := Db.MkTables [] []
             [Chapter.Make 7 1 (5 # 1) "https://www.mgeko.cc/reader/solo-5/"
                None None true (Some 500) 5]
             [image 1; image 2; image 3; image 4; image 5] 2 8 6 in
  let r := Tasks.download_images env (Tasks.MkRequest "task-1" 0) 7 t [] in
  Tasks.outcome r = inr (Tasks.Downloaded 7 4)
  /\ map ChapterImage.is_downloaded (Db.images (Db.committed (Tasks.session r)))
     = [true; true; false; true; true].
Proof.
  intros env image t r. split.
  - refine (proj1 (download_images_skips_failures env (Tasks.MkRequest "task-1" 0)
                     7 t [] 0%nat
                     (Chapter.Make 7 1 (5 # 1) "https://www.mgeko.cc/reader/solo-5/"
                        None None true (Some 500) 5) _ _)).
    + reflexivity.
    + reflexivity.
  - vm_compute. reflexivity.
Defined.

(** ** Series merge *)

Section Merge.
Import Db Tasks.

(** Under a unique constraint, a query on the constrained columns that is
    known to match the row at [pos] finds that row and no other. *)
Lemma unique_where {A K : Type} (same : K -> K -> bool) (key : A -> K)
    (test : A -> bool) (rows : list A) (pos : nat) (r : A) :
  unique_on same key rows = true ->
  rows !! pos = Some r ->
  (forall r', test r' = same (key r) (key r')) ->
  test r = true ->
  where_ test rows = [(pos, r)].
Proof.
  intros Hu Hr Htest Hrefl.
  assert (Hin : In (pos, r) (where_ test rows)) by (apply where_spec; auto).
  assert (Hlen : (length (where_ test rows) <= 1)%nat).
  { rewrite <- (List.length_map snd (where_ test rows)), where_rows.
    unfold unique_on in Hu. rewrite forallb_forall in Hu.
    specialize (Hu (key r)). rewrite Nat.leb_le in Hu.
    rewrite (List.filter_ext _ _ (fun r' => Htest r')).
    rewrite (filter_map_length (same (key r)) key). apply Hu.
    apply in_map. apply list_elem_of_In. eapply list_elem_of_lookup_2. exact Hr. }
  destruct (where_ test rows) as [| x [| y l]]; simpl in *; [tauto | | lia].
  destruct Hin as [-> | []]. reflexivity.
Qed.

Lemma or_keep_idem {A : Type} (v old : option A) :
  or_keep v (or_keep v old) = or_keep v old.
Proof. destruct v; reflexivity. Qed.

Lemma or_keep_same {A : Type} (v : option A) : or_keep v v = v.
Proof. destruct v; reflexivity. Qed.

Lemma overwrite_idem (d : SeriesData.t) (s : Series.t) :
  overwrite d (overwrite d s) = overwrite d s.
Proof. unfold overwrite. simpl. rewrite !or_keep_idem. reflexivity. Qed.

Lemma overwrite_new (d : SeriesData.t) (i : Z) :
  overwrite d (series_with_id i (new_series_of d)) = series_with_id i (new_series_of d).
Proof. unfold overwrite. simpl. rewrite !or_keep_same. reflexivity. Qed.

Lemma overwrite_checked (now : Z) (d : SeriesData.t) (s : Series.t) :
  overwrite d s = s -> overwrite d (checked now d s) = checked now d s.
Proof.
  intros H. transitivity (checked now d (overwrite d s)); [reflexivity |].
  rewrite H. reflexivity.
Qed.

Lemma matches_series_overwrite (d : SeriesData.t) (s : Series.t) :
  matches_series d (overwrite d s) = true.
Proof. unfold matches_series. simpl. rewrite !String.eqb_refl. reflexivity. Qed.

Lemma constraints_ok_parts (t : Tables) :
  constraints_ok t = true ->
  unique_on same_source series_source (series t) = true
  /\ unique_on String.eqb Series.slug (series t) = true
  /\ unique_on same_chapter chapter_key (chapters t) = true.
Proof.
  unfold constraints_ok. intros H.
  apply andb_true_iff in H as [H H3]. apply andb_true_iff in H as [H1 H2]. auto.
Qed.

Lemma set_current_same (db : Session) : set_current (current db) db = db.
Proof. destruct db; reflexivity. Qed.

Lemma with_series_same (t : Tables) : with_series (series t) t = t.
Proof. destruct t; reflexivity. Qed.

(** The second lookup of the series finds the row of the first merge and
    rewrites it with the values it already has. *)
Lemma save_series_merged (d : SeriesData.t) (pos : nat) (db : Session) :
  merged d pos (current db) -> save_series d db = (db, inr pos).
Proof.
  intros (Hok & s & Hs & Hm & Hov & _ & _).
  apply constraints_ok_parts in Hok as (Hu & _ & _).
  unfold save_series.
  rewrite (unique_where same_source series_source (matches_series d)
             (series (current db)) pos s Hu Hs); [| | exact Hm].
  - simpl. unfold bind, update_series, ret.
    rewrite (alter_fixed (overwrite d) _ pos s Hs Hov).
    change (MkTables _ _ _ _ _ _ _) with (with_series (series (current db)) (current db)).
    rewrite with_series_same, set_current_same. reflexivity.
  - intros r'. unfold matches_series in *. unfold same_source, series_source. simpl.
    apply andb_true_iff in Hm as [H1 H2].
    apply String.eqb_eq in H1, H2. rewrite H1, H2.
    rewrite (String.eqb_sym (Series.source_site r')), (String.eqb_sym (Series.source_id r')).
    reflexivity.
Qed.

Lemma matches_chapter_same (series_id : Z) (ch : ChapterData.t) (row r' : Chapter.t) :
  matches_chapter series_id ch row = true ->
  matches_chapter series_id ch r' = same_chapter (chapter_key row) (chapter_key r').
Proof.
  unfold matches_chapter, same_chapter, chapter_key. simpl. intros H.
  apply andb_true_iff in H as [H1 H2]. apply Z.eqb_eq in H1.
  apply Qeq_bool_iff in H2. rewrite H1, (Z.eqb_sym series_id). f_equal.
  apply eq_true_iff_eq. rewrite !Qeq_bool_iff. split; intros H.
  - rewrite H2, H. reflexivity.
  - rewrite <- H, H2. reflexivity.
Qed.

(** The second pass over the chapters finds every one of them. *)
Lemma save_chapters_merged (series_id : Z) (chs : list ChapterData.t) (db : Session) :
  unique_on same_chapter chapter_key (chapters (current db)) = true ->
  (forall ch, In ch chs ->
     exists row, In row (chapters (current db))
                 /\ matches_chapter series_id ch row = true) ->
  forall added, save_chapters series_id chs added db = (db, inr added).
Proof.
  intros Hu. induction chs as [| ch rest IH]; intros Hall added; [reflexivity |].
  simpl. destruct (Hall ch (or_introl eq_refl)) as (row & Hin & Hm).
  apply list_elem_of_In, list_elem_of_lookup_1 in Hin as [i Hi].
  rewrite (unique_where same_chapter chapter_key (matches_chapter series_id ch)
             (chapters (current db)) i row Hu Hi
             (fun r' => matches_chapter_same series_id ch row r' Hm) Hm).
  simpl. apply IH. intros ch' Hch'. apply Hall. right. exact Hch'.
Qed.

(** Merging an output that is already merged: nothing is added, and the
    series row changes in [last_checked_at] only. *)
Lemma merge_series_merged (now : Z) (d : SeriesData.t) (pos : nat) (db : Session) :
  clean db -> merged d pos (current db) ->
  merge_series now d db
  = (let t := with_series (alter (checked now d) pos (series (current db)))
                (current db) in
     MkSession t t [] [] [] false (closed db) (log db ++ [Commit]),
     inr (series_id_at pos db, 0)).
Proof.
  intros Hclean Hmerged. unfold merge_series. unfold bind at 1.
  rewrite (save_series_merged d pos db Hmerged).
  destruct Hmerged as (Hok & s & Hs & Hm & Hov & Hcounts & Hchs).
  destruct (constraints_ok_parts _ Hok) as (_ & _ & Hu).
  unfold bind at 1. unfold gets at 1. cbv beta iota.
  unfold bind at 1. rewrite save_chapters_merged; [| exact Hu |].
  - unfold bind, update_series, ret. cbn beta iota. rewrite commit_clean.
    + reflexivity.
    + destruct Hclean as (? & ? & ? & ?). repeat split; assumption.
    + simpl. unfold constraints_ok in *. simpl.
      rewrite !unique_on_alter by reflexivity. exact Hok.
  - unfold series_id_at. rewrite Hs. exact Hchs.
Qed.

Lemma flush_inr (db db' : Session) (u : unit) :
  flush db = (db', inr u) ->
  constraints_ok (flushed db) = true
  /\ db' = MkSession (committed db) (flushed db) [] [] [] false (closed db) (log db).
Proof.
  unfold flush. destruct (inactive db); [discriminate |].
  destruct (constraints_ok (flushed db)); [| discriminate].
  intros [= <-]. auto.
Qed.

Lemma scalar_one_or_none_Some {A : Type} (found : list A) (x : A) :
  scalar_one_or_none found = inr (Some x) -> found = [x].
Proof. destruct found as [| y [| z l]]; simpl; congruence. Qed.

(** The series step of a merge that goes through. *)
Lemma save_series_inr (d : SeriesData.t) (db db1 : Session) (pos : nat) :
  clean db -> save_series d db = (db1, inr pos) ->
  clean db1
  /\ committed db1 = committed db /\ log db1 = log db /\ closed db1 = closed db
  /\ jobs (current db1) = jobs (current db)
  /\ chapters (current db1) = chapters (current db)
  /\ exists s, series (current db1) !! pos = Some s
               /\ matches_series d s = true /\ overwrite d s = s.
Proof.
  intros (Hns & Hnc & Hni & Hin). unfold save_series.
  destruct (scalar_one_or_none _) as [e | [[p s0] |]] eqn:Hfound; [discriminate | |].
  - apply scalar_one_or_none_Some in Hfound.
    assert (Hp : In (p, s0) (where_ (matches_series d) (series (current db))))
      by (rewrite Hfound; left; reflexivity).
    apply where_spec in Hp as [Hs0 _].
    unfold bind, update_series, ret. intros [= <- <-]. simpl.
    repeat split; try assumption.
    exists (overwrite d s0). rewrite list_lookup_alter_eq, Hs0.
    split; [reflexivity |]. split; [apply matches_series_overwrite | apply overwrite_idem].
  - intros H. apply bind_inr in H as (dba & [] & [= <-] & H).
    apply bind_inr in H as (dbf & [] & Hflush & [= <- <-]).
    apply flush_inr in Hflush as [_ ->]. unfold flushed. simpl.
    rewrite Hns, Hnc, Hni. simpl. rewrite !app_nil_r.
    repeat split.
    exists (series_with_id (series_seq (current db)) (new_series_of d)).
    split; [apply list_lookup_middle; reflexivity |].
    split; [| apply overwrite_new].
    unfold matches_series. simpl. rewrite !String.eqb_refl. reflexivity.
Qed.

Lemma matches_chapter_new (series_id : Z) (ch : ChapterData.t) :
  matches_chapter series_id ch (new_chapter_of series_id ch) = true.
Proof.
  unfold matches_chapter. simpl. rewrite Z.eqb_refl. simpl.
  apply Qeq_bool_iff. reflexivity.
Qed.

(** The chapter loop of a merge that goes through: every chapter of the
    output either had a row or is among the rows added. *)
Lemma save_chapters_inr (series_id : Z) (chs : list ChapterData.t) :
  forall (added0 : Z) (db db2 : Session) (added : Z),
    save_chapters series_id chs added0 db = (db2, inr added) ->
    current db2 = current db /\ new_series db2 = new_series db
    /\ new_images db2 = new_images db /\ inactive db2 = inactive db
    /\ closed db2 = closed db /\ committed db2 = committed db /\ log db2 = log db
    /\ exists newrows,
         new_chapters db2 = new_chapters db ++ newrows
         /\ added = added0 + Z.of_nat (length newrows)
         /\ forall ch, In ch chs ->
              exists row, (In row (chapters (current db)) \/ In row newrows)
                          /\ matches_chapter series_id ch row = true.
Proof.
  induction chs as [| ch rest IH]; intros added0 db db2 added; simpl.
  - intros [= <- <-]. repeat split. exists []. rewrite app_nil_r, Z.add_0_r.
    repeat split. intros ch [].
  - destruct (scalar_one_or_none _) as [e | [[i row] |]] eqn:Hfound; [discriminate | |].
    + apply scalar_one_or_none_Some in Hfound.
      assert (Hi : In (i, row) (where_ (matches_chapter series_id ch)
                                  (chapters (current db))))
        by (rewrite Hfound; left; reflexivity).
      apply where_spec in Hi as [Hrow Hm].
      intros H. apply IH in H as (H1 & H2 & H3 & H4 & H5 & H6 & H7 & newrows & H8 & H9 & H10).
      repeat split; try assumption. exists newrows. repeat split; try assumption.
      intros ch' [<- | Hch']; [| apply H10; exact Hch'].
      exists row. split; [left | exact Hm].
      apply list_elem_of_In. eapply list_elem_of_lookup_2. exact Hrow.
    + unfold bind, add_chapter. intros H.
      apply IH in H as (H1 & H2 & H3 & H4 & H5 & H6 & H7 & newrows & H8 & H9 & H10).
      simpl in *. repeat split; try assumption.
      exists (new_chapter_of series_id ch :: newrows).
      rewrite H8, <- app_assoc. simpl. repeat split; [lia |].
      intros ch' [<- | Hch'].
      * exists (new_chapter_of series_id ch).
        split; [right; left; reflexivity | apply matches_chapter_new].
      * destruct (H10 ch' Hch') as (row & [Hrow | Hrow] & Hm);
          exists row; (split; [| exact Hm]); [left | right; right]; assumption.
Qed.

Lemma number_In {A : Type} (set_id : Z -> A -> A) (rows : list A) (r : A) :
  In r rows -> forall next, exists i, In (set_id i r) (number set_id next rows).
Proof.
  induction rows as [| x rows IH]; intros Hin next; [destruct Hin |].
  destruct Hin as [-> | Hin].
  - exists next. left. reflexivity.
  - destruct (IH Hin (next + 1)) as [i Hi]. exists i. right. exact Hi.
Qed.

Lemma number_length {A : Type} (set_id : Z -> A -> A) (rows : list A) :
  forall next, length (number set_id next rows) = length rows.
Proof.
  induction rows as [| x rows IH]; intros next; simpl; [| rewrite IH]; reflexivity.
Qed.

(** A merge that goes through leaves the tables merged. *)
Lemma merge_series_inr (now : Z) (d : SeriesData.t) (db db' : Session)
    (sid added : Z) :
  clean db -> merge_series now d db = (db', inr (sid, added)) ->
  exists (pos : nat) (newrows : list Chapter.t),
    clean db' /\ committed db' = current db'
    /\ closed db' = closed db /\ log db' = log db ++ [Commit]
    /\ jobs (current db') = jobs (current db)
    /\ chapters (current db') = chapters (current db) ++ newrows
    /\ added = Z.of_nat (length newrows)
    /\ merged d pos (current db')
    /\ series_id_at pos db' = sid.
Proof.
  intros Hclean H. unfold merge_series in H.
  apply bind_inr in H as (db1 & pos & Hsave & H).
  apply (save_series_inr d db db1 pos Hclean) in Hsave
    as (Hclean1 & Hc1 & Hl1 & Hcl1 & Hj1 & Hch1 & s & Hs & Hm & Hov).
  apply bind_inr in H as (? & series_id & [= <- <-] & H).
  apply bind_inr in H as (db2 & added' & Hchs & H).
  apply save_chapters_inr in Hchs
    as (Hcur2 & Hns2 & Hni2 & Hin2 & Hcl2 & Hc2 & Hl2 & newrows & Hnc2 & Hadded & Hall).
  apply bind_inr in H as (db3 & [] & Hupd & H).
  unfold update_series in Hupd. injection Hupd as <-.
  apply bind_inr in H as (db4 & [] & Hcommit & H).
  injection H as <- <- <-.
  apply commit_inr in Hcommit as [Hok ->].
  destruct Hclean1 as (Hns1 & Hnc1 & Hni1 & Hin1).
  assert (Hseries : series (flushed (set_current
              (MkTables (jobs (current db2))
                 (alter (checked now d) pos (series (current db2)))
                 (chapters (current db2)) (images (current db2))
                 (series_seq (current db2)) (chapters_seq (current db2))
                 (images_seq (current db2))) db2))
            = alter (checked now d) pos (series (current db1))).
  { unfold flushed. simpl. rewrite Hns2, Hns1, Hcur2. simpl. apply app_nil_r. }
  assert (Hchapters : chapters (flushed (set_current
              (MkTables (jobs (current db2))
                 (alter (checked now d) pos (series (current db2)))
                 (chapters (current db2)) (images (current db2))
                 (series_seq (current db2)) (chapters_seq (current db2))
                 (images_seq (current db2))) db2))
            = chapters (current db)
              ++ number chapter_with_id (chapters_seq (current db1)) newrows).
  { unfold flushed. simpl. rewrite Hnc2, Hnc1, Hcur2, Hch1. reflexivity. }
  remember (flushed (set_current
              (MkTables (jobs (current db2))
                 (alter (checked now d) pos (series (current db2)))
                 (chapters (current db2)) (images (current db2))
                 (series_seq (current db2)) (chapters_seq (current db2))
                 (images_seq (current db2))) db2)) as tf eqn:Htf.
  assert (Hjobs : jobs tf = jobs (current db2)) by (subst tf; reflexivity).
  exists pos, (number chapter_with_id (chapters_seq (current db1)) newrows).
  simpl. rewrite Hchapters, number_length, Hjobs.
  split; [repeat split |]. split; [reflexivity |].
  split; [congruence |]. split; [congruence |].
  split; [rewrite Hcur2; exact Hj1 |]. split; [reflexivity |].
  split; [lia |]. split.
  - split; [exact Hok |]. exists (checked now d s).
    rewrite Hseries, list_lookup_alter_eq, Hs.
    split; [reflexivity |]. split; [exact Hm |].
    split; [apply overwrite_checked; exact Hov |]. split.
    + intros now'. split; [reflexivity |].
      simpl. destruct (map ChapterData.chapter_number (SeriesData.chapters d));
        reflexivity.
    + intros ch Hch. rewrite Hchapters.
      assert (Hsid : series_id_at pos db1 = Series.id s)
        by (unfold series_id_at; rewrite Hs; reflexivity).
      rewrite Hsid in Hall.
      destruct (Hall ch Hch) as (row & [Hrow | Hrow] & Hrm).
      * exists row. split; [| exact Hrm].
        apply in_or_app. left. rewrite <- Hch1. exact Hrow.
      * destruct (number_In chapter_with_id newrows row Hrow
                    (chapters_seq (current db1))) as [i Hi].
        exists (chapter_with_id i row). split; [| exact Hrm].
        apply in_or_app. right. exact Hi.
  - unfold series_id_at. simpl. rewrite Hseries, list_lookup_alter_eq.
    rewrite Hs. reflexivity.
Qed.

Lemma merged_rows (d : SeriesData.t) (pos : nat) (t t' : Tables) :
  series t' = series t -> chapters t' = chapters t ->
  merged d pos t -> merged d pos t'.
Proof.
  intros Hs Hc (Hok & H). unfold merged. rewrite Hs, Hc.
  split; [| exact H]. erewrite constraints_ok_rows; eassumption.
Qed.

Lemma adapter_output_Some (env : Env) (series_url : string) (d : SeriesData.t) :
  adapter_output env series_url = Some d ->
  exists scraper,
    Registry.get_scraper_for_url (netloc env) series_url = Some scraper
    /\ run_scrape_series env scraper series_url = inr d.
Proof.
  unfold adapter_output.
  destruct (Registry.get_scraper_for_url _ _) as [scraper |]; [| discriminate].
  destruct (run_scrape_series env scraper series_url) as [e | d'] eqn:Hrun;
    [discriminate |].
  intros [= <-]. eauto.
Qed.

(** The [try] block on tables that are already merged, after the job
    block at its start. *)
Lemma scrape_series_try_merged (env : Env) (self : Request) (series_url : string)
    (d : SeriesData.t) (pos : nat) (db : Session) :
  adapter_output env series_url = Some d ->
  clean db -> merged d pos (current db) ->
  scrape_series_try env self series_url None db
  = (let t := with_series (alter (checked (now env) d) pos (series (current db)))
                (current db) in
     MkSession t t [] [] [] false (closed db) (log db ++ [Commit]),
     inr (SeriesScraped (series_id_at pos db) 0)).
Proof.
  intros Hout Hclean Hmerged.
  apply adapter_output_Some in Hout as (scraper & Hsc & Hrun).
  unfold scrape_series_try, start_job, complete_job.
  unfold bind at 1. unfold ret at 1. cbv beta iota. rewrite Hsc.
  unfold bind at 1. unfold lift. rewrite Hrun. cbv beta iota.
  unfold bind at 1. rewrite (merge_series_merged (now env) d pos db Hclean Hmerged).
  reflexivity.
Qed.

Lemma constraints_ok_checked (now : Z) (d : SeriesData.t) (pos : nat) (t : Tables) :
  constraints_ok (with_series (alter (checked now d) pos (series t)) t)
  = constraints_ok t.
Proof.
  unfold constraints_ok. simpl. rewrite !unique_on_alter by reflexivity. reflexivity.
Qed.

(** A whole execution on tables that are already merged. *)
Lemma scrape_series_merged (env : Env) (self : Request) (series_url : string)
    (job_id : option Z) (t : Tables) (q : list message)
    (d : SeriesData.t) (pos : nat) :
  adapter_output env series_url = Some d ->
  merged d pos t ->
  let r := scrape_series env self series_url job_id t q in
  let sid := series_id_at pos (get_sync_db t) in
  outcome r = inr (SeriesScraped sid 0)
  /\ queue r = q
  /\ chapters (committed (session r)) = chapters t
  /\ series (committed (session r)) = alter (checked (now env) d) pos (series t)
  /\ jobs (committed (session r))
     = match load_job job_id (get_sync_db t) with
       | Some p =>
           alter (set_completed (now env)
                    (Job.SeriesResult sid
                       (Z.of_nat (length (SeriesData.chapters d))) 0)) p
             (alter (set_running (id self) (now env)) p (jobs t))
       | None => jobs t
       end.
Proof.
  intros Hout Hmerged r sid. subst r. unfold scrape_series.
  destruct (load_job job_id (get_sync_db t)) as [p |].
  - pose proof Hout as Hout'.
    apply adapter_output_Some in Hout' as (scraper & Hsc & Hrun).
    eassert (Htry : scrape_series_try env self series_url (Some p) (get_sync_db t) = _).
    { unfold scrape_series_try, start_job.
      unfold bind at 1.
      rewrite commit_job_update; [| apply get_sync_db_clean | apply Hmerged].
      cbv beta iota zeta. rewrite Hsc.
      unfold bind at 1. unfold lift. rewrite Hrun. cbv beta iota.
      unfold bind at 1.
      rewrite (merge_series_merged (now env) d pos);
        [| repeat split
         | simpl; eapply merged_rows; [| | exact Hmerged]; reflexivity ].
      cbv beta iota zeta. unfold complete_job. unfold bind at 1.
      rewrite commit_job_update;
        [| repeat split
         | simpl;
           rewrite (constraints_ok_rows
                      (with_series (alter (checked (now env) d) pos (series t)) t))
             by reflexivity;
           rewrite constraints_ok_checked; apply Hmerged ].
      reflexivity. }
    rewrite Htry. simpl. repeat split.
  - rewrite (scrape_series_try_merged env self series_url d pos (get_sync_db t)
               Hout (get_sync_db_clean t) Hmerged).
    simpl. repeat split.
Qed.

(** A whole execution that returns leaves the tables merged. *)
Lemma scrape_series_inr (env : Env) (self : Request) (series_url : string)
    (job_id : option Z) (t : Tables) (q : list message)
    (d : SeriesData.t) (sid added : Z) :
  adapter_output env series_url = Some d ->
  let r := scrape_series env self series_url job_id t q in
  outcome r = inr (SeriesScraped sid added) ->
  exists (pos : nat) (newrows : list Chapter.t),
    merged d pos (committed (session r))
    /\ series_id_at pos (get_sync_db (committed (session r))) = sid
    /\ chapters (committed (session r)) = chapters t ++ newrows
    /\ added = Z.of_nat (length newrows).
Proof.
  intros Hout r. subst r. unfold scrape_series.
  destruct (scrape_series_try env self series_url _ _) as [dbe [exc | ret]] eqn:Etry.
  { intros H. apply on_error_raises in H. destruct H. }
  simpl. intros [= ->].
  apply adapter_output_Some in Hout as (scraper & Hsc & Hrun).
  unfold scrape_series_try in Etry.
  apply bind_inr in Etry as (dbs & [] & Hstart & Etry).
  unfold start_job in Hstart.
  apply job_block_inr in Hstart as (Hcleans & _ & Hchs & _); [| apply get_sync_db_clean].
  rewrite Hsc in Etry.
  apply bind_inr in Etry as (dbl & d' & Hlift & Etry).
  unfold lift in Hlift. rewrite Hrun in Hlift. injection Hlift as <- <-.
  apply bind_inr in Etry as (dbm & [sid' added'] & Hmerge & Etry).
  apply (merge_series_inr _ _ _ _ _ _ Hcleans) in Hmerge
    as (pos & newrows & Hcleanm & Hcm & _ & _ & _ & Hchm & Hadded & Hmerged & Hsid).
  apply bind_inr in Etry as (dbe' & [] & Hcomplete & Hret).
  injection Hret as <- <- <-.
  unfold complete_job in Hcomplete.
  apply job_block_inr in Hcomplete as (_ & Hse & Hce & _ & _ & _ & _ & _ & Hjob);
    [| exact Hcleanm].
  assert (Hfinal : series (committed dbe') = series (current dbm)
                   /\ chapters (committed dbe') = chapters (current dbm)).
  { destruct (load_job job_id (get_sync_db t)).
    - destruct Hjob as [_ ->]. auto.
    - subst dbe'. rewrite Hcm. auto. }
  destruct Hfinal as [Hfs Hfc].
  exists pos, newrows. split; [| split; [| split]].
  - eapply merged_rows; [exact Hfs | exact Hfc | exact Hmerged].
  - unfold series_id_at in *. simpl. rewrite Hfs. exact Hsid.
  - rewrite Hfc, Hchm, Hchs. reflexivity.
  - exact Hadded.
Qed.

End Merge.

(** C6. A [scrape_series] execution that returns, followed by a second
    execution for the same URL to which the adapter gives the same output
    (whatever its job, its request and its clock): the second execution
    returns too, with the same series id and [chapters_added = 0], and
    records that count on its job; the chapter rows after it are exactly the
    chapter rows before it, and the first execution already left every
    chapter row it found untouched, adding rows at the end only; every
    series row keeps its id, [total_chapters] and [latest_chapter]. *)
Theorem scrape_series_idempotent (env1 env2 : Tasks.Env)
    (self1 self2 : Tasks.Request) (series_url : string)
    (job_id1 job_id2 : option Z) (t : Db.Tables) (q1 q2 : list Tasks.message)
    (d : Tasks.SeriesData.t) (sid added : Z) :
  Tasks.adapter_output env1 series_url = Some d ->
  Tasks.adapter_output env2 series_url = Some d ->
  let r1 := Tasks.scrape_series env1 self1 series_url job_id1 t q1 in
  Tasks.outcome r1 = inr (Tasks.SeriesScraped sid added) ->
  let t1 := Db.committed (Tasks.session r1) in
  let r2 := Tasks.scrape_series env2 self2 series_url job_id2 t1 q2 in
  Tasks.outcome r2 = inr (Tasks.SeriesScraped sid 0)
  /\ Db.chapters (Db.committed (Tasks.session r2)) = Db.chapters t1
  /\ (exists newrows, Db.chapters t1 = Db.chapters t ++ newrows
                      /\ added = Z.of_nat (length newrows))
  /\ (forall (pos : nat) (s : Series.t),
        Db.series t1 !! pos = Some s ->
        exists s',
          Db.series (Db.committed (Tasks.session r2)) !! pos = Some s'
          /\ Series.id s' = Series.id s
          /\ Series.total_chapters s' = Series.total_chapters s
          /\ Series.latest_chapter s' = Series.latest_chapter s)
  /\ (forall (p : nat) (j : Job.t),
        Tasks.load_job job_id2 (Db.get_sync_db t1) = Some p ->
        Db.jobs (Db.committed (Tasks.session r2)) !! p = Some j ->
        Job.status j = Job.COMPLETED
        /\ Job.result_data j
           = Some (Job.SeriesResult sid
                     (Z.of_nat (length (Tasks.SeriesData.chapters d))) 0)).
Proof.
  intros Hout1 Hout2 r1 Hr1 t1 r2.
  destruct (scrape_series_inr env1 self1 series_url job_id1 t q1 d sid added
              Hout1 Hr1) as (pos & newrows & Hmerged & Hsid & Hch & Hadded).
  fold r1 in Hmerged, Hsid, Hch. fold t1 in Hmerged, Hsid, Hch.
  destruct (scrape_series_merged env2 self2 series_url job_id2 t1 q2 d pos
              Hout2 Hmerged) as (Hr2 & _ & Hch2 & Hs2 & Hj2).
  fold r2 in Hr2, Hch2, Hs2, Hj2. rewrite Hsid in Hr2, Hj2.
  split; [exact Hr2 |]. split; [exact Hch2 |].
  split; [exists newrows; auto |]. split.
  - intros pos' s Hs. rewrite Hs2.
    destruct (decide (pos = pos')) as [<- | Hne].
    + exists (Tasks.checked (Tasks.now env2) d s).
      rewrite list_lookup_alter_eq, Hs. split; [reflexivity |].
      split; [reflexivity |].
      destruct Hmerged as (_ & s0 & Hs0 & _ & _ & Hcounts & _).
      rewrite Hs in Hs0. injection Hs0 as <-. apply Hcounts.
    + exists s. rewrite list_lookup_alter_ne by exact Hne. auto.
  - intros p j Hp Hj. rewrite Hj2, Hp in Hj.
    rewrite list_lookup_alter_eq in Hj.
    destruct (alter _ p (Db.jobs t1) !! p) as [j0 |]; [| discriminate].
    injection Hj as <-. auto.
Qed.

(** The scenario of the specification: the adapter lists chapters 1, 2 and
    3.5; the series is scraped twice. *)
Lemma scrape_series_idempotent_witness :
  let url := "https://www.mgeko.cc/manga/solo/" in
  let chapter := fun n : Q =>
    Tasks.ChapterData.Make n "https://www.mgeko.cc/reader/solo/" None None in
  let d := Tasks.SeriesData.Make "mgeko" "solo" url "solo" "Solo" None None None
             "ongoing" None None None
             [chapter (1 # 1); chapter (2 # 1); chapter (7 # 2)] in
  let env := Tasks.MkEnv Registry.urlparse_netloc
               (fun _ _ => inr d)
               (fun _ _ => inl (Db.AdapterError "unused"))
               (fun _ _ _ _ => inl (Db.StorageError "unused")) 1000 in
  let self := Tasks.MkRequest "task-1" 0 in
  let t := Db.MkTables [] [] [] [] 1 1 1 in
  let r1 := Tasks.scrape_series env self url None t [] in
  let r2 := Tasks.scrape_series env self url None (Db.committed (Tasks.session r1)) [] in
  Tasks.outcome r1 = inr (Tasks.SeriesScraped 1 3)
  /\ Tasks.outcome r2 = inr (Tasks.SeriesScraped 1 0)
  /\ map (fun s => (Series.total_chapters s, Series.latest_chapter s))
       (Db.series (Db.committed (Tasks.session r2)))
     = [(3, Some (7 # 2))].
Proof.
  intros url chapter d env self t r1 r2.
  assert (H1 : Tasks.outcome r1 = inr (Tasks.SeriesScraped 1 3))
    by (vm_compute; reflexivity).
  split; [exact H1 |]. split.
  - refine (proj1 (scrape_series_idempotent env env self self url None None t [] []
                     d 1 3 _ _ H1)); vm_compute; reflexivity.
  - vm_compute. reflexivity.
Defined.

(** ** Rate limiter: budget, lost expiry *)

Section RateBudget.
Variables (key : string) (limit window : Z).

(** The counter after a run of calls on a live key. *)
Lemma calls_counter (exp : Z) (rest : list (Z * Z)) :
  forall (s : gmap string Redis.entry) (prev v : Z),
    s !! key = Some (Redis.Entry v (Some exp)) ->
    Redis.in_window prev exp rest ->
    (Redis.calls s key limit window rest).1 !! key
    = Some (Redis.Entry (Z.max v (Z.min limit (v + Z.of_nat (length rest))))
              (Some exp)).
Proof.
  induction rest as [| [t1 t2] rest IH]; intros s prev v Hs Hw.
  - simpl. rewrite Hs. do 2 f_equal. lia.
  - simpl in Hw. destruct Hw as (_ & H12 & Hexp & Hw).
    cbn [Redis.calls].
    assert (Hstep : exists v',
               (Redis.check_rate_limit s t1 t2 key limit window).1 !! key
               = Some (Redis.Entry v' (Some exp))
               /\ v' = (if limit <=? v then v else v + 1)).
    { unfold Redis.check_rate_limit.
      rewrite (get_live key s t1 v exp Hs) by lia.
      destruct (limit <=? v); simpl; [eauto |].
      unfold Redis.incr, Redis.live. rewrite Hs. simpl.
      destruct (Z.ltb_spec t2 exp); [| lia].
      rewrite lookup_insert_eq. eauto. }
    destruct Hstep as (v' & Hs' & Hv').
    destruct (Redis.check_rate_limit s t1 t2 key limit window) as [s1 b].
    simpl in Hs'. specialize (IH s1 t2 v' Hs' Hw).
    destruct (Redis.calls s1 key limit window rest) as [s2 bs].
    simpl in IH |- *. rewrite IH. do 2 f_equal. subst v'.
    destruct (Z.leb_spec limit v); lia.
Qed.

(** How many of the answers [v + i <? limit], [i < n], are [true]. *)
Lemma count_allowed (v : Z) (n : nat) :
  Z.of_nat (length (List.filter (fun b : bool => b)
                      (map (fun i : nat => v + Z.of_nat i <? limit) (seq 0 n))))
  = Z.max 0 (Z.min (Z.of_nat n) (limit - v)).
Proof.
  revert v. induction n as [| n IH]; intros v; [simpl; lia |].
  cbn [seq map List.filter]. rewrite <- seq_shift, map_map.
  rewrite (map_ext _ (fun i : nat => (v + 1) + Z.of_nat i <? limit))
    by (intros i; f_equal; lia).
  rewrite Z.add_0_r. destruct (Z.ltb_spec v limit).
  - cbn [length]. rewrite Nat2Z.inj_succ, IH. lia.
  - rewrite IH. lia.
Qed.

(** A counter without expiry never resets, whatever the instants. *)
Lemma calls_no_expiry (ts : list (Z * Z)) :
  forall (s : gmap string Redis.entry) (v : Z),
    s !! key = Some (Redis.Entry v None) ->
    (Redis.calls s key limit window ts).2
    = map (fun i : nat => v + Z.of_nat i <? limit) (seq 0 (length ts)).
Proof.
  induction ts as [| [t1 t2] ts IH]; intros s v Hs; [reflexivity |].
  cbn [Redis.calls].
  assert (Hstep : Redis.check_rate_limit s t1 t2 key limit window
                  = (if limit <=? v then s
                     else <[key := Redis.Entry (v + 1) None]> s, v <? limit)).
  { unfold Redis.check_rate_limit, Redis.get, Redis.incr. rewrite Hs. simpl.
    destruct (Z.leb_spec limit v); f_equal; symmetry;
      [apply Z.ltb_ge | apply Z.ltb_lt]; lia. }
  rewrite Hstep.
  specialize (IH (if limit <=? v then s else <[key := Redis.Entry (v + 1) None]> s)
                (if limit <=? v then v else v + 1)).
  destruct (Redis.calls _ key limit window ts) as [s2 bs]. simpl in IH |- *.
  rewrite Z.add_0_r. f_equal. rewrite IH.
  - rewrite <- seq_shift, map_map. apply map_ext. intros i.
    destruct (Z.leb_spec limit v) as [Hge | Hlt].
    + transitivity false; [apply Z.ltb_ge | symmetry; apply Z.ltb_ge]; lia.
    + f_equal. lia.
  - destruct (limit <=? v); [exact Hs | apply lookup_insert_eq].
Qed.

End RateBudget.

(** X1. Within the window opened by the first call, what
    [get_rate_limit_remaining] reports is the limit minus the number of calls
    that were allowed so far, and the next call is allowed exactly when that
    number is positive. *)
Theorem get_rate_limit_remaining_budget
    (s : gmap string Redis.entry) (key : string) (limit window t1 t2 now : Z)
    (rest : list (Z * Z)) :
  0 < limit ->
  Redis.get s t1 key = None ->
  t1 <= t2 ->
  Redis.in_window t2 (t2 + window) rest ->
  now < t2 + window ->
  let r := Redis.calls s key limit window ((t1, t2) :: rest) in
  Redis.get_rate_limit_remaining r.1 now key limit
  = limit - Z.of_nat (length (List.filter (fun b : bool => b) r.2))
  /\ forall u : Z, now <= u -> u < t2 + window ->
       (Redis.check_rate_limit r.1 now u key limit window).2
       = (0 <? Redis.get_rate_limit_remaining r.1 now key limit).
Proof.
  intros Hlimit Hnone H12 Hw Hnow r. subst r. cbn [Redis.calls].
  assert (Hfirst : Redis.check_rate_limit s t1 t2 key limit window
                   = (<[key := Redis.Entry 1 (Some (t2 + window))]> s, true)).
  { unfold Redis.check_rate_limit. rewrite Hnone. reflexivity. }
  rewrite Hfirst.
  pose proof (calls_counter key limit window (t2 + window) rest
                (<[key := Redis.Entry 1 (Some (t2 + window))]> s) t2 1
                (lookup_insert_eq _ _ _) Hw) as Hv.
  destruct (calls_live key limit window (t2 + window) rest
              (<[key := Redis.Entry 1 (Some (t2 + window))]> s) t2 1
              (lookup_insert_eq _ _ _) Hw) as [_ Hbs].
  destruct (Redis.calls _ key limit window rest) as [s2 bs].
  simpl in Hv, Hbs |- *.
  pose proof (count_allowed limit 1 (length rest)) as Hcount.
  rewrite <- Hbs in Hcount.
  set (v := Z.max 1 (Z.min limit (1 + Z.of_nat (length rest)))) in *.
  assert (Hget : Redis.get s2 now key = Some v)
    by (apply (get_live key s2 now v (t2 + window)); assumption).
  unfold Redis.get_rate_limit_remaining. rewrite Hget. split.
  - rewrite Nat2Z.inj_succ, Hcount. subst v. lia.
  - intros u Hu Hexp. unfold Redis.check_rate_limit. rewrite Hget.
    destruct (Z.leb_spec limit v); simpl; symmetry;
      [apply Z.ltb_ge | apply Z.ltb_lt]; lia.
Qed.

Lemma get_rate_limit_remaining_budget_witness :
  Redis.get_rate_limit_remaining
    (Redis.calls ∅ "rate:asuracomic.net" 10 60 [(0, 0); (5, 5); (9, 10)]).1
    30 "rate:asuracomic.net" 10 = 7.
Proof.
  refine (proj1 (get_rate_limit_remaining_budget ∅ "rate:asuracomic.net" 10 60
                   0 0 30 [(5, 5); (9, 10)] _ _ _ _ _)).
  - lia.
  - reflexivity.
  - lia.
  - simpl. lia.
  - lia.
Defined.

(** X2. When the counter expires between the GET and the INCR of a call,
    the call is allowed and INCR recreates the counter at 1 without an
    expiry; from then on no window ever opens again: of all later calls, at
    whatever instants, only the first [limit - 1] are allowed. *)
Theorem check_rate_limit_lost_expiry
    (s : gmap string Redis.entry) (key : string) (limit window t1 t2 v exp : Z) :
  s !! key = Some (Redis.Entry v (Some exp)) ->
  t1 < exp -> exp <= t2 -> v < limit ->
  let r := Redis.check_rate_limit s t1 t2 key limit window in
  r.2 = true
  /\ r.1 !! key = Some (Redis.Entry 1 None)
  /\ forall ts : list (Z * Z),
       (Redis.calls r.1 key limit window ts).2
       = map (fun i : nat => Z.of_nat i <? limit - 1) (seq 0 (length ts)).
Proof.
  intros Hs Hlive Hgone Hv r.
  assert (Hr : r = (<[key := Redis.Entry 1 None]> s, true)).
  { subst r. unfold Redis.check_rate_limit.
    rewrite (get_live key s t1 v exp Hs Hlive).
    destruct (Z.leb_spec limit v); [lia |].
    unfold Redis.incr, Redis.live. rewrite Hs. simpl.
    destruct (Z.ltb_spec t2 exp); [lia | reflexivity]. }
  rewrite Hr. simpl. split; [reflexivity |]. split; [apply lookup_insert_eq |].
  intros ts.
  rewrite (calls_no_expiry key limit window ts _ 1 (lookup_insert_eq _ _ _)).
  apply map_ext. intros i.
  destruct (Z.ltb_spec (1 + Z.of_nat i) limit);
    symmetry; [apply Z.ltb_lt | apply Z.ltb_ge]; lia.
Qed.

Lemma check_rate_limit_lost_expiry_witness :
  (Redis.calls
     (Redis.check_rate_limit {["rate:manhwatop.com" := Redis.Entry 2 (Some 60)]}
        59 60 "rate:manhwatop.com" 3 60).1
     "rate:manhwatop.com" 3 60 [(61, 61); (200, 200); (4000, 4001); (90000, 90000)]).2
  = [true; true; false; false].
Proof.
  refine (proj2 (proj2 (check_rate_limit_lost_expiry
                          {["rate:manhwatop.com" := Redis.Entry 2 (Some 60)]}
                          "rate:manhwatop.com" 3 60 59 60 2 60 _ _ _ _))
            [(61, 61); (200, 200); (4000, 4001); (90000, 90000)]).
  - reflexivity.
  - lia.
  - lia.
  - lia.
Defined.

(** ** Locks and the set of scraped URLs *)

(** X3. A lock that was acquired refuses every other acquire until its
    timeout has passed, and is free again from then on; [release_lock]
    frees it at once, for whoever calls it. *)
Theorem acquire_lock_excludes
    (s s1 : gmap string Redis.entry) (now timeout : Z) (name : string) :
  RedisClient.acquire_lock s now name timeout = (s1, RedisClient.Ok) ->
  (forall t timeout', now <= t -> t < now + timeout -> 0 < timeout' ->
     RedisClient.acquire_lock s1 t name timeout' = (s1, RedisClient.Nil))
  /\ (forall t timeout', now + timeout <= t -> 0 < timeout' ->
        (RedisClient.acquire_lock s1 t name timeout').2 = RedisClient.Ok)
  /\ (forall t timeout', 0 < timeout' ->
        (RedisClient.acquire_lock (RedisClient.release_lock s1 name) t name
           timeout').2 = RedisClient.Ok).
Proof.
  unfold RedisClient.acquire_lock, RedisClient.set_nx_ex.
  destruct (Z.leb_spec timeout 0); [discriminate |].
  destruct (Redis.get s now ("lock:" +:+ name)); [discriminate |].
  intros [= <-].
  assert (Hs : (<[("lock:" +:+ name) := Redis.Entry 1 (Some (now + timeout))]> s)
               !! ("lock:" +:+ name)
               = Some (Redis.Entry 1 (Some (now + timeout))))
    by apply lookup_insert_eq.
  split; [| split]; intros t timeout'.
  - intros Ht1 Ht2 Hpos. destruct (Z.leb_spec timeout' 0); [lia |].
    rewrite (get_live _ _ t 1 (now + timeout) Hs) by lia. reflexivity.
  - intros Ht Hpos. destruct (Z.leb_spec timeout' 0); [lia |].
    rewrite (get_expired _ _ t 1 (now + timeout) Hs) by lia. reflexivity.
  - intros Hpos. destruct (Z.leb_spec timeout' 0); [lia |].
    unfold RedisClient.release_lock, Redis.get. rewrite lookup_delete_eq.
    reflexivity.
Qed.

Lemma acquire_lock_excludes_witness :
  (RedisClient.acquire_lock
     (RedisClient.acquire_lock ∅ 100 "series:42" 30).1 129 "series:42" 30).2
  = RedisClient.Nil.
Proof.
  refine (f_equal snd (proj1 (acquire_lock_excludes ∅ _ 100 30 "series:42" _)
                         129 30 _ _ _)).
  - reflexivity.
  - lia.
  - lia.
  - lia.
Defined.

(** X4. The scraped URLs share one expiry.  A mark makes its URL known for
    [ttl] seconds, renews every URL that was still known for the same [ttl]
    seconds, and when that time is over all of them are forgotten at once. *)
Theorem mark_url_scraped_shares_expiry
    (s : gmap string RedisClient.set_entry) (t1 t2 ttl : Z) (url : string) :
  0 < ttl -> t1 <= t2 ->
  (forall e x, s !! "scraped_urls" = Some e ->
               RedisClient.set_expires_at e = Some x -> x <= t1 \/ t2 < x) ->
  let s' := RedisClient.mark_url_scraped s t1 t2 url ttl in
  (forall now, t2 <= now -> now < t2 + ttl ->
     RedisClient.is_url_scraped s' now url = true)
  /\ (forall u now, RedisClient.is_url_scraped s t1 u = true ->
        t2 <= now -> now < t2 + ttl ->
        RedisClient.is_url_scraped s' now u = true)
  /\ (forall u now, t2 + ttl <= now ->
        RedisClient.is_url_scraped s' now u = false).
Proof.
  intros Httl H12 Hrace s'.
  assert (Hadd : exists e,
             RedisClient.sadd s t1 "scraped_urls" url !! "scraped_urls" = Some e
             /\ RedisClient.set_live t2 e = true
             /\ url ∈ RedisClient.elements e
             /\ forall u, RedisClient.is_url_scraped s t1 u = true ->
                          u ∈ RedisClient.elements e).
  { unfold RedisClient.sadd, RedisClient.is_url_scraped, RedisClient.sismember.
    destruct (s !! "scraped_urls") as [e |] eqn:Hs.
    - destruct (RedisClient.set_live t1 e) eqn:Hlive.
      + eexists. split; [apply lookup_insert_eq |]. simpl. repeat split.
        * unfold RedisClient.set_live in *.
          destruct (RedisClient.set_expires_at e) as [x |] eqn:Hx; [| reflexivity].
          apply Z.ltb_lt in Hlive. apply Z.ltb_lt.
          destruct (Hrace e x eq_refl Hx); lia.
        * set_solver.
        * intros u Hu. apply bool_decide_eq_true in Hu. set_solver.
      + eexists. split; [apply lookup_insert_eq |]. simpl. repeat split.
        * set_solver.
        * discriminate.
    - eexists. split; [apply lookup_insert_eq |]. simpl. repeat split.
      + set_solver.
      + discriminate. }
  destruct Hadd as (e & He & Hlive & Hurl & Hold).
  assert (Hs' : s' !! "scraped_urls"
                = Some (RedisClient.SetEntry (RedisClient.elements e)
                          (Some (t2 + ttl)))).
  { subst s'. unfold RedisClient.mark_url_scraped, RedisClient.expire.
    rewrite He, Hlive. destruct (Z.leb_spec ttl 0); [lia |].
    apply lookup_insert_eq. }
  unfold RedisClient.is_url_scraped at 1 3 4, RedisClient.sismember.
  rewrite Hs'. unfold RedisClient.set_live. simpl.
  split; [| split].
  - intros now H1 H2. apply andb_true_intro. split;
      [apply Z.ltb_lt; lia | apply bool_decide_eq_true; exact Hurl].
  - intros u now Hu H1 H2. apply andb_true_intro. split;
      [apply Z.ltb_lt; lia | apply bool_decide_eq_true; auto].
  - intros u now H1. destruct (Z.ltb_spec now (t2 + ttl)); [lia | reflexivity].
Qed.

Lemma mark_url_scraped_shares_expiry_witness :
  let s := RedisClient.mark_url_scraped ∅ 0 0 "https://www.mgeko.cc/a" 86400 in
  RedisClient.is_url_scraped
    (RedisClient.mark_url_scraped s 80000 80000 "https://www.mgeko.cc/b" 86400)
    166399 "https://www.mgeko.cc/a" = true.
Proof.
  refine (proj1 (proj2 (mark_url_scraped_shares_expiry
                          (RedisClient.mark_url_scraped ∅ 0 0
                             "https://www.mgeko.cc/a" 86400)
                          80000 80000 86400 "https://www.mgeko.cc/b" _ _ _))
            "https://www.mgeko.cc/a" 166399 _ _ _).
  - lia.
  - lia.
  - intros e x He Hx. vm_compute in He. inversion He; subst. simpl in Hx.
    inversion Hx. lia.
  - vm_compute. reflexivity.
  - lia.
  - lia.
Defined.

(** ** The rate limit a scraper waits for *)

Section RateLimitLoop.
Import Scraper.
Variables (key : string) (limit : Z).

(** A refused call leaves the store as it was. *)
Lemma check_rate_limit_refused (s s1 : gmap string Redis.entry) (t1 t2 : Z) :
  Redis.check_rate_limit s t1 t2 key limit 60 = (s1, false) -> s1 = s.
Proof.
  unfold Redis.check_rate_limit. destruct (Redis.get s t1 key); [| discriminate].
  destruct (limit <=? z); [| discriminate]. now intros [= <-].
Qed.

Lemma wait_for_slot_window (exp : Z) (pre : list (Z * Z)) :
  forall (s : gmap string Redis.entry) (prev v t1 t2 : Z) (post : list (Z * Z)),
    s !! key = Some (Redis.Entry v (Some exp)) ->
    Redis.in_window prev exp pre -> exp <= t1 ->
    exists k : nat,
      (wait_for_slot s key limit (pre ++ (t1, t2) :: post)).2 = Some k
      /\ (k <= length pre)%nat
      /\ (limit <= v -> k = length pre).
Proof.
  induction pre as [| [u1 u2] pre IH]; intros s prev v t1 t2 post Hs Hw Hexp.
  - exists 0%nat. cbn [app wait_for_slot]. unfold Redis.check_rate_limit.
    rewrite (get_expired key s t1 v exp Hs Hexp). simpl. auto.
  - simpl in Hw. destruct Hw as (_ & H12 & Hu & Hw).
    cbn [app wait_for_slot].
    destruct (check_rate_limit_live key limit 60 s u1 u2 v exp Hs H12 Hu)
      as (v' & Hs' & Hb & _).
    destruct (Redis.check_rate_limit s u1 u2 key limit 60) as [s1 b] eqn:Hcall.
    simpl in Hs', Hb. destruct b.
    + exists 0%nat. simpl. repeat split; [lia |].
      intros Hfull. symmetry in Hb. apply Z.ltb_lt in Hb. lia.
    + pose proof (check_rate_limit_refused s s1 u1 u2 Hcall) as ->.
      rewrite Hs in Hs'. injection Hs' as <-.
      destruct (IH s u2 v t1 t2 post Hs Hw Hexp) as (k & Hk & Hle & Hfull).
      destruct (wait_for_slot s key limit (pre ++ (t1, t2) :: post)) as [s2 n].
      simpl in Hk. subst n. exists (S k). simpl.
      repeat split; [lia |]. intros Hv. rewrite (Hfull Hv). reflexivity.
Qed.

Lemma wait_for_slot_stuck (polls : list (Z * Z)) :
  forall (s : gmap string Redis.entry) (v : Z),
    s !! key = Some (Redis.Entry v None) -> limit <= v ->
    wait_for_slot s key limit polls = (s, None).
Proof.
  induction polls as [| [t1 t2] polls IH]; intros s v Hs Hv; [reflexivity |].
  cbn [wait_for_slot]. unfold Redis.check_rate_limit, Redis.get. rewrite Hs.
  simpl. destruct (Z.leb_spec limit v); [| lia].
  rewrite (IH s v Hs Hv). reflexivity.
Qed.

End RateLimitLoop.

(** X5. The limit [_rate_limit] applies to a site is read under the host of
    the class's [BASE_URL]: Asura and Manhwatop get their own settings, and
    Mgeko, whose [BASE_URL] host is "www.mgeko.cc", gets the default; no
    scraper's waiting depends on [rate_limit_mgeko]. *)
Theorem _rate_limit_limit_per_site
    (settings : Settings.t) (s : gmap string Redis.entry) (polls : list (Z * Z)) :
  Scraper._rate_limit settings Registry.MgekoScraper s polls
  = Scraper.wait_for_slot s "rate:www.mgeko.cc"
      (Settings.rate_limit_default settings) polls
  /\ Scraper._rate_limit settings Registry.AsuraScraper s polls
     = Scraper.wait_for_slot s "rate:asuracomic.net"
         (Settings.rate_limit_asuracomic settings) polls
  /\ Scraper._rate_limit settings Registry.ManhwatopScraper s polls
     = Scraper.wait_for_slot s "rate:manhwatop.com"
         (Settings.rate_limit_manhwatop settings) polls
  /\ forall (c : Registry.scraper_class) (mgeko : Z),
       Scraper._rate_limit
         (Settings.Make (Settings.rate_limit_default settings)
            (Settings.rate_limit_asuracomic settings)
            (Settings.rate_limit_manhwatop settings) mgeko) c s polls
       = Scraper._rate_limit settings c s polls.
Proof.
  repeat split; try reflexivity. intros [] mgeko; reflexivity.
Qed.

(** X6. A scraper that finds its site's counter in the store, with an
    expiry, waits at most until that expiry: the first poll at or after it is
    allowed.  When the limit is used up it is refused at every poll before,
    so the wait lasts exactly until the window closes. *)
Theorem _rate_limit_ends_with_window
    (settings : Settings.t) (c : Registry.scraper_class)
    (s : gmap string Redis.entry) (v exp prev t1 t2 : Z)
    (pre post : list (Z * Z)) :
  s !! ("rate:" +:+ Registry.urlparse_netloc (Scraper.BASE_URL c))
  = Some (Redis.Entry v (Some exp)) ->
  Redis.in_window prev exp pre ->
  exp <= t1 ->
  exists k : nat,
    (Scraper._rate_limit settings c s (pre ++ (t1, t2) :: post)).2 = Some k
    /\ (k <= length pre)%nat
    /\ (Settings.get_rate_limit settings
          (Registry.urlparse_netloc (Scraper.BASE_URL c)) <= v ->
        k = length pre).
Proof.
  intros Hs Hw Hexp. unfold Scraper._rate_limit.
  eapply wait_for_slot_window; eassumption.
Qed.

Lemma _rate_limit_ends_with_window_witness :
  exists k : nat,
    (Scraper._rate_limit Settings.defaults Registry.AsuraScraper
       {["rate:asuracomic.net" := Redis.Entry 10 (Some 60)]}
       ([(57, 57); (58, 58); (59, 59)] ++ (60, 60) :: [(61, 61)])).2 = Some k
    /\ (k <= 3)%nat
    /\ (Settings.get_rate_limit Settings.defaults
          (Registry.urlparse_netloc (Scraper.BASE_URL Registry.AsuraScraper))
        <= 10 -> k = 3%nat).
Proof.
  refine (_rate_limit_ends_with_window Settings.defaults Registry.AsuraScraper
            {["rate:asuracomic.net" := Redis.Entry 10 (Some 60)]} 10 60 0 60 60
            [(57, 57); (58, 58); (59, 59)] [(61, 61)] _ _ _).
  - reflexivity.
  - simpl. lia.
  - lia.
Defined.

(** X7. A counter that has no expiry and has reached the limit blocks the
    site for good: [_rate_limit] is refused at every poll, however long it
    goes on, and leaves the store as it is. *)
Theorem _rate_limit_blocks_without_expiry
    (settings : Settings.t) (c : Registry.scraper_class)
    (s : gmap string Redis.entry) (v : Z) (polls : list (Z * Z)) :
  s !! ("rate:" +:+ Registry.urlparse_netloc (Scraper.BASE_URL c))
  = Some (Redis.Entry v None) ->
  Settings.get_rate_limit settings
    (Registry.urlparse_netloc (Scraper.BASE_URL c)) <= v ->
  Scraper._rate_limit settings c s polls = (s, None).
Proof.
  intros Hs Hv. unfold Scraper._rate_limit.
  eapply wait_for_slot_stuck; eassumption.
Qed.

Lemma _rate_limit_blocks_without_expiry_witness :
  Scraper._rate_limit Settings.defaults Registry.ManhwatopScraper
    {["rate:manhwatop.com" := Redis.Entry 10 None]}
    [(0, 0); (3600, 3600); (86400, 86401)]
  = ({["rate:manhwatop.com" := Redis.Entry 10 None]}, None).
Proof.
  refine (_rate_limit_blocks_without_expiry Settings.defaults
            Registry.ManhwatopScraper _ 10 _ _ _).
  - reflexivity.
  - vm_compute. discriminate.
Defined.

(** ** Slugs and chapter numbers *)

Section Slugs.
Import Scraper Text.

Lemma all_chars_lstrip (p : ascii -> bool) (s : string) :
  all_chars p s = true -> all_chars p (lstrip s) = true.
Proof.
  induction s as [| c r IH]; simpl; [trivial |].
  intros H. apply andb_prop in H as [Hc Hr].
  destruct (is_space c); [auto | simpl; now rewrite Hc, Hr].
Qed.

Lemma all_chars_rstrip (p : ascii -> bool) (s : string) :
  all_chars p s = true -> all_chars p (rstrip s) = true.
Proof.
  induction s as [| c r IH]; simpl; [trivial |].
  intros H. apply andb_prop in H as [Hc Hr]. specialize (IH Hr).
  destruct (rstrip r) as [| c' r'].
  - destruct (is_space c); simpl; [reflexivity | now rewrite Hc].
  - cbn [all_chars] in *. now rewrite Hc, IH.
Qed.

Lemma all_chars_drop_punctuation (p : ascii -> bool) (s : string) :
  all_chars p s = true ->
  all_chars (fun c => p c && (is_word c || is_space c || Ascii.eqb c "-"))
    (drop_punctuation s) = true.
Proof.
  induction s as [| c r IH]; simpl; [trivial |].
  intros H. apply andb_prop in H as [Hc Hr].
  destruct (is_word c || is_space c || Ascii.eqb c "-") eqn:Hk; [| auto].
  simpl. rewrite Hc, Hk. simpl. auto.
Qed.

Lemma all_chars_first_chars (p : ascii -> bool) (n : nat) :
  forall s, all_chars p s = true -> all_chars p (first_chars n s) = true.
Proof.
  induction n as [| n IH]; intros [| c r]; simpl; try reflexivity.
  intros H. apply andb_prop in H as [Hc Hr]. now rewrite Hc, IH.
Qed.

Lemma length_first_chars (n : nat) :
  forall s, (String.length (first_chars n s) <= n)%nat.
Proof.
  induction n as [| n IH]; intros [| c r]; simpl; try lia.
  specialize (IH r). lia.
Qed.

Lemma first_chars_all (n : nat) :
  forall s, (String.length s <= n)%nat -> first_chars n s = s.
Proof.
  induction n as [| n IH]; intros [| c r]; simpl; try reflexivity; try lia.
  intros H. f_equal. apply IH. lia.
Qed.

Lemma single_hyphens_first_chars (n : nat) :
  forall b s, single_hyphens b s = true ->
              single_hyphens b (first_chars n s) = true.
Proof.
  induction n as [| n IH]; intros b [| c r]; simpl; try reflexivity.
  destruct (Ascii.eqb c "-").
  - intros H. apply andb_prop in H as [Hb Hr]. now rewrite Hb, IH.
  - apply IH.
Qed.

(** No upper-case letter survives [lower]. *)
Lemma lower_no_upper (s : string) :
  all_chars (fun c => negb ((65 <=? nat_of_ascii c) && (nat_of_ascii c <=? 90))%nat)
    (lower s) = true.
Proof.
  induction s as [| c r IH]; [reflexivity |]. cbn [lower all_chars].
  rewrite IH, andb_true_r.
  destruct c as [[] [] [] [] [] [] [] []]; reflexivity.
Qed.

(** What is left after [lower] and the first substitution is a slug
    character or white space. *)
Lemma kept_char (c : ascii) :
  negb ((65 <=? nat_of_ascii c) && (nat_of_ascii c <=? 90))%nat
  && (is_word c || is_space c || Ascii.eqb c "-") = true ->
  (if is_space c || Ascii.eqb c "-" then true else slug_char c) = true.
Proof. destruct c as [[] [] [] [] [] [] [] []]; vm_compute; trivial. Qed.

Lemma hyphenate_slug_chars (s : string) :
  forall b,
    all_chars (fun c => negb ((65 <=? nat_of_ascii c) && (nat_of_ascii c <=? 90))%nat
                        && (is_word c || is_space c || Ascii.eqb c "-")) s = true ->
    all_chars slug_char (hyphenate b s) = true.
Proof.
  induction s as [| c r IH]; intros b; simpl; [trivial |].
  intros H. apply andb_prop in H as [Hc Hr]. apply kept_char in Hc.
  destruct (is_space c || Ascii.eqb c "-").
  - destruct b; simpl; auto.
  - simpl. rewrite Hc. simpl. auto.
Qed.

Lemma hyphenate_single_hyphens (s : string) :
  forall b, single_hyphens b (hyphenate b s) = true.
Proof.
  induction s as [| c r IH]; intros b; simpl; [reflexivity |].
  destruct (is_space c || Ascii.eqb c "-") eqn:Hsep.
  - destruct b; [apply IH |]. simpl. apply IH.
  - simpl. apply orb_false_elim in Hsep as [_ ->]. apply IH.
Qed.

(** A slug goes through every step of [slugify] unchanged. *)
Lemma slug_char_facts (c : ascii) :
  slug_char c = true ->
  ascii_lower c = c /\ is_space c = false
  /\ is_word c || is_space c || Ascii.eqb c "-" = true.
Proof. destruct c as [[] [] [] [] [] [] [] []]; vm_compute; auto; discriminate. Qed.

Lemma lower_slug (s : string) : all_chars slug_char s = true -> lower s = s.
Proof.
  induction s as [| c r IH]; simpl; [reflexivity |].
  intros H. apply andb_prop in H as [Hc Hr].
  destruct (slug_char_facts c Hc) as (-> & _). now rewrite IH.
Qed.

Lemma lstrip_slug (s : string) : all_chars slug_char s = true -> lstrip s = s.
Proof.
  destruct s as [| c r]; simpl; [reflexivity |].
  intros H. apply andb_prop in H as [Hc Hr].
  destruct (slug_char_facts c Hc) as (_ & -> & _). reflexivity.
Qed.

Lemma rstrip_slug (s : string) : all_chars slug_char s = true -> rstrip s = s.
Proof.
  induction s as [| c r IH]; simpl; [reflexivity |].
  intros H. apply andb_prop in H as [Hc Hr]. rewrite (IH Hr).
  destruct (slug_char_facts c Hc) as (_ & -> & _). now destruct r.
Qed.

Lemma drop_punctuation_slug (s : string) :
  all_chars slug_char s = true -> drop_punctuation s = s.
Proof.
  induction s as [| c r IH]; simpl; [reflexivity |].
  intros H. apply andb_prop in H as [Hc Hr].
  destruct (slug_char_facts c Hc) as (_ & _ & ->). now rewrite IH.
Qed.

Lemma hyphenate_slug (s : string) :
  forall b, all_chars slug_char s = true -> single_hyphens b s = true ->
            hyphenate b s = s.
Proof.
  induction s as [| c r IH]; intros b; simpl; [reflexivity |].
  intros H Hh. apply andb_prop in H as [Hc Hr].
  destruct (slug_char_facts c Hc) as (_ & -> & _). simpl.
  destruct (Ascii.eqb_spec c "-") as [-> | _].
  - apply andb_prop in Hh as [Hb Hh]. destruct b; [discriminate |].
    now rewrite IH.
  - now rewrite IH.
Qed.

Lemma slugify_parts (text : string) :
  all_chars slug_char (slugify text) = true
  /\ single_hyphens false (slugify text) = true
  /\ (String.length (slugify text) <= 200)%nat.
Proof.
  unfold slugify. repeat split.
  - apply all_chars_first_chars, hyphenate_slug_chars, all_chars_drop_punctuation.
    unfold strip. apply all_chars_rstrip, all_chars_lstrip, lower_no_upper.
  - apply single_hyphens_first_chars, hyphenate_single_hyphens.
  - apply length_first_chars.
Qed.

End Slugs.

(** X8. The slug of an ASCII title is made of lower-case letters, digits,
    underscores and hyphens only, never has two hyphens in a row, and is at
    most 200 characters long. *)
Theorem slugify_shape (text : string) :
  Scraper.ascii_text text = true ->
  Text.all_chars Text.slug_char (Scraper.slugify text) = true
  /\ Text.single_hyphens false (Scraper.slugify text) = true
  /\ (String.length (Scraper.slugify text) <= 200)%nat.
Proof. intros _. apply slugify_parts. Qed.

Lemma slugify_shape_witness :
  Text.all_chars Text.slug_char (Scraper.slugify "Solo Leveling: Ragnarok") = true
  /\ Text.single_hyphens false (Scraper.slugify "Solo Leveling: Ragnarok") = true
  /\ (String.length (Scraper.slugify "Solo Leveling: Ragnarok") <= 200)%nat.
Proof. apply (slugify_shape "Solo Leveling: Ragnarok"). reflexivity. Defined.

(** X9. [slugify] is idempotent on ASCII text: the slug of a slug is the
    slug itself. *)
Theorem slugify_idempotent (text : string) :
  Scraper.ascii_text text = true ->
  Scraper.slugify (Scraper.slugify text) = Scraper.slugify text.
Proof.
  intros _. destruct (slugify_parts text) as (Hchars & Hhyphens & Hlen).
  set (slug := Scraper.slugify text) in *.
  unfold Scraper.slugify at 1, Scraper.strip.
  rewrite (lower_slug slug Hchars), (lstrip_slug slug Hchars),
    (rstrip_slug slug Hchars), (drop_punctuation_slug slug Hchars),
    (hyphenate_slug slug false Hchars Hhyphens).
  apply first_chars_all, Hlen.
Qed.

Lemma slugify_idempotent_witness :
  Scraper.slugify (Scraper.slugify "Hello World!") = Scraper.slugify "Hello World!".
Proof. apply (slugify_idempotent "Hello World!"). reflexivity. Defined.

(** tests/test_scrapers.py, on the model. *)
Example test_scraper_slugify :
  Scraper.slugify "Hello World!" = "hello-world"
  /\ Scraper.slugify "Solo Leveling: Ragnarok" = "solo-leveling-ragnarok".
Proof. vm_compute. split; reflexivity. Qed.

Example test_scraper_extract_number :
  Qred <$> Scraper.extract_number "Chapter 123" = Some (123 # 1)
  /\ Qred <$> Scraper.extract_number "Ch. 45.5" = Some (91 # 2)
  /\ Qred <$> Scraper.extract_number "Episode 1" = Some (1 # 1)
  /\ Scraper.extract_number "No number here" = None.
Proof. vm_compute. repeat split. Qed.

Section Numbers.
Import Scraper Text.

Lemma digits_are_digits (s : string) : all_chars is_digit (digits s).1 = true.
Proof.
  induction s as [| c r IH]; simpl; [reflexivity |].
  destruct (is_digit c) eqn:Hc; [| reflexivity].
  destruct (digits r) as [d rest]. simpl in *. now rewrite Hc.
Qed.

Lemma number_here_None (s : string) :
  number_here s = None
  <-> match s with EmptyString => True | String c _ => is_digit c = false end.
Proof.
  unfold number_here. destruct s as [| c r]; simpl; [tauto |].
  destruct (is_digit c); [| tauto].
  destruct (digits r) as [d rest]. split; [| discriminate].
  destruct rest as [| c' after]; [discriminate |].
  destruct (Ascii.eqb_spec c' "."); [subst |].
  - destruct (digits after) as [[| ? ?] ?]; discriminate.
  - destruct c' as [[] [] [] [] [] [] [] []]; try discriminate.
    contradiction n; reflexivity.
Qed.

Lemma search_number_None (s : string) :
  search_number s = None <-> all_chars (fun c => negb (is_digit c)) s = true.
Proof.
  induction s as [| c r IH]; [simpl; tauto |].
  cbn [search_number all_chars].
  destruct (number_here (String c r)) as [m |] eqn:Hm.
  - split; [discriminate |]. intros H. apply andb_prop in H as [Hc _].
    assert (Hn : number_here (String c r) = None)
      by (apply number_here_None; now apply negb_true_iff).
    congruence.
  - apply number_here_None in Hm. rewrite Hm. simpl. exact IH.
Qed.

Lemma digits_value_nonneg (s : string) :
  forall acc, 0 <= acc -> all_chars is_digit s = true -> 0 <= digits_value acc s.
Proof.
  induction s as [| c r IH]; intros acc Hacc; simpl; [trivial |].
  intros H. apply andb_prop in H as [Hc Hr]. apply IH; [| exact Hr].
  unfold is_digit in Hc. apply andb_prop in Hc as [Hlo _].
  apply Nat.leb_le in Hlo. lia.
Qed.

Lemma float_of_digits (w rest : string) :
  forall acc, all_chars is_digit w = true ->
              float_of acc (w +:+ rest) = float_of (digits_value acc w) rest.
Proof.
  induction w as [| c r IH]; intros acc; [reflexivity |].
  change (String c r +:+ rest) with (String c (r +:+ rest)). simpl.
  intros H. apply andb_prop in H as [Hc Hr].
  destruct (Ascii.eqb_spec c ".") as [-> | _]; [discriminate |]. now apply IH.
Qed.

Lemma app_empty_r (s : string) : s +:+ EmptyString = s.
Proof.
  induction s as [| c r IH]; [reflexivity |].
  change (String c (r +:+ EmptyString) = String c r). now rewrite IH.
Qed.

Lemma float_of_nonneg (whole : Z) (s : string) :
  0 <= whole ->
  (s = EmptyString
   \/ exists f, s = String "." f /\ all_chars is_digit f = true) ->
  (0 <= float_of whole s)%Q.
Proof.
  intros Hw [-> | (f & -> & Hf)]; simpl.
  - unfold Qle. simpl. lia.
  - rewrite <- (Qplus_0_r 0). apply Qplus_le_compat.
    + unfold Qle. simpl. lia.
    + apply Qmult_le_0_compat.
      * pose proof (digits_value_nonneg f 0 ltac:(lia) Hf).
        unfold Qle. simpl. lia.
      * apply Qinv_le_0_compat. unfold Qle. simpl.
        pose proof (Z.pow_nonneg 10 (Z.of_nat (String.length f))). lia.
Qed.

Lemma number_here_nonneg (s m : string) :
  number_here s = Some m -> (0 <= float_of 0 m)%Q.
Proof.
  unfold number_here. pose proof (digits_are_digits s) as Hw.
  destruct (digits s) as [whole rest]. simpl in Hw.
  assert (Hwhole : (0 <= float_of 0 whole)%Q).
  { rewrite <- (app_empty_r whole) at 1.
    rewrite (float_of_digits whole EmptyString 0 Hw).
    apply float_of_nonneg; [apply digits_value_nonneg; [lia | exact Hw] | auto]. }
  destruct whole as [| c w]; [discriminate |].
  destruct rest as [| c' after]; [now intros [= <-] |].
  destruct (Ascii.eqb_spec c' ".") as [-> | Hne].
  - pose proof (digits_are_digits after) as Hf.
    destruct (digits after) as [[| cf f] rest']; [now intros [= <-] |].
    intros [= <-]. rewrite (float_of_digits (String c w) _ 0 Hw).
    apply float_of_nonneg; [apply digits_value_nonneg; [lia | exact Hw] |].
    right. eexists. split; [reflexivity | exact Hf].
  - destruct c' as [[] [] [] [] [] [] [] []]; try (now intros [= <-]).
    contradiction Hne; reflexivity.
Qed.

Lemma search_number_nonneg (s m : string) :
  search_number s = Some m -> (0 <= float_of 0 m)%Q.
Proof.
  induction s as [| c r IH]; cbn [search_number].
  - destruct (number_here EmptyString) eqn:H; [| discriminate].
    intros [= <-]. eapply number_here_nonneg; eassumption.
  - destruct (number_here (String c r)) eqn:H; [| exact IH].
    intros [= <-]. eapply number_here_nonneg; eassumption.
Qed.

End Numbers.

(** X10. On ASCII text [extract_number] answers [None] exactly when the text
    has no digit, and the number it finds is never negative: a minus sign in
    front of the digits is not part of the match. *)
Theorem extract_number_none_iff_no_digit (text : string) :
  Scraper.ascii_text text = true ->
  (Scraper.extract_number text = None
   <-> Text.all_chars (fun c => negb (Scraper.is_digit c)) text = true)
  /\ forall q : Q, Scraper.extract_number text = Some q -> (0 <= q)%Q.
Proof.
  intros _. unfold Scraper.extract_number. split.
  - destruct text as [| c r]; [simpl; tauto |].
    rewrite <- search_number_None.
    destruct (Scraper.search_number (String c r)); simpl;
      split; congruence.
  - intros q. destruct text as [| c r]; [discriminate |].
    destruct (Scraper.search_number (String c r)) as [m |] eqn:Hm;
      [| discriminate].
    simpl. intros [= <-]. eapply search_number_nonneg; eassumption.
Qed.

Lemma extract_number_none_iff_no_digit_witness :
  Scraper.extract_number "No number here" = None.
Proof.
  apply (proj1 (extract_number_none_iff_no_digit "No number here" eq_refl)).
  reflexivity.
Defined.

(** ** Fetch strategy: the HTTP path, attempt by attempt *)

Section HttpAttempts.
Import Fetch Trace.
Variables (env : Env) (url : string).

(** One attempt: one rate-limit wait, one GET, and either the body of an
    answer that is no challenge and has a 2xx status, or an exception. *)
Lemma _fetch_http_attempt_spec (trace : list event) :
  (_fetch_http_attempt env url trace).1 = trace ++ [RateLimit; HttpGet url]
  /\ forall content,
       (_fetch_http_attempt env url trace).2 = inr content ->
       exists response,
         http_get env (count is_get trace) url = inr response
         /\ text response = content
         /\ _is_cloudflare_challenge response = false
         /\ 200 <= status_code response <= 299.
Proof.
  unfold _fetch_http_attempt.
  assert (Hn : count is_get (trace ++ [RateLimit]) = count is_get trace)
    by (rewrite count_app; unfold count; simpl; lia).
  rewrite Hn, <- app_assoc. simpl.
  destruct (http_get env (count is_get trace) url) as [e | response] eqn:Hget;
    [split; [reflexivity | discriminate] |].
  destruct (_is_cloudflare_challenge response) eqn:Hcf;
    [split; [reflexivity | discriminate] |].
  unfold raise_for_status.
  destruct ((200 <=? status_code response) && (status_code response <=? 299))
    eqn:Hok; simpl; (split; [reflexivity |]); [| discriminate].
  intros content [= <-]. exists response.
  apply andb_prop in Hok as [H1 H2]. apply Z.leb_le in H1, H2. auto.
Qed.

Lemma retry_attempts (more : nat) :
  forall trace : list event,
    exists g : nat,
      let r := retry more (_fetch_http_attempt env url) trace in
      (1 <= g <= S more)%nat
      /\ count is_get r.1 = (count is_get trace + g)%nat
      /\ count is_rate_limit r.1 = (count is_rate_limit trace + g)%nat
      /\ count is_wait r.1 = (count is_wait trace + (g - 1))%nat
      /\ match r.2 with
         | inr content =>
             exists response,
               http_get env (count is_get trace + (g - 1)) url = inr response
               /\ text response = content
               /\ _is_cloudflare_challenge response = false
               /\ 200 <= status_code response <= 299
         | inl e => g = S more /\ exists last, e = RetryError last
         end.
Proof.
  induction more as [| more IH]; intros trace; cbn [retry];
    destruct (_fetch_http_attempt_spec trace) as [Htrace Hok];
    destruct (_fetch_http_attempt env url trace) as [trace' [e | content]];
    simpl in Htrace, Hok; subst trace'.
  - exists 1%nat. cbn zeta. cbn [fst snd].
    repeat split; eauto; try lia;
      rewrite count_app; unfold count; simpl; lia.
  - exists 1%nat. cbn zeta. cbn [fst snd].
    repeat split; try lia;
      try (rewrite count_app; unfold count; simpl; lia).
    change (1 - 1)%nat with 0%nat. rewrite Nat.add_0_r. apply Hok. reflexivity.
  - destruct (IH ((trace ++ [RateLimit; HttpGet url]) ++ [Wait]))
      as (g & Hg & Hgets & Hrl & Hw & Hres).
    exists (S g). cbn zeta in *. rewrite !count_app in Hgets, Hrl, Hw.
    change (count is_get [RateLimit; HttpGet url]) with 1%nat in Hgets.
    change (count is_get [Wait]) with 0%nat in Hgets.
    change (count is_rate_limit [RateLimit; HttpGet url]) with 1%nat in Hrl.
    change (count is_rate_limit [Wait]) with 0%nat in Hrl.
    change (count is_wait [RateLimit; HttpGet url]) with 0%nat in Hw.
    change (count is_wait [Wait]) with 1%nat in Hw.
    rewrite Hgets, Hrl, Hw. repeat split; try lia.
    destruct (retry more _ _).2 as [e' | content].
    + destruct Hres as [-> Hlast]. auto.
    + destruct Hres as (response & Hget & Hrest). exists response.
      split; [| exact Hrest]. rewrite <- Hget. f_equal.
      rewrite !count_app. unfold count. simpl. lia.
  - exists 1%nat. cbn zeta. cbn [fst snd].
    repeat split; try lia;
      try (rewrite count_app; unfold count; simpl; lia).
    change (1 - 1)%nat with 0%nat. rewrite Nat.add_0_r. apply Hok. reflexivity.
Qed.

End HttpAttempts.


(** ** Registry and fetch strategy together *)

Lemma SCRAPER_REGISTRY_Some (domain : string) (c : Registry.scraper_class) :
  Registry.SCRAPER_REGISTRY !! domain = Some c ->
  bool_decide (domain ∈ Registry.BROWSER_REQUIRED_DOMAINS)
  = Scraper.REQUIRES_BROWSER c.
Proof.
  unfold Registry.SCRAPER_REGISTRY. cbn [list_to_map foldr fst snd uncurry].
  intros H.
  repeat (apply lookup_insert_Some in H as [[<- <-] | [_ H]];
          [vm_compute; reflexivity |]).
  rewrite lookup_empty in H. discriminate.
Qed.

(** X12. The scraper the registry builds for a URL carries the browser flag
    of its class: the domains marked as requiring the browser are exactly
    those of Asura and Manhwatop.  For such a URL [fetch_page] goes to the
    browser at once, with one pass through the rate limiter and no GET, and
    hands on whatever the browser answers or raises; for a Mgeko URL it stays
    on the HTTP path unless [force_browser] is set. *)
Theorem get_scraper_for_url_browser_flag
    (netloc : string -> string) (url : string) (s : Registry.scraper)
    (env : Fetch.Env) (page : string) (force_browser : bool)
    (wait_selector : option string) (trace : list Fetch.event) :
  Registry.get_scraper_for_url netloc url = Some s ->
  Registry.requires_browser s = Scraper.REQUIRES_BROWSER (Registry.class s)
  /\ (Registry.class s <> Registry.MgekoScraper ->
      Fetch.fetch_page (Registry.requires_browser s) env page force_browser
        wait_selector trace
      = (trace ++ [Fetch.RateLimit; Fetch.BrowserFetch page wait_selector],
         Fetch.browser_fetch env page wait_selector))
  /\ (Registry.class s = Registry.MgekoScraper ->
      Fetch.fetch_page (Registry.requires_browser s) env page false
        wait_selector trace
      = Fetch._fetch_http env page trace).
Proof.
  unfold Registry.get_scraper_for_url.
  destruct (Registry.SCRAPER_REGISTRY !! lower (netloc url)) as [c |] eqn:Hc;
    [| discriminate].
  intros [= <-]. simpl.
  rewrite (SCRAPER_REGISTRY_Some _ _ Hc).
  split; [reflexivity |]. split.
  - intros Hclass. destruct c; [contradiction | |]; simpl;
      unfold Fetch.fetch_page; rewrite orb_true_r; reflexivity.
  - intros ->. simpl. apply fetch_page_is_fetch_http.
Qed.

Lemma get_scraper_for_url_browser_flag_witness :
  Fetch.fetch_page true
    (Fetch.MkEnv (fun _ _ => inl Fetch.TransportError)
       (fun _ _ => inr "<html>chapter list</html>"))
    "https://asuracomic.net/series/test" false None []
  = ([Fetch.RateLimit;
      Fetch.BrowserFetch "https://asuracomic.net/series/test" None],
     inr "<html>chapter list</html>").
Proof.
  refine (proj1 (proj2 (get_scraper_for_url_browser_flag Registry.urlparse_netloc
                          "https://asuracomic.net/series/test"
                          (Registry.MkScraper Registry.AsuraScraper true)
                          (Fetch.MkEnv (fun _ _ => inl Fetch.TransportError)
                             (fun _ _ => inr "<html>chapter list</html>"))
                          "https://asuracomic.net/series/test" false None [] _)) _).
  - vm_compute. reflexivity.
  - discriminate.
Defined.

(** ** Browser pool: when an acquire waits, what a pass retires, how many
    requests an instance serves *)

Section PoolPasses.
Import BrowserPool PoolFacts.

Lemma remove_length_elem (x : BrowserInstance) (l : list BrowserInstance) :
  x ∈ l -> S (length (remove x l)) = length l.
Proof.
  induction l as [| y r IH]; [intros H; inversion H |].
  intros H. simpl. destruct (decide (y = x)) as [-> | Hne]; [reflexivity |].
  simpl. f_equal. apply IH. apply elem_of_cons in H as [-> | H]; [| exact H].
  contradiction.
Qed.

(** A scan that hands nothing out and leaves the list as long as it was
    has met busy instances only. *)
Lemma scan_nothing_removed (now : Z) (fuel : nat) :
  forall (idx : nat) (l l' : list BrowserInstance),
    scan fuel now idx l = Some (l', None) -> length l' = length l ->
    l' = l
    /\ forall (j : nat) (i : BrowserInstance),
         (idx <= j)%nat -> l !! j = Some i -> is_busy i = true.
Proof.
  induction fuel as [| fuel IH]; intros idx l l' H Hlen; [discriminate |].
  simpl in H. destruct (l !! idx) as [instance |] eqn:Hidx.
  - destruct (is_busy instance) eqn:Hbusy.
    + destruct (IH _ _ _ H Hlen) as [-> Hall]. split; [reflexivity |].
      intros j i Hj Hi. destruct (decide (j = idx)) as [-> | Hne].
      * rewrite Hidx in Hi. now injection Hi as <-.
      * apply (Hall j i); [lia | exact Hi].
    + destruct (needs_replacement now instance); [| discriminate].
      apply scan_length in H.
      pose proof (remove_length_elem instance l
                    (list_elem_of_lookup_2 _ _ _ Hidx)). lia.
  - injection H as <-. split; [reflexivity |]. intros j i Hj Hi.
    apply lookup_ge_None_1 in Hidx.
    rewrite (lookup_ge_None_2 l j) in Hi by lia. discriminate.
Qed.

Lemma scan_all_busy (now : Z) (fuel : nat) :
  forall (idx : nat) (l : list BrowserInstance),
    Forall (fun i => is_busy i = true) l -> (length l - idx < fuel)%nat ->
    scan fuel now idx l = Some (l, None).
Proof.
  induction fuel as [| fuel IH]; intros idx l Hall Hfuel; [lia |].
  simpl. destruct (l !! idx) as [instance |] eqn:Hidx; [| reflexivity].
  rewrite Forall_forall in Hall.
  rewrite (Hall instance) by (eapply list_elem_of_lookup_2; eassumption).
  apply IH; [now apply Forall_forall |].
  apply lookup_lt_Some in Hidx. lia.
Qed.

Lemma remove_middle (x : BrowserInstance) (pre suf : list BrowserInstance) :
  x ∉ pre -> remove x (pre ++ x :: suf) = pre ++ suf.
Proof.
  induction pre as [| y r IH]; intros Hx; simpl.
  - destruct (decide (x = x)); [reflexivity | contradiction].
  - destruct (decide (y = x)) as [-> | _].
    + exfalso. apply Hx. apply elem_of_cons. auto.
    + f_equal. apply IH. intros Hin. apply Hx. apply elem_of_cons. auto.
Qed.

(** The scan over idle instances that are all due for replacement: each
    removal moves the next instance under the iterator, which then steps
    over it. *)
Lemma scan_every_other (now : Z) (n : nat) :
  forall (suf pre : list BrowserInstance) (fuel : nat),
    (length suf <= n)%nat ->
    NoDup (pre ++ suf) ->
    Forall (fun i => is_busy i = false /\ needs_replacement now i = true) suf ->
    (length suf < fuel)%nat ->
    scan fuel now (length pre) (pre ++ suf) = Some (pre ++ every_other suf, None).
Proof.
  induction n as [| n IH]; intros suf pre fuel Hn Hnd Hall Hfuel.
  - destruct suf; [| simpl in Hn; lia]. destruct fuel; [lia |].
    simpl. rewrite app_nil_r.
    rewrite (lookup_ge_None_2 pre (length pre)) by lia. reflexivity.
  - destruct suf as [| x rest].
    { destruct fuel; [lia |]. simpl. rewrite app_nil_r.
      rewrite (lookup_ge_None_2 pre (length pre)) by lia. reflexivity. }
    destruct fuel as [| fuel]; [lia |].
    apply Forall_cons in Hall as [[Hidle Hold] Hall].
    apply NoDup_app in Hnd as Hparts. destruct Hparts as (Hpre & Hdisj & Hsuf).
    assert (Hx : x ∉ pre).
    { intros Hin. apply (Hdisj x Hin). apply elem_of_cons. auto. }
    cbn [scan]. rewrite list_lookup_middle by reflexivity.
    rewrite Hidle, Hold, (remove_middle x pre rest Hx).
    destruct rest as [| y r].
    + destruct fuel as [| fuel]; [simpl in Hfuel; lia |].
      simpl. rewrite app_nil_r.
      rewrite (lookup_ge_None_2 pre (S (length pre))) by lia. reflexivity.
    + replace (pre ++ y :: r) with ((pre ++ [y]) ++ r)
        by (rewrite <- app_assoc; reflexivity).
      replace (S (length pre)) with (length (pre ++ [y]))
        by (rewrite length_app; simpl; lia).
      apply Forall_cons in Hall as [_ Hall].
      rewrite (IH r (pre ++ [y]) fuel); simpl in *; try lia; try assumption.
      * rewrite <- app_assoc. reflexivity.
      * rewrite <- app_assoc. simpl. apply NoDup_app. repeat split.
        -- exact Hpre.
        -- intros z Hz Hin. apply (Hdisj z Hz). apply elem_of_cons. auto.
        -- apply NoDup_cons in Hsuf as [_ Hsuf]. exact Hsuf.
Qed.

Lemma every_other_length {A : Type} (l : list A) :
  length (every_other l) = (length l / 2)%nat.
Proof.
  assert (H : forall n (l : list A), (length l <= n)%nat ->
                length (every_other l) = (length l / 2)%nat).
  { clear l. induction n as [| n IH]; intros l Hn.
    - destruct l; [reflexivity | simpl in Hn; lia].
    - destruct l as [| x [| y r]]; [reflexivity | reflexivity |].
      cbn [every_other length]. rewrite IH by (simpl in Hn; lia).
      change (S (S (length r))) with (2 + length r)%nat.
      replace (2 + length r)%nat with (length r + 1 * 2)%nat by lia.
      rewrite Nat.div_add by lia. lia. }
  apply (H (length l)). lia.
Qed.

Lemma every_other_sublist {A : Type} (l : list A) (x : A) :
  x ∈ every_other l -> x ∈ l.
Proof.
  assert (H : forall n (l : list A), (length l <= n)%nat ->
                x ∈ every_other l -> x ∈ l).
  { clear l. induction n as [| n IH]; intros l Hn.
    - destruct l; [trivial | simpl in Hn; lia].
    - destruct l as [| a [| b r]]; [trivial | intros H; inversion H |].
      cbn [every_other]. intros Hin. apply elem_of_cons in Hin as [-> | Hin].
      + apply elem_of_cons. right. apply elem_of_cons. auto.
      + apply elem_of_cons. right. apply elem_of_cons. right.
        apply IH; [simpl in Hn; lia | exact Hin]. }
  apply (H (length l)). lia.
Qed.

(** Marking busy, retiring and creating keep every instance within its
    budget of requests. *)
Lemma scan_within_budget (now : Z) (fuel : nat) :
  forall (idx : nat) (l l' : list BrowserInstance) (r : option BrowserInstance),
    Forall (fun i => request_count i <= MAX_REQUESTS_PER_BROWSER
                     /\ (is_busy i = true ->
                         request_count i < MAX_REQUESTS_PER_BROWSER)) l ->
    scan fuel now idx l = Some (l', r) ->
    Forall (fun i => request_count i <= MAX_REQUESTS_PER_BROWSER
                     /\ (is_busy i = true ->
                         request_count i < MAX_REQUESTS_PER_BROWSER)) l'.
Proof.
  induction fuel as [| fuel IH]; intros idx l l' r Hall H; [discriminate |].
  simpl in H. destruct (l !! idx) as [instance |] eqn:Hidx.
  - destruct (is_busy instance); [eauto |].
    destruct (needs_replacement now instance) eqn:Hneed.
    + eapply IH; [| exact H]. rewrite Forall_forall in Hall |- *.
      intros i Hi. apply Hall. eapply remove_elem_of; eassumption.
    + injection H as <- _. apply Forall_insert; [exact Hall |].
      unfold needs_replacement in Hneed. apply orb_false_elim in Hneed as [Hrc _].
      apply Z.leb_gt in Hrc. simpl. split; [lia | intros _; exact Hrc].
  - injection H as <- _. exact Hall.
Qed.

Lemma step_within_budget (p : Pool) (o : op) :
  within_budget p -> held p o -> within_budget (step p o).
Proof.
  unfold within_budget. intros Hall Hheld.
  destruct o as [now create_ok | now h |]; simpl.
  - unfold _get_instance.
    destruct (scan _ now 0 (_instances p)) as [[l [got |]] |] eqn:Hscan;
      simpl; [| | exact Hall].
    + eapply scan_within_budget; eassumption.
    + pose proof (scan_within_budget _ _ _ _ _ _ Hall Hscan) as Hl.
      destruct (Z.of_nat (length l) <? pool_size p); [| exact Hl].
      destruct create_ok; simpl; [| exact Hl].
      apply Forall_app. split; [exact Hl |].
      apply Forall_singleton. unfold MAX_REQUESTS_PER_BROWSER. simpl. lia.
  - simpl in Hheld. rewrite Forall_forall in Hall, Hheld.
    apply Forall_forall. intros i Hi. apply list_elem_of_In in Hi.
    apply in_map_iff in Hi as (i0 & <- & Hi0). apply list_elem_of_In in Hi0.
    destruct (Nat.eqb_spec (browser i0) h) as [Hb | _]; [| auto].
    destruct (Hall i0 Hi0) as [_ Hbusy]. specialize (Hbusy (Hheld i0 Hi0 Hb)).
    simpl. split; [lia | discriminate].
  - constructor.
Qed.

End PoolPasses.

(** X13. In a pool within its size, a pass of [_get_instance] ends in the
    wait exactly when the pool is full and every instance is busy; the pass
    then leaves the pool as it found it. *)
Theorem _get_instance_waits_iff_exhausted
    (p : BrowserPool.Pool) (now : Z) (create_ok : bool) :
  BrowserPool.invariant p ->
  ((BrowserPool._get_instance p now create_ok).2 = BrowserPool.Wait
   <-> BrowserPool.active_count p = BrowserPool.pool_size p
       /\ Forall (fun i => BrowserPool.is_busy i = true)
                 (BrowserPool._instances p))
  /\ ((BrowserPool._get_instance p now create_ok).2 = BrowserPool.Wait ->
      (BrowserPool._get_instance p now create_ok).1 = p).
Proof.
  intros [_ Hsize]. unfold BrowserPool.active_count in *.
  assert (Hwait : (BrowserPool._get_instance p now create_ok).2 = BrowserPool.Wait ->
                  Z.of_nat (length (BrowserPool._instances p)) = BrowserPool.pool_size p
                  /\ Forall (fun i => BrowserPool.is_busy i = true)
                            (BrowserPool._instances p)
                  /\ (BrowserPool._get_instance p now create_ok).1 = p).
  { unfold BrowserPool._get_instance.
    destruct (scan_total now (S (length (BrowserPool._instances p))) 0
                (BrowserPool._instances p) ltac:(lia)) as [[l got] Hscan].
    rewrite Hscan. destruct got as [got |]; [discriminate |].
    pose proof (scan_length _ _ _ _ _ _ Hscan) as Hlen.
    destruct (Z.ltb_spec (Z.of_nat (length l)) (BrowserPool.pool_size p));
      [destruct create_ok; discriminate |].
    intros _.
    destruct (scan_nothing_removed _ _ _ _ _ Hscan ltac:(lia)) as [-> Hbusy].
    repeat split; [lia | | now destruct p].
    apply Forall_forall. intros i Hi.
    apply list_elem_of_lookup in Hi as [j Hj]. apply (Hbusy j i); [lia | exact Hj]. }
  split; [split |].
  - intros H. destruct (Hwait H) as (H1 & H2 & _). auto.
  - intros [Hfull Hbusy]. unfold BrowserPool._get_instance.
    rewrite (scan_all_busy now _ 0 _ Hbusy) by lia.
    destruct (Z.ltb_spec (Z.of_nat (length (BrowserPool._instances p)))
                (BrowserPool.pool_size p)); [lia | reflexivity].
  - intros H. apply (Hwait H).
Qed.

Lemma _get_instance_waits_iff_exhausted_witness :
  (BrowserPool._get_instance
     (BrowserPool.MkPool 2
        [BrowserPool.MkInstance 0 0 50 10 true;
         BrowserPool.MkInstance 1 5 3 20 true] 2) 5000000000 true).2
  = BrowserPool.Wait.
Proof.
  refine (proj2 (proj1 (_get_instance_waits_iff_exhausted _ 5000000000 true _)) _).
  - unfold BrowserPool.invariant, BrowserPool.busy_count,
      BrowserPool.active_count. simpl. lia.
  - split; [reflexivity |]. repeat constructor.
Defined.

(** X14. Removing from the list while iterating over it makes the scan step
    over the instance that follows each one it retires.  In a pool whose
    instances are all idle and all due for replacement, one pass retires the
    instances at the even positions only, keeps those at the odd positions,
    which are just as old, and starts a new browser. *)
Theorem _get_instance_retires_every_other
    (p : BrowserPool.Pool) (now : Z) :
  BrowserPool.invariant p ->
  BrowserPool._instances p <> [] ->
  NoDup (BrowserPool._instances p) ->
  Forall (fun i => BrowserPool.is_busy i = false
                   /\ BrowserPool.needs_replacement now i = true)
         (BrowserPool._instances p) ->
  let fresh := BrowserPool.MkInstance (BrowserPool.spawned p) now 0 now true in
  BrowserPool._get_instance p now true
  = (BrowserPool.MkPool (BrowserPool.pool_size p)
       (PoolFacts.every_other (BrowserPool._instances p) ++ [fresh])
       (S (BrowserPool.spawned p)),
     BrowserPool.Got fresh)
  /\ length (PoolFacts.every_other (BrowserPool._instances p))
     = (length (BrowserPool._instances p) / 2)%nat
  /\ Forall (fun i => BrowserPool.needs_replacement now i = true)
            (PoolFacts.every_other (BrowserPool._instances p)).
Proof.
  intros [_ Hsize] Hne Hnd Hall fresh. unfold BrowserPool.active_count in Hsize.
  pose proof (every_other_length (BrowserPool._instances p)) as Hlen.
  split; [| split; [exact Hlen |]].
  - unfold BrowserPool._get_instance.
    pose proof (scan_every_other now (length (BrowserPool._instances p))
                  (BrowserPool._instances p) []
                  (S (length (BrowserPool._instances p)))
                  ltac:(lia) Hnd Hall ltac:(lia)) as Hscan.
    cbn [app length] in Hscan. rewrite Hscan. cbn [fst snd].
    assert (Hhalf : (length (BrowserPool._instances p) / 2
                     < length (BrowserPool._instances p))%nat).
    { apply Nat.div_lt; [| lia]. destruct (BrowserPool._instances p);
        [contradiction | simpl; lia]. }
    destruct (Z.ltb_spec
                (Z.of_nat (length (PoolFacts.every_other (BrowserPool._instances p))))
                (BrowserPool.pool_size p)); [reflexivity | lia].
  - apply Forall_forall. intros i Hi. rewrite Forall_forall in Hall.
    apply Hall, every_other_sublist, Hi.
Qed.

Lemma _get_instance_retires_every_other_witness :
  let old := fun b : nat => BrowserPool.MkInstance b 0 50 10 false in
  BrowserPool._get_instance
    (BrowserPool.MkPool 3 [old 0%nat; old 1%nat; old 2%nat] 3) 100 true
  = (BrowserPool.MkPool 3 [old 1%nat; BrowserPool.MkInstance 3 100 0 100 true] 4,
     BrowserPool.Got (BrowserPool.MkInstance 3 100 0 100 true)).
Proof.
  refine (proj1 (_get_instance_retires_every_other
                   (BrowserPool.MkPool 3
                      [BrowserPool.MkInstance 0 0 50 10 false;
                       BrowserPool.MkInstance 1 0 50 10 false;
                       BrowserPool.MkInstance 2 0 50 10 false] 3) 100 _ _ _ _)).
  - unfold BrowserPool.invariant, BrowserPool.busy_count,
      BrowserPool.active_count. simpl. lia.
  - discriminate.
  - apply NoDup_ListNoDup. repeat constructor; simpl; intuition discriminate.
  - repeat constructor.
Defined.

(** X15. As long as a handle is released only while its instance is held,
    which is how [acquire] uses [_release_instance], no instance of the pool
    ever counts more than 50 requests, whatever the history of acquires,
    releases and closes. *)
Theorem request_count_never_exceeds_maximum
    (p : BrowserPool.Pool) (ops : list BrowserPool.op) :
  PoolFacts.within_budget p ->
  PoolFacts.releases_held p ops ->
  PoolFacts.within_budget (BrowserPool.run p ops)
  /\ Forall (fun i => BrowserPool.request_count i
                      <= BrowserPool.MAX_REQUESTS_PER_BROWSER)
            (BrowserPool._instances (BrowserPool.run p ops)).
Proof.
  intros Hp Hops.
  assert (H : PoolFacts.within_budget (BrowserPool.run p ops)).
  { unfold BrowserPool.run. revert p Hp Hops.
    induction ops as [| o ops IH]; intros p Hp Hops; [exact Hp |].
    destruct Hops as [Ho Hops]. simpl. apply IH; [| exact Hops].
    apply step_within_budget; assumption. }
  split; [exact H |]. eapply Forall_impl; [exact H |]. intros i [Hi _]. exact Hi.
Qed.

Lemma request_count_never_exceeds_maximum_witness :
  Forall (fun i => BrowserPool.request_count i
                   <= BrowserPool.MAX_REQUESTS_PER_BROWSER)
    (BrowserPool._instances
       (BrowserPool.run
          (BrowserPool.MkPool 1 [BrowserPool.MkInstance 0 0 49 10 false] 1)
          [BrowserPool.Acquire 100 true; BrowserPool.Release 200 0;
           BrowserPool.Acquire 300 true; BrowserPool.Release 400 1])).
Proof.
  refine (proj2 (request_count_never_exceeds_maximum
                   (BrowserPool.MkPool 1 [BrowserPool.MkInstance 0 0 49 10 false] 1)
                   [BrowserPool.Acquire 100 true; BrowserPool.Release 200 0;
                    BrowserPool.Acquire 300 true; BrowserPool.Release 400 1] _ _)).
  - repeat constructor; simpl; unfold BrowserPool.MAX_REQUESTS_PER_BROWSER; lia.
  - simpl. repeat split; repeat constructor; simpl; congruence.
Defined.

(** ** The job rows a unit of work leaves alone *)

Section JobsFrame.
Import Db Tasks Frame.
Variables (own : option nat) (js0 : list Job.t).

Let kept : Session -> Prop := other_jobs_kept own js0.

Lemma keeps_ret {A : Type} (P : Session -> Prop) (a : A) : keeps P (ret a).
Proof. intros db db' r [= <- <-] H. exact H. Qed.

Lemma keeps_raise {A : Type} (P : Session -> Prop) (e : exn) :
  keeps P (@raise A e).
Proof. intros db db' r [= <- <-] H. exact H. Qed.

Lemma keeps_lift {A : Type} (P : Session -> Prop) (x : exn + A) :
  keeps P (lift x).
Proof. intros db db' r [= <- <-] H. exact H. Qed.

Lemma keeps_gets {A : Type} (P : Session -> Prop) (f : Session -> A) :
  keeps P (gets f).
Proof. intros db db' r [= <- <-] H. exact H. Qed.

Lemma keeps_bind {A B : Type} (P : Session -> Prop) (m : M A) (k : A -> M B) :
  keeps P m -> (forall a, keeps P (k a)) -> keeps P (bind m k).
Proof.
  intros Hm Hk db db' r H HP. unfold bind in H.
  destruct (m db) as [db1 [e | a]] eqn:E.
  - injection H as <- <-. eapply Hm; eassumption.
  - eapply Hk; [exact H |]. eapply Hm; eassumption.
Qed.

Lemma kept_flush : keeps kept flush.
Proof.
  intros db db' r H [Hcur Hcom]. unfold flush in H.
  destruct (inactive db); [injection H as <- <-; split; assumption |].
  destruct (constraints_ok (flushed db)); injection H as <- <-;
    split; assumption.
Qed.

Lemma kept_commit : keeps kept commit.
Proof.
  intros db db' r H HP. unfold commit in H.
  destruct (flush db) as [db1 [e | []]] eqn:E.
  - injection H as <- <-. eapply kept_flush; eassumption.
  - injection H as <- <-. destruct (kept_flush _ _ _ E HP) as [Hcur _].
    split; exact Hcur.
Qed.

Lemma kept_rollback : keeps kept rollback.
Proof. intros db db' r [= <- <-] [_ Hcom]. split; exact Hcom. Qed.

Lemma kept_close (db : Session) : kept db -> kept (close db).
Proof. intros [_ Hcom]. split; exact Hcom. Qed.

Lemma kept_update_job (pos : nat) (f : Job.t -> Job.t) :
  own = Some pos -> keeps kept (update_job pos f).
Proof.
  intros -> db db' r [= <- <-] [[Hlen Hcur] Hcom]. split; [| exact Hcom].
  split; simpl; [now rewrite length_alter |].
  intros i Hi. rewrite list_lookup_alter_ne by congruence. now apply Hcur.
Qed.

Lemma kept_update_series (pos : nat) (f : Series.t -> Series.t) :
  keeps kept (update_series pos f).
Proof. intros db db' r [= <- <-] H. exact H. Qed.

Lemma kept_update_chapter (pos : nat) (f : Chapter.t -> Chapter.t) :
  keeps kept (update_chapter pos f).
Proof. intros db db' r [= <- <-] H. exact H. Qed.

Lemma kept_update_image (pos : nat) (f : ChapterImage.t -> ChapterImage.t) :
  keeps kept (update_image pos f).
Proof. intros db db' r [= <- <-] H. exact H. Qed.

Lemma kept_add_series (s : Series.t) : keeps kept (add_series s).
Proof. intros db db' r [= <- <-] H. exact H. Qed.

Lemma kept_add_chapter (c : Chapter.t) : keeps kept (add_chapter c).
Proof. intros db db' r [= <- <-] H. exact H. Qed.

Lemma kept_add_image (m : ChapterImage.t) : keeps kept (add_image m).
Proof. intros db db' r [= <- <-] H. exact H. Qed.

Create HintDb kept.
#[local] Hint Resolve keeps_ret keeps_raise keeps_lift keeps_gets keeps_bind
  kept_flush kept_commit kept_rollback kept_update_series kept_update_chapter
  kept_update_image kept_add_series kept_add_chapter kept_add_image : kept.

Lemma kept_job_block (job : option nat) (f : Job.t -> Job.t) :
  job = own ->
  keeps kept (match job with
              | Some pos => bind (update_job pos f) (fun _ => commit)
              | None => ret tt
              end).
Proof.
  intros Hjob. destruct job as [pos |]; [| apply keeps_ret].
  apply keeps_bind; [now apply kept_update_job | intros _; apply kept_commit].
Qed.

Lemma kept_save_series (d : SeriesData.t) : keeps kept (save_series d).
Proof.
  intros db db' r. unfold save_series.
  destruct (scalar_one_or_none _) as [e | [[pos s] |]].
  - apply keeps_raise.
  - revert db db' r. change (keeps kept (bind (update_series pos (overwrite d))
                                           (fun _ => ret pos))).
    auto with kept.
  - intros H. revert H. generalize (length (series (current db))). intros n.
    revert db db' r.
    change (keeps kept (bind (add_series (new_series_of d))
                          (fun _ => bind flush (fun _ => ret n)))).
    auto 6 with kept.
Qed.

Lemma kept_save_chapters (series_id : Z) (chs : list ChapterData.t) :
  forall added, keeps kept (save_chapters series_id chs added).
Proof.
  induction chs as [| ch rest IH]; intros added db db' r; simpl.
  - apply keeps_ret.
  - destruct (scalar_one_or_none _) as [e | [found |]].
    + apply keeps_raise.
    + apply IH.
    + revert db db' r.
      change (keeps kept (bind (add_chapter (new_chapter_of series_id ch))
                            (fun _ => save_chapters series_id rest (added + 1)))).
      auto with kept.
Qed.

Lemma kept_save_images (chapter_id : Z) (images_data : list ImageData.t) :
  keeps kept (save_images chapter_id images_data).
Proof.
  induction images_data as [| d rest IH]; intros db db' r; simpl.
  - apply keeps_ret.
  - destruct (scalar_one_or_none _) as [e | [found |]].
    + apply keeps_raise.
    + apply IH.
    + revert db db' r.
      change (keeps kept (bind (add_image (new_image_of chapter_id d))
                            (fun _ => save_images chapter_id rest))).
      auto with kept.
Qed.

Lemma kept_download_each (env : Env) (series_id chapter_id : Z)
    (todo : list (nat * ChapterImage.t)) :
  forall downloaded,
    keeps kept (download_each env series_id chapter_id todo downloaded).
Proof.
  induction todo as [| [pos image] rest IH]; intros downloaded; simpl.
  - apply keeps_ret.
  - destruct (download_and_store env _ _ _ _); auto with kept.
Qed.

#[local] Hint Resolve kept_save_series kept_save_chapters kept_save_images
  kept_download_each : kept.

Lemma kept_merge_series (now : Z) (d : SeriesData.t) :
  keeps kept (merge_series now d).
Proof. unfold merge_series. auto 10 with kept. Qed.

Lemma kept_scrape_series_try (env : Env) (self : Request) (series_url : string) :
  keeps kept (scrape_series_try env self series_url own).
Proof.
  unfold scrape_series_try, start_job, complete_job.
  apply keeps_bind; [now apply kept_job_block |]. intros _.
  destruct (Registry.get_scraper_for_url _ _); [| apply keeps_raise].
  apply keeps_bind; [apply keeps_lift |]. intros d.
  apply keeps_bind; [apply kept_merge_series |]. intros [sid added].
  apply keeps_bind; [now apply kept_job_block | intros _; apply keeps_ret].
Qed.

Lemma kept_scrape_chapter_save (env : Env) (self : Request) (chapter_id : Z)
    (chapter : nat * Chapter.t) :
  keeps kept (scrape_chapter_save env self chapter_id chapter own).
Proof.
  unfold scrape_chapter_save, start_job.
  apply keeps_bind; [now apply kept_job_block |]. intros _.
  destruct (Registry.get_scraper_for_url _ _); [| apply keeps_raise].
  auto 10 with kept.
Qed.

Lemma kept_on_error (max_retries : Z) (tb : bool) (self : Request) (me : call)
    (exc : exn) (db : Session) (q : list message) :
  kept db -> kept (session (on_error max_retries tb self me own exc db q)).
Proof.
  intros HP. unfold on_error.
  destruct (match own with
            | Some pos => bind (update_job pos (set_failed exc tb)) (fun _ => commit)
            | None => ret tt
            end db) as [db1 [e | []]] eqn:E;
    pose proof (kept_job_block own (set_failed exc tb) eq_refl _ _ _ E HP) as H1.
  - apply kept_close, H1.
  - cbn [rollback]. destruct (retry max_retries self me exc q). simpl.
    apply kept_close. split; apply H1.
Qed.

End JobsFrame.

Lemma load_job_spec (job_id : option Z) (t : Db.Tables) (pos : nat) :
  Tasks.load_job job_id (Db.get_sync_db t) = Some pos ->
  exists j, Db.jobs t !! pos = Some j /\ job_id = Some (Job.id j).
Proof.
  unfold Tasks.load_job. destruct job_id as [jid |]; [| discriminate].
  destruct (jid =? 0); [discriminate |]. simpl.
  destruct (Db.get Job.id (Db.jobs t) jid) as [[p j] |] eqn:Hget; [| discriminate].
  simpl. intros [= <-]. apply get_spec in Hget as [Hj <-]. eauto.
Qed.

Lemma other_jobs_kept_start (own : option nat) (t : Db.Tables) :
  Frame.other_jobs_kept own (Db.jobs t) (Db.get_sync_db t).
Proof. repeat split. Qed.

(** What every execution of a queued call does to the job rows: all of them
    stay where they are, and only the row the call was given can change. *)
Lemma execute_other_jobs_kept (env : Tasks.Env) (task_id : string)
    (m : Tasks.message) (t : Db.Tables) :
  exists own : option nat,
    Frame.other_jobs_kept own (Db.jobs t)
      (Tasks.session (Tasks.execute env task_id m t))
    /\ forall pos, own = Some pos ->
         exists j, Db.jobs t !! pos = Some j
                   /\ Frame.job_of (Tasks.target m) = Some (Job.id j).
Proof.
  unfold Tasks.execute. destruct (Tasks.target m) as [url jid | cid jid | cid].
  - exists (Tasks.load_job jid (Db.get_sync_db t)). split.
    + unfold Tasks.scrape_series.
      destruct (Tasks.scrape_series_try _ _ _ _ _) as [db [e | r]] eqn:E;
        pose proof (kept_scrape_series_try _ (Db.jobs t) _ _ _ _ _ _ E
                      (other_jobs_kept_start _ t)) as H.
      * apply kept_on_error, H.
      * simpl. apply kept_close, H.
    + intros pos Hpos. apply load_job_spec in Hpos as (j & Hj & ->). eauto.
  - destruct (Db.get Chapter.id (Db.chapters t) cid) as [chapter |] eqn:Hch.
    + exists (Tasks.load_job jid (Db.get_sync_db t)). split.
      * unfold Tasks.scrape_chapter. simpl Db.current. rewrite Hch.
        destruct (Tasks.scrape_chapter_save _ _ _ _ _ _) as [db [e | n]] eqn:E;
          pose proof (kept_scrape_chapter_save _ (Db.jobs t) _ _ _ _ _ _ _ E
                        (other_jobs_kept_start _ t)) as H.
        -- apply kept_on_error, H.
        -- destruct (Tasks.complete_job _ _ _ db) as [db2 [e | []]] eqn:E2;
             unfold Tasks.complete_job in E2;
             pose proof (kept_job_block _ (Db.jobs t) _ _ eq_refl _ _ _ E2 H) as H2.
           ++ apply kept_on_error, H2.
           ++ simpl. apply kept_close, H2.
      * intros pos Hpos. apply load_job_spec in Hpos as (j & Hj & ->). eauto.
    + exists None. split; [| discriminate].
      unfold Tasks.scrape_chapter. simpl Db.current. rewrite Hch.
      apply (kept_on_error None), other_jobs_kept_start.
  - exists None. split; [| discriminate].
    unfold Tasks.download_images. simpl Db.current.
    destruct (Db.get Chapter.id (Db.chapters t) cid) as [chapter |].
    + destruct (Tasks.pending_images cid (Db.get_sync_db t)) as [| x rest].
      * simpl. apply kept_close, other_jobs_kept_start.
      * assert (Hk : forall todo,
                   Frame.keeps (Frame.other_jobs_kept None (Db.jobs t))
                     (Db.bind
                        (Tasks.download_each env (Chapter.series_id chapter.2)
                           cid todo 0)
                        (fun downloaded =>
                           Db.bind Db.commit (fun _ => Db.ret downloaded)))).
        { intros todo. apply keeps_bind; [apply kept_download_each |].
          intros a. apply keeps_bind; [apply kept_commit |].
          intros _. apply keeps_ret. }
        destruct (Db.bind _ _ (Db.get_sync_db t)) as [db [e | n]] eqn:E;
          pose proof (Hk _ _ _ _ E (other_jobs_kept_start None t)) as H.
        -- unfold Tasks.on_error_plain. cbn [Db.rollback].
           destruct (Tasks.retry _ _ _ _ _). simpl.
           apply kept_close. split; apply H.
        -- simpl. apply kept_close, H.
    + unfold Tasks.on_error_plain. cbn [Db.rollback].
      destruct (Tasks.retry _ _ _ _ _). simpl. repeat split.
Qed.

(** X16. Whatever a queued call does when it is executed, it deletes and
    adds no job row, and it changes no job row other than the one whose id it
    was given: every other job is found afterwards, committed, at its
    position and as it was.  [download_images] is given no job, so it leaves
    every job row as it is. *)
Theorem execute_changes_its_own_job_only (env : Tasks.Env) (task_id : string)
    (m : Tasks.message) (t : Db.Tables) :
  let t' := Db.committed (Tasks.session (Tasks.execute env task_id m t)) in
  length (Db.jobs t') = length (Db.jobs t)
  /\ forall (pos : nat) (j : Job.t),
       Db.jobs t !! pos = Some j ->
       Frame.job_of (Tasks.target m) <> Some (Job.id j) ->
       Db.jobs t' !! pos = Some j.
Proof.
  destruct (execute_other_jobs_kept env task_id m t) as (own & [_ [Hlen Hrows]] & Hown).
  split; [exact Hlen |]. intros pos j Hj Hother.
  rewrite Hrows; [exact Hj |]. intros Heq. symmetry in Heq.
  destruct (Hown pos Heq) as (j' & Hj' & Hid). congruence.
Qed.

(** ** Failed jobs and the cleanup *)

(** X17. A job that has never completed and whose [scrape_series] execution
    fails before the merge is left FAILED with no [completed_at]: the handler
    does not stamp it.  [cleanup_old_jobs] compares [completed_at] with its
    cutoff, so it keeps such a job however late it runs. *)
Theorem failed_job_is_never_cleaned_up (env : Tasks.Env) (self : Tasks.Request)
    (series_url : string) (job_id : option Z) (t : Db.Tables)
    (q : list Tasks.message) (exc : Db.exn) (pos : nat) (j : Job.t) :
  Db.constraints_ok t = true ->
  Tasks.early_error env series_url = Some exc ->
  Tasks.load_job job_id (Db.get_sync_db t) = Some pos ->
  Db.jobs t !! pos = Some j ->
  Job.completed_at j = None ->
  let t' := Db.committed
              (Tasks.session (Tasks.scrape_series env self series_url job_id t q)) in
  exists j' : Job.t,
    Db.jobs t' !! pos = Some j'
    /\ Job.id j' = Job.id j
    /\ Job.status j' = Job.FAILED
    /\ Job.completed_at j' = None
    /\ forall later : Z,
         In j' (Db.jobs (Db.committed
                           (Tasks.session (Tasks.cleanup_old_jobs later t')))).
Proof.
  intros Hok Hearly Hload Hj Hnone t'.
  destruct (scrape_series_early_error env self series_url job_id t q exc Hok Hearly)
    as (Hcommitted & _).
  rewrite Hload in Hcommitted. fold t' in Hcommitted.
  exists (Tasks.set_failed exc true
            (Tasks.set_running (Tasks.id self) (Tasks.now env) j)).
  assert (Hrow : Db.jobs t' !! pos
                 = Some (Tasks.set_failed exc true
                           (Tasks.set_running (Tasks.id self) (Tasks.now env) j))).
  { rewrite Hcommitted. simpl. rewrite list_lookup_alter_eq, Hj. reflexivity. }
  repeat split; [exact Hrow | exact Hnone |].
  intros later.
  destruct (cleanup_old_jobs_deletes later t') as (_ & -> & _).
  { rewrite Hcommitted.
    erewrite constraints_ok_rows; [exact Hok | reflexivity | reflexivity]. }
  apply List.filter_In. split.
  - apply list_elem_of_In. eapply list_elem_of_lookup_2. exact Hrow.
  - unfold Tasks.old_job. simpl. rewrite Hnone. reflexivity.
Qed.

Lemma failed_job_is_never_cleaned_up_witness :
  let env := Tasks.MkEnv Registry.urlparse_netloc
               (fun _ _ => inl (Db.AdapterError "timeout"))
               (fun _ _ => inl (Db.AdapterError "unused"))
               (fun _ _ _ _ => inl (Db.StorageError "unused")) 1000 in
  let j := Job.Make 1 None Job.SCRAPE_SERIES Job.PENDING None None None 0 3
             None None in
  let t := Db.MkTables [j] [] [] [] 1 1 1 in
  let t' := Db.committed
              (Tasks.session
                 (Tasks.scrape_series env (Tasks.MkRequest "task-1" 3)
                    "https://www.mgeko.cc/manga/solo/" (Some 1) t [])) in
  exists j' : Job.t,
    Db.jobs t' !! 0%nat = Some j'
    /\ Job.id j' = 1
    /\ Job.status j' = Job.FAILED
    /\ Job.completed_at j' = None
    /\ forall later : Z,
         In j' (Db.jobs (Db.committed
                           (Tasks.session (Tasks.cleanup_old_jobs later t')))).
Proof.
  refine (failed_job_is_never_cleaned_up
            (Tasks.MkEnv Registry.urlparse_netloc
               (fun _ _ => inl (Db.AdapterError "timeout"))
               (fun _ _ => inl (Db.AdapterError "unused"))
               (fun _ _ _ _ => inl (Db.StorageError "unused")) 1000)
            (Tasks.MkRequest "task-1" 3) "https://www.mgeko.cc/manga/solo/"
            (Some 1)
            (Db.MkTables
               [Job.Make 1 None Job.SCRAPE_SERIES Job.PENDING None None None 0 3
                  None None] [] [] [] 1 1 1)
            [] (Db.AdapterError "timeout") 0%nat
            (Job.Make 1 None Job.SCRAPE_SERIES Job.PENDING None None None 0 3
               None None) _ _ _ _ _).
  - reflexivity.
  - vm_compute. reflexivity.
  - reflexivity.
  - reflexivity.
  - reflexivity.
Defined.

Lemma filter_after_complement {A : Type} (P Q : A -> bool) (l : list A) :
  (forall x, P x = true -> Q x = true) ->
  List.filter P (List.filter (fun x => negb (Q x)) l) = [].
Proof.
  intros HPQ. induction l as [| x r IH]; simpl; [reflexivity |].
  destruct (Q x) eqn:HQ; simpl; [exact IH |].
  destruct (P x) eqn:HP; [| exact IH]. rewrite (HPQ x HP) in HQ. discriminate.
Qed.

Lemma filter_none_selected {A : Type} (P : A -> bool) (l : list A) :
  List.filter P l = [] -> List.filter (fun x => negb (P x)) l = l.
Proof.
  induction l as [| x r IH]; simpl; [reflexivity |].
  destruct (P x); simpl; [discriminate |]. intros H. f_equal. auto.
Qed.

Lemma old_job_earlier (earlier now : Z) (j : Job.t) :
  earlier <= now -> Tasks.old_job earlier j = true -> Tasks.old_job now j = true.
Proof.
  unfold Tasks.old_job. intros Hle H. apply andb_prop in H as [-> H]. simpl.
  destruct (Job.completed_at j) as [at_ |]; [| discriminate].
  apply Z.ltb_lt in H. apply Z.ltb_lt. lia.
Qed.

(** X18. [cleanup_old_jobs] keeps every job that is not COMPLETED or FAILED,
    every job without [completed_at] and every job completed less than seven
    days before; and once it has run, running it again at the same or an
    earlier instant deletes nothing. *)
Theorem cleanup_old_jobs_is_idempotent (now earlier : Z) (t : Db.Tables) :
  Db.constraints_ok t = true ->
  earlier <= now ->
  let t' := Db.committed (Tasks.session (Tasks.cleanup_old_jobs now t)) in
  (forall j : Job.t,
     In j (Db.jobs t) ->
     Job.status j <> Job.COMPLETED /\ Job.status j <> Job.FAILED
     \/ Job.completed_at j = None
     \/ (exists finished, Job.completed_at j = Some finished
                          /\ now - Tasks.seven_days <= finished) ->
     In j (Db.jobs t'))
  /\ Tasks.outcome (Tasks.cleanup_old_jobs earlier t') = inr (Tasks.Cleaned 0)
  /\ Db.jobs (Db.committed (Tasks.session (Tasks.cleanup_old_jobs earlier t')))
     = Db.jobs t'.
Proof.
  intros Hok Hle t'.
  destruct (cleanup_old_jobs_deletes now t Hok) as (_ & Hjobs & _).
  fold t' in Hjobs.
  assert (Hok' : Db.constraints_ok t' = true).
  { subst t'. unfold Tasks.cleanup_old_jobs, Db.bind, Db.delete_jobs. simpl.
    rewrite commit_clean; [| repeat split |
      simpl; erewrite constraints_ok_rows; [exact Hok | reflexivity | reflexivity]].
    simpl. erewrite constraints_ok_rows; [exact Hok | reflexivity | reflexivity]. }
  assert (Hnone : List.filter (Tasks.old_job (earlier - Tasks.seven_days))
                    (Db.jobs t') = []).
  { rewrite Hjobs. apply filter_after_complement. intros j.
    apply old_job_earlier. lia. }
  split; [| split].
  - intros j Hin Hkeep. rewrite Hjobs. apply List.filter_In. split; [exact Hin |].
    apply negb_true_iff. unfold Tasks.old_job.
    destruct Hkeep as [[H1 H2] | [-> | (finished & -> & Hrecent)]].
    + destruct (Job.status j); try reflexivity; contradiction.
    + apply andb_false_r.
    + apply andb_false_intro2. apply Z.ltb_ge. exact Hrecent.
  - destruct (cleanup_old_jobs_deletes earlier t' Hok') as (-> & _).
    rewrite Hnone. reflexivity.
  - destruct (cleanup_old_jobs_deletes earlier t' Hok') as (_ & -> & _).
    apply filter_none_selected, Hnone.
Qed.

Lemma cleanup_old_jobs_is_idempotent_witness :
  let job := fun (i : Z) (s : Job.JobStatus) (finished : option Z) =>
    Job.Make i None Job.SCRAPE_SERIES s None (Some 0) finished 0 3 None None in
  let t := Db.MkTables
             [job 1 Job.COMPLETED (Some 0); job 2 Job.RUNNING None;
              job 3 Job.FAILED None]
             [] [] [] 1 1 1 in
  let now := 8 * 86400 * 1000000 in
  Tasks.outcome
    (Tasks.cleanup_old_jobs now
       (Db.committed (Tasks.session (Tasks.cleanup_old_jobs now t))))
  = inr (Tasks.Cleaned 0).
Proof.
  refine (proj1 (proj2 (cleanup_old_jobs_is_idempotent (8 * 86400 * 1000000)
                          (8 * 86400 * 1000000)
                          (Db.MkTables
                             [Job.Make 1 None Job.SCRAPE_SERIES Job.COMPLETED None
                                (Some 0) (Some 0) 0 3 None None;
                              Job.Make 2 None Job.SCRAPE_SERIES Job.RUNNING None
                                (Some 0) None 0 3 None None;
                              Job.Make 3 None Job.SCRAPE_SERIES Job.FAILED None
                                (Some 0) None 0 3 None None]
                             [] [] [] 1 1 1) _ _))).
  - reflexivity.
  - lia.
Defined.

(** ** A slug that is taken *)

Section SlugTaken.
Import Db Tasks.

Lemma unique_on_clash {A K : Type} (same : K -> K -> bool) (key : A -> K)
    (rows : list A) (old new : A) :
  In old rows -> same (key old) (key old) = true ->
  same (key old) (key new) = true ->
  unique_on same key (rows ++ [new]) = false.
Proof.
  intros Hin Hrefl Hsame. unfold unique_on. apply not_true_is_false. intros H.
  rewrite forallb_forall in H. specialize (H (key old)).
  rewrite Nat.leb_le in H.
  assert (Hk : In (key old) (map key (rows ++ [new])))
    by (apply in_map, in_or_app; auto).
  specialize (H Hk). rewrite List.map_app, List.filter_app, length_app in H.
  simpl in H. rewrite Hsame in H. simpl in H.
  assert (Hone : (1 <= length (List.filter (same (key old)) (map key rows)))%nat).
  { assert (Hin' : In (key old) (List.filter (same (key old)) (map key rows)))
      by (apply List.filter_In; split; [apply in_map, Hin | exact Hrefl]).
    destruct (List.filter _ _); [destruct Hin' | simpl; lia]. }
  lia.
Qed.

(** The merge of a series that is new by its source and whose slug some
    row already has: the flush after [db.add(series)] fails on the unique
    slug, and the session is left inactive. *)
Lemma merge_series_slug_taken (now : Z) (d : SeriesData.t) (s : Series.t)
    (t : Tables) (events : list event) :
  where_ (matches_series d) (series t) = [] ->
  In s (series t) -> Series.slug s = SeriesData.slug d ->
  merge_series now d (MkSession t t [] [] [] false false events)
  = (MkSession t t [] [] [] true false events, inl IntegrityError).
Proof.
  intros Hnew Hin Hslug. unfold merge_series, bind at 1, save_series.
  cbn [current]. rewrite Hnew. cbn [scalar_one_or_none].
  unfold bind, add_series, flush. cbn [inactive flushed current new_series
    new_chapters new_images committed closed log number length].
  match goal with
  | |- context [constraints_ok ?x] => assert (Hbad : constraints_ok x = false)
  end.
  { unfold constraints_ok, flushed. simpl.
    rewrite (unique_on_clash String.eqb Series.slug (series t) s
               (series_with_id (series_seq t) (new_series_of d)) Hin
               (String.eqb_refl _)).
    - rewrite andb_false_r. reflexivity.
    - simpl. rewrite Hslug. apply String.eqb_refl. }
  rewrite Hbad. reflexivity.
Qed.

End SlugTaken.

(** X19. [scrape_series] for a series that is new by its source but whose
    slug another series already has: the flush fails on the unique slug and
    no series or chapter row is written.  Without a job the error is handed
    to the retry like any other.  With a job the handler's own commit runs in
    the session the failed flush left inactive and raises
    [PendingRollbackError]: no retry is queued and the job stays as the start
    of the task committed it, RUNNING. *)
Theorem scrape_series_slug_taken (env : Tasks.Env) (self : Tasks.Request)
    (series_url : string) (job_id : option Z) (t : Db.Tables)
    (q : list Tasks.message) (d : Tasks.SeriesData.t) (s : Series.t) :
  Db.constraints_ok t = true ->
  Tasks.adapter_output env series_url = Some d ->
  Db.where_ (Tasks.matches_series d) (Db.series t) = [] ->
  In s (Db.series t) ->
  Series.slug s = Tasks.SeriesData.slug d ->
  let r := Tasks.scrape_series env self series_url job_id t q in
  match Tasks.load_job job_id (Db.get_sync_db t) with
  | Some pos =>
      Tasks.outcome r = inl Db.PendingRollbackError
      /\ Tasks.queue r = q
      /\ Db.committed (Tasks.session r)
         = Db.with_jobs
             (alter (Tasks.set_running (Tasks.id self) (Tasks.now env)) pos
                (Db.jobs t)) t
  | None =>
      (Tasks.queue r, Tasks.outcome r)
      = (let '(q', raised) :=
           Tasks.retry 3 self (Tasks.ScrapeSeries series_url job_id)
             Db.IntegrityError q in
         (q', inl raised))
      /\ Db.committed (Tasks.session r) = t
  end.
Proof.
  intros Hok Hout Hnew Hin Hslug r. subst r.
  apply adapter_output_Some in Hout as (scraper & Hscraper & Hrun).
  unfold Tasks.scrape_series.
  set (job := Tasks.load_job job_id (Db.get_sync_db t)).
  assert (Htry : Tasks.scrape_series_try env self series_url job (Db.get_sync_db t)
                 = (match job with
                    | Some pos =>
                        let t1 := Db.with_jobs
                                    (alter (Tasks.set_running (Tasks.id self)
                                              (Tasks.now env)) pos (Db.jobs t)) t in
                        Db.MkSession t1 t1 [] [] [] true false [Db.Commit]
                    | None => Db.MkSession t t [] [] [] true false []
                    end, inl Db.IntegrityError)).
  { unfold Tasks.scrape_series_try, Tasks.start_job. destruct job as [pos |].
    - unfold Db.bind at 1.
      rewrite commit_job_update by (repeat split; assumption).
      cbn zeta. rewrite Hscraper. unfold Db.bind at 1, Tasks.lift. rewrite Hrun.
      unfold Db.bind at 1.
      rewrite (merge_series_slug_taken (Tasks.now env) d s) by assumption.
      reflexivity.
    - unfold Db.bind at 1, Db.ret.
      rewrite Hscraper. unfold Db.bind at 1, Tasks.lift. rewrite Hrun.
      unfold Db.bind at 1, Db.get_sync_db.
      rewrite (merge_series_slug_taken (Tasks.now env) d s) by assumption.
      reflexivity. }
  rewrite Htry. destruct job as [pos |].
  - unfold Tasks.on_error, Db.bind, Db.update_job, Db.commit, Db.flush. simpl.
    repeat split.
  - unfold Tasks.on_error, Db.ret. simpl.
    destruct (Tasks.retry 3 self _ Db.IntegrityError q). simpl.
    split; reflexivity.
Qed.

Lemma scrape_series_slug_taken_witness :
  let d := Tasks.SeriesData.Make "mgeko" "solo-leveling-2" "https://www.mgeko.cc/manga/solo-leveling-2/"
             "solo-leveling" "Solo Leveling" None None None "ongoing" None None
             None [] in
  let env := Tasks.MkEnv Registry.urlparse_netloc (fun _ _ => inr d)
               (fun _ _ => inl (Db.AdapterError "unused"))
               (fun _ _ _ _ => inl (Db.StorageError "unused")) 1000 in
  let old := Series.Make 1 "solo-leveling" "asura" "solo-leveling-9f"
               "https://asuracomic.net/series/solo-leveling-9f" "Solo Leveling"
               None None None "ongoing" None None None 0 None true None in
  let t := Db.MkTables
             [Job.Make 5 None Job.SCRAPE_SERIES Job.PENDING None None None 0 3
                None None] [old] [] [] 2 1 1 in
  let r := Tasks.scrape_series env (Tasks.MkRequest "task-1" 0)
             "https://www.mgeko.cc/manga/solo-leveling-2/" (Some 5) t [] in
  Tasks.outcome r = inl Db.PendingRollbackError
  /\ Tasks.queue r = []
  /\ (Job.status <$> head (Db.jobs (Db.committed (Tasks.session r))))
     = Some Job.RUNNING.
Proof.
  cbn zeta.
  pose proof (scrape_series_slug_taken
                (Tasks.MkEnv Registry.urlparse_netloc
                   (fun _ _ => inr (Tasks.SeriesData.Make "mgeko" "solo-leveling-2"
                                      "https://www.mgeko.cc/manga/solo-leveling-2/"
                                      "solo-leveling" "Solo Leveling" None None None
                                      "ongoing" None None None []))
                   (fun _ _ => inl (Db.AdapterError "unused"))
                   (fun _ _ _ _ => inl (Db.StorageError "unused")) 1000)
                (Tasks.MkRequest "task-1" 0)
                "https://www.mgeko.cc/manga/solo-leveling-2/" (Some 5)
                (Db.MkTables
                   [Job.Make 5 None Job.SCRAPE_SERIES Job.PENDING None None None
                      0 3 None None]
                   [Series.Make 1 "solo-leveling" "asura" "solo-leveling-9f"
                      "https://asuracomic.net/series/solo-leveling-9f"
                      "Solo Leveling" None None None "ongoing" None None None 0
                      None true None] [] [] 2 1 1)
                []
                (Tasks.SeriesData.Make "mgeko" "solo-leveling-2"
                   "https://www.mgeko.cc/manga/solo-leveling-2/"
                   "solo-leveling" "Solo Leveling" None None None "ongoing" None
                   None None [])
                (Series.Make 1 "solo-leveling" "asura" "solo-leveling-9f"
                   "https://asuracomic.net/series/solo-leveling-9f"
                   "Solo Leveling" None None None "ongoing" None None None 0 None
                   true None)
                eq_refl eq_refl eq_refl (or_introl eq_refl) eq_refl) as H.
  cbn zeta in H. destruct H as (H1 & H2 & H3).
  rewrite H1, H2, H3. repeat split.
Defined.

(** ** Image rows of a chapter scrape that fails *)

Section ImageRows.
Import Db Tasks.

(** Entries with no row yet are added one after the other; the queries of
    the loop do not see them. *)
Lemma save_images_new (chapter_id : Z) (pre rest : list ImageData.t) :
  forall db : Session,
    Forall (fun d => where_ (matches_image chapter_id d) (images (current db)) = [])
           pre ->
    save_images chapter_id (pre ++ rest) db
    = save_images chapter_id rest
        (MkSession (committed db) (current db) (new_series db) (new_chapters db)
           (new_images db ++ map (new_image_of chapter_id) pre)
           (inactive db) (closed db) (log db)).
Proof.
  induction pre as [| d pre IH]; intros db Hnew.
  - simpl. rewrite app_nil_r. now destruct db.
  - apply Forall_cons in Hnew as [Hd Hpre]. cbn [app save_images].
    rewrite Hd. cbn [scalar_one_or_none]. unfold bind, add_image.
    rewrite IH by exact Hpre. simpl. rewrite <- app_assoc. reflexivity.
Qed.

Lemma save_images_stops (chapter_id : Z) (d : ImageData.t)
    (post : list ImageData.t) (db : Session) (e : exn) :
  scalar_one_or_none (where_ (matches_image chapter_id d) (images (current db)))
  = inl e ->
  save_images chapter_id (d :: post) db = (db, inl e).
Proof. intros H. cbn [save_images]. rewrite H. reflexivity. Qed.

(** An entry that two rows match stops the loop, at that entry or before. *)
Lemma save_images_clash (chapter_id : Z) (d : ImageData.t)
    (images_data : list ImageData.t) :
  forall db : Session,
    In d images_data ->
    scalar_one_or_none (where_ (matches_image chapter_id d) (images (current db)))
    = inl MultipleResultsFound ->
    exists db' e, save_images chapter_id images_data db = (db', inl e).
Proof.
  induction images_data as [| x rest IH]; intros db Hin Hclash; [destruct Hin |].
  cbn [save_images].
  destruct (scalar_one_or_none
              (where_ (matches_image chapter_id x) (images (current db))))
    as [e | [found |]] eqn:Hx; [eauto | |].
  - destruct Hin as [-> | Hin]; [congruence |]. apply IH; assumption.
  - destruct Hin as [-> | Hin]; [congruence |].
    unfold bind, add_image. apply IH; assumption.
Qed.

Lemma two_rows_clash {A : Type} (test : A -> bool) (rows : list A)
    (i k : nat) (a b : A) :
  rows !! i = Some a -> rows !! k = Some b -> i <> k ->
  test a = true -> test b = true ->
  scalar_one_or_none (where_ test rows) = inl MultipleResultsFound.
Proof.
  intros Ha Hb Hne Hta Htb.
  assert (H1 : In (i, a) (where_ test rows)) by (apply where_spec; auto).
  assert (H2 : In (k, b) (where_ test rows)) by (apply where_spec; auto).
  destruct (where_ test rows) as [| x [| y l]]; [destruct H1 | | reflexivity].
  destruct H1 as [-> | []]. destruct H2 as [[= ? ?] | []]. contradiction.
Qed.

End ImageRows.

(** X20. A chapter scrape that fails in its image loop, on an entry that
    two rows of the chapter match, after entries with no row yet.  With a job
    attached, the handler's commit for the job record also stores the image
    rows added before the failure, while the chapter is not marked as
    scraped; without a job nothing of the execution is stored. *)
Theorem scrape_chapter_failure_stores_added_images
    (env : Tasks.Env) (self : Tasks.Request) (chapter_id : Z)
    (job_id : option Z) (t : Db.Tables) (q : list Tasks.message)
    (cpos : nat) (c : Chapter.t) (scraper : Registry.scraper)
    (pre post : list Tasks.ImageData.t) (d : Tasks.ImageData.t) :
  Db.constraints_ok t = true ->
  Db.get Chapter.id (Db.chapters t) chapter_id = Some (cpos, c) ->
  Registry.get_scraper_for_url (Tasks.netloc env) (Chapter.source_url c)
  = Some scraper ->
  Tasks.run_scrape_chapter env scraper (Chapter.source_url c)
  = inr (pre ++ d :: post) ->
  Forall (fun x => Db.where_ (Tasks.matches_image chapter_id x) (Db.images t) = [])
         pre ->
  Db.scalar_one_or_none
    (Db.where_ (Tasks.matches_image chapter_id d) (Db.images t))
  = inl Db.MultipleResultsFound ->
  let r := Tasks.scrape_chapter env self chapter_id job_id t q in
  (Tasks.queue r, Tasks.outcome r)
  = (let '(q', raised) :=
       Tasks.retry 3 self (Tasks.ScrapeChapter chapter_id job_id)
         Db.MultipleResultsFound q in
     (q', inl raised))
  /\ Db.chapters (Db.committed (Tasks.session r)) = Db.chapters t
  /\ Db.images (Db.committed (Tasks.session r))
     = match Tasks.load_job job_id (Db.get_sync_db t) with
       | Some _ =>
           Db.images t
           ++ Db.number Db.image_with_id (Db.images_seq t)
                (map (Tasks.new_image_of chapter_id) pre)
       | None => Db.images t
       end.
Proof.
  intros Hok Hget Hsc Hrun Hpre Hclash r. subst r.
  unfold Tasks.scrape_chapter. simpl Db.current. rewrite Hget.
  set (job := Tasks.load_job job_id (Db.get_sync_db t)).
  assert (Hsave : Tasks.scrape_chapter_save env self chapter_id (cpos, c) job
                    (Db.get_sync_db t)
                  = (match job with
                     | Some pos =>
                         let t1 := Db.with_jobs
                                     (alter (Tasks.set_running (Tasks.id self)
                                               (Tasks.now env)) pos (Db.jobs t)) t in
                         Db.MkSession t1 t1 [] []
                           (map (Tasks.new_image_of chapter_id) pre)
                           false false [Db.Commit]
                     | None =>
                         Db.MkSession t t [] []
                           (map (Tasks.new_image_of chapter_id) pre)
                           false false []
                     end, inl Db.MultipleResultsFound)).
  { unfold Tasks.scrape_chapter_save, Tasks.start_job. simpl fst. simpl snd.
    destruct job as [pos |].
    - unfold Db.bind at 1.
      rewrite commit_job_update by (repeat split; assumption).
      cbn zeta. rewrite Hsc. unfold Db.bind at 1, Tasks.lift. rewrite Hrun.
      unfold Db.bind at 1. rewrite save_images_new by exact Hpre.
      rewrite (save_images_stops chapter_id d post _ Db.MultipleResultsFound)
        by exact Hclash.
      reflexivity.
    - unfold Db.bind at 1, Db.ret. rewrite Hsc.
      unfold Db.bind at 1, Tasks.lift. rewrite Hrun.
      unfold Db.bind at 1. rewrite save_images_new by exact Hpre.
      rewrite (save_images_stops chapter_id d post _ Db.MultipleResultsFound)
        by exact Hclash.
      reflexivity. }
  rewrite Hsave. destruct job as [pos |].
  - unfold Tasks.on_error, Db.bind, Db.update_job, Db.commit, Db.flush.
    cbn [Db.inactive Db.set_current Db.current Db.committed Db.new_series
         Db.new_chapters Db.new_images Db.closed Db.log].
    match goal with
    | |- context [Db.constraints_ok ?x] =>
        assert (Hflushed : Db.constraints_ok x = true)
    end.
    { unfold Db.flushed. simpl.
      erewrite constraints_ok_rows; [exact Hok | |]; simpl; apply app_nil_r. }
    rewrite Hflushed. cbn [Db.rollback].
    destruct (Tasks.retry 3 self _ Db.MultipleResultsFound q). simpl.
    rewrite app_nil_r. auto.
  - unfold Tasks.on_error, Db.ret. simpl.
    destruct (Tasks.retry 3 self _ Db.MultipleResultsFound q). simpl. auto.
Qed.

Lemma scrape_chapter_failure_stores_added_images_witness :
  let env := Tasks.MkEnv Registry.urlparse_netloc
               (fun _ _ => inl (Db.AdapterError "unused"))
               (fun _ _ => inr [Tasks.ImageData.Make 2 "https://cdn/2.jpg";
                                Tasks.ImageData.Make 1 "https://cdn/1.jpg"])
               (fun _ _ _ _ => inl (Db.StorageError "unused")) 1000 in
  let page1 := fun i : Z =>
    ChapterImage.Make i 7 1 "https://cdn/1.jpg" None None None None false in
  let t := Db.MkTables
             [Job.Make 1 None Job.SCRAPE_CHAPTER Job.PENDING None None None 0 3
                None None]
             []
             [Chapter.Make 7 1 (5 # 1) "https://www.mgeko.cc/reader/solo-5/"
                None None false None 0]
             [page1 1; page1 2] 2 8 3 in
  let r := Tasks.scrape_chapter env (Tasks.MkRequest "task-1" 0) 7 (Some 1) t [] in
  map ChapterImage.page_number (Db.images (Db.committed (Tasks.session r)))
  = [1; 1; 2].
Proof.
  cbn zeta.
  pose proof (scrape_chapter_failure_stores_added_images
                (Tasks.MkEnv Registry.urlparse_netloc
                   (fun _ _ => inl (Db.AdapterError "unused"))
                   (fun _ _ => inr [Tasks.ImageData.Make 2 "https://cdn/2.jpg";
                                    Tasks.ImageData.Make 1 "https://cdn/1.jpg"])
                   (fun _ _ _ _ => inl (Db.StorageError "unused")) 1000)
                (Tasks.MkRequest "task-1" 0) 7 (Some 1)
                (Db.MkTables
                   [Job.Make 1 None Job.SCRAPE_CHAPTER Job.PENDING None None None
                      0 3 None None]
                   []
                   [Chapter.Make 7 1 (5 # 1) "https://www.mgeko.cc/reader/solo-5/"
                      None None false None 0]
                   [ChapterImage.Make 1 7 1 "https://cdn/1.jpg" None None None None
                      false;
                    ChapterImage.Make 2 7 1 "https://cdn/1.jpg" None None None None
                      false] 2 8 3)
                [] 0%nat
                (Chapter.Make 7 1 (5 # 1) "https://www.mgeko.cc/reader/solo-5/"
                   None None false None 0)
                (Registry.MkScraper Registry.MgekoScraper false)
                [Tasks.ImageData.Make 2 "https://cdn/2.jpg"] []
                (Tasks.ImageData.Make 1 "https://cdn/1.jpg")
                eq_refl eq_refl ltac:(vm_compute; reflexivity) eq_refl
                ltac:(repeat constructor) eq_refl) as H.
  cbn zeta in H. destruct H as (_ & _ & H). rewrite H. reflexivity.
Defined.

(** X21. Nothing forbids two image rows with the same chapter and page.
    Once a chapter has two such rows, every execution of [scrape_chapter]
    whose adapter lists that page again fails: the lookup of the page raises
    [MultipleResultsFound], so the task never returns and the chapter is never
    marked as scraped by it. *)
Theorem scrape_chapter_duplicate_rows_are_fatal
    (env : Tasks.Env) (self : Tasks.Request) (chapter_id : Z)
    (job_id : option Z) (t : Db.Tables) (q : list Tasks.message)
    (i k : nat) (m1 m2 : ChapterImage.t) (page : Z) :
  Db.images t !! i = Some m1 -> Db.images t !! k = Some m2 -> i <> k ->
  ChapterImage.chapter_id m1 = chapter_id ->
  ChapterImage.chapter_id m2 = chapter_id ->
  ChapterImage.page_number m1 = page -> ChapterImage.page_number m2 = page ->
  (forall scraper url images_data,
     Tasks.run_scrape_chapter env scraper url = inr images_data ->
     In page (map Tasks.ImageData.page_number images_data)) ->
  forall rv : Tasks.returned,
    Tasks.outcome (Tasks.scrape_chapter env self chapter_id job_id t q) <> inr rv.
Proof.
  intros H1 H2 Hne Hc1 Hc2 Hp1 Hp2 Hlisted rv.
  unfold Tasks.scrape_chapter. simpl Db.current.
  destruct (Db.get Chapter.id (Db.chapters t) chapter_id) as [chapter |];
    [| apply on_error_raises].
  destruct (Tasks.scrape_chapter_save _ _ _ _ _ _) as [db [e | n]] eqn:Hsave;
    [apply on_error_raises |].
  exfalso. unfold Tasks.scrape_chapter_save in Hsave.
  apply bind_inr in Hsave as (db1 & [] & Hstart & Hsave).
  assert (Himages : Db.images (Db.current db1) = Db.images t).
  { unfold Tasks.start_job in Hstart.
    destruct (job_block_inr _ _ _ _ (get_sync_db_clean t) Hstart)
      as (_ & _ & _ & -> & _). reflexivity. }
  destruct (Registry.get_scraper_for_url _ _) as [scraper |]; [| discriminate].
  apply bind_inr in Hsave as (db2 & images_data & Hlift & Hsave).
  unfold Tasks.lift in Hlift.
  destruct (Tasks.run_scrape_chapter env scraper _) as [e | data] eqn:Hrun;
    [discriminate |].
  injection Hlift as <- <-.
  apply bind_inr in Hsave as (db3 & [] & Himgs & _).
  specialize (Hlisted _ _ _ Hrun).
  apply in_map_iff in Hlisted as (d & Hd & Hin).
  destruct (save_images_clash chapter_id d data db1 Hin) as (db' & e & Hfail).
  - rewrite Himages.
    apply (two_rows_clash _ _ i k m1 m2 H1 H2 Hne);
      unfold Tasks.matches_image; rewrite ?Hc1, ?Hc2, ?Hp1, ?Hp2, Hd;
      rewrite !Z.eqb_refl; reflexivity.
  - congruence.
Qed.

Lemma scrape_chapter_duplicate_rows_are_fatal_witness :
  let env := Tasks.MkEnv Registry.urlparse_netloc
               (fun _ _ => inl (Db.AdapterError "unused"))
               (fun _ _ => inr [Tasks.ImageData.Make 1 "https://cdn/1.jpg"])
               (fun _ _ _ _ => inl (Db.StorageError "unused")) 1000 in
  let page1 := fun i : Z =>
    ChapterImage.Make i 7 1 "https://cdn/1.jpg" None None None None false in
  let t := Db.MkTables []
             []
             [Chapter.Make 7 1 (5 # 1) "https://www.mgeko.cc/reader/solo-5/"
                None None false None 0]
             [page1 1; page1 2] 2 8 3 in
  Tasks.outcome (Tasks.scrape_chapter env (Tasks.MkRequest "task-1" 0) 7 None t [])
  <> inr (Tasks.ChapterScraped 7 1).
Proof.
  cbn zeta.
  apply (scrape_chapter_duplicate_rows_are_fatal _ _ 7 None _ [] 0%nat 1%nat
           (ChapterImage.Make 1 7 1 "https://cdn/1.jpg" None None None None false)
           (ChapterImage.Make 2 7 1 "https://cdn/1.jpg" None None None None false)
           1); try reflexivity; try discriminate.
  intros scraper url images_data [= <-]. simpl. auto.
Defined.

(** ** Job records between the API, the queue and the units of work *)

Section JobRecords.
Import Db Tasks Api.

Lemma where_nil {A : Type} (test : A -> bool) (rows : list A) :
  Forall (fun r => test r = false) rows -> where_ test rows = [].
Proof.
  intros Hall. destruct (where_ test rows) as [| [i r] l] eqn:H; [reflexivity |].
  assert (Hin : In (i, r) (where_ test rows)) by (rewrite H; left; reflexivity).
  apply where_spec in Hin as [Hr Ht]. rewrite Forall_forall in Hall.
  rewrite (Hall r) in Ht by (eapply list_elem_of_lookup_2; eassumption).
  discriminate.
Qed.

Lemma where_snoc {A : Type} (test : A -> bool) (rows : list A) (r : A) :
  where_ test (rows ++ [r])
  = where_ test rows ++ (if test r then [(length rows, r)] else []).
Proof.
  unfold where_. rewrite imap_app, List.filter_app. f_equal.
  simpl. rewrite Nat.add_0_r. reflexivity.
Qed.

(** A row whose key is new is found where it was appended. *)
Lemma get_snoc_fresh {A : Type} (pk : A -> Z) (rows : list A) (r : A) :
  Forall (fun x => pk x <> pk r) rows ->
  get pk (rows ++ [r]) (pk r) = Some (length rows, r).
Proof.
  intros Hfresh. unfold get. rewrite where_snoc, Z.eqb_refl, where_nil;
    [reflexivity |].
  eapply Forall_impl; [exact Hfresh |]. intros x Hx. now apply Z.eqb_neq.
Qed.

(** Changing a row without changing its key leaves it where [get] finds it. *)
Lemma get_alter {A : Type} (pk : A -> Z) (f : A -> A) (rows : list A)
    (key : Z) (pos : nat) (r : A) :
  (forall x, pk (f x) = pk x) ->
  get pk rows key = Some (pos, r) ->
  get pk (alter f pos rows) key = Some (pos, f r).
Proof.
  intros Hpk Hget. pose proof (get_spec _ _ _ _ _ Hget) as [Hr _].
  assert (Hhead : forall l : list (nat * A), fst <$> head l = head (map fst l))
    by (intros [| [? ?] ?]; reflexivity).
  assert (Hfst : fst <$> get pk (alter f pos rows) key = fst <$> get pk rows key).
  { unfold get. rewrite !Hhead. unfold where_. f_equal.
    apply (where_alter_positions (fun x => pk x =? key) f rows).
    - intros x. now rewrite Hpk.
    - reflexivity.
    - reflexivity. }
  rewrite Hget in Hfst. simpl in Hfst.
  destruct (get pk (alter f pos rows) key) as [[p x] |] eqn:Hnew; [| discriminate].
  injection Hfst as ->. apply get_spec in Hnew as [Hx _].
  rewrite list_lookup_alter_eq, Hr in Hx. simpl in Hx. congruence.
Qed.

Lemma insert_job_spec (job_type : Job.JobType) (l : JobLinks) (s : Store) :
  well_formed s ->
  let s1 := (insert_job job_type l s).1 in
  (insert_job job_type l s).2 = jobs_seq s
  /\ get Job.id (jobs (tables s1)) (jobs_seq s)
     = Some (length (jobs (tables s)), new_job (jobs_seq s) job_type)
  /\ links s1 !! jobs_seq s = Some l
  /\ series (tables s1) = series (tables s)
  /\ chapters (tables s1) = chapters (tables s)
  /\ well_formed s1.
Proof.
  intros [Hpos Hids]. unfold insert_job. simpl.
  split; [reflexivity |]. split; [| split; [apply lookup_insert_eq |]].
  - apply (get_snoc_fresh Job.id (jobs (tables s)) (new_job (jobs_seq s) job_type)).
    eapply Forall_impl; [exact Hids |]. simpl. intros j Hj. lia.
  - split; [reflexivity |]. split; [reflexivity |]. split; simpl; [lia |].
    apply Forall_app. split.
    + eapply Forall_impl; [exact Hids |]. simpl. intros j Hj. lia.
    + apply Forall_singleton. simpl. lia.
Qed.

(** A job just created, the [scrape_series] call queued for it, and an
    execution of that call that fails before the merge: the job is left
    FAILED, with one retry counted, where it was inserted. *)
Lemma failed_after_insert (env : Env) (task_id url : string)
    (job_type : Job.JobType) (l : JobLinks) (s : Store) (exc : exn) :
  well_formed s -> constraints_ok (tables s) = true ->
  early_error env url = Some exc ->
  let s1 := (insert_job job_type l s).1 in
  let id := jobs_seq s in
  let run := execute env task_id (MkMessage (ScrapeSeries url (Some id)) 0)
               (tables s1) in
  let failed := set_failed exc true
                  (set_running task_id (now env) (new_job id job_type)) in
  get Job.id (jobs (committed (session run))) id
  = Some (length (jobs (tables s)), failed)
  /\ jobs (committed (session run)) = jobs (tables s) ++ [failed].
Proof.
  intros Hwf Hok Hearly s1 id run failed.
  destruct (insert_job_spec job_type l s Hwf) as (_ & Hget & _ & Hseries & Hchapters & _).
  fold s1 id in Hget.
  assert (Hok1 : constraints_ok (tables s1) = true)
    by (erewrite constraints_ok_rows; eassumption).
  assert (Hload : load_job (Some id) (get_sync_db (tables s1))
                  = Some (length (jobs (tables s)))).
  { change (load_job (Some id) (get_sync_db (tables s1)))
      with (if id =? 0 then None
            else fst <$> get Job.id (jobs (tables s1)) id).
    destruct Hwf as [Hpos _].
    destruct (Z.eqb_spec id 0); [subst id; lia |].
    rewrite Hget. reflexivity. }
  destruct (scrape_series_early_error env (MkRequest task_id 0) url (Some id)
              (tables s1) [] exc Hok1 Hearly) as (Hcommitted & _).
  rewrite Hload in Hcommitted.
  subst run. unfold execute. simpl target. cbv iota. simpl msg_retries.
  rewrite Hcommitted. cbn [jobs with_jobs]. split.
  - erewrite (get_alter Job.id _ (jobs (tables s1)) id); [reflexivity | | exact Hget].
    reflexivity.
  - subst s1. unfold insert_job. cbn [fst tables jobs with_jobs].
    apply list_eq. intros i.
    destruct (decide (i = length (jobs (tables s)))) as [-> | Hne].
    + rewrite list_lookup_alter_eq, !list_lookup_middle by reflexivity.
      reflexivity.
    + rewrite list_lookup_alter_ne by congruence.
      destruct (Nat.lt_ge_cases i (length (jobs (tables s)))).
      * rewrite !lookup_app_l by assumption. reflexivity.
      * rewrite !lookup_ge_None_2; [reflexivity | |];
          rewrite length_app; simpl; lia.
Qed.

End JobRecords.
(** X22. A series added through the API, its scrape failing before the
    merge, then [retry_job]: the job is found FAILED with one retry counted;
    [retry_job] answers "Job requeued", sets the job back to PENDING with its
    error fields cleared and its retry count kept, and queues the very call
    [add_series] had queued, read back from the job's [input_data]. *)
Theorem retry_job_requeues_added_series (env : Tasks.Env) (task_id url : string)
    (s : Api.Store) (job_id : Z) (exc : Db.exn) :
  Api.well_formed s ->
  Db.constraints_ok (Api.tables s) = true ->
  Api.result (Api.add_series (Tasks.netloc env) url s) = inr job_id ->
  url <> "" ->
  Tasks.early_error env url = Some exc ->
  let added := Api.add_series (Tasks.netloc env) url s in
  let call := Tasks.MkMessage (Tasks.ScrapeSeries url (Some job_id)) 0 in
  let run := Tasks.execute env task_id call (Api.tables (Api.store added)) in
  let s2 := Api.with_tables (Db.committed (Tasks.session run)) (Api.store added) in
  let failed := Tasks.set_failed exc true
                  (Tasks.set_running task_id (Tasks.now env)
                     (Api.new_job job_id Job.SCRAPE_SERIES)) in
  Api.queued added = [call]
  /\ Db.jobs (Api.tables s2) = Db.jobs (Api.tables s) ++ [failed]
  /\ Api.result (Api.retry_job job_id s2) = inr "Job requeued"
  /\ Api.queued (Api.retry_job job_id s2) = [call]
  /\ Db.jobs (Api.tables (Api.store (Api.retry_job job_id s2)))
     = Db.jobs (Api.tables s) ++ [Api.set_pending failed]
  /\ Job.retry_count (Api.set_pending failed) = 1.
Proof.
  intros Hwf Hok Hadded Hurl Hearly added call run s2 failed.
  assert (Hshape : added
                   = Api.MkAnswer
                       (Api.insert_job Job.SCRAPE_SERIES
                          (Api.MkLinks None None (Some {["url" := url]})) s).1
                       [Tasks.MkMessage (Tasks.ScrapeSeries url (Some (Api.jobs_seq s))) 0]
                       [] (inr (Api.jobs_seq s))).
  { subst added. unfold Api.add_series in *.
    destruct (Registry.get_scraper_for_url _ _); [| discriminate].
    destruct (Db.scalar_one_or_none _) as [e | [found |]]; try discriminate.
    reflexivity. }
  assert (Hid : job_id = Api.jobs_seq s).
  { fold added in Hadded. rewrite Hshape in Hadded. simpl in Hadded. congruence. }
  subst job_id.
  destruct (insert_job_spec Job.SCRAPE_SERIES
              (Api.MkLinks None None (Some {["url" := url]})) s Hwf)
    as (_ & _ & Hlinks & _).
  destruct (failed_after_insert env task_id url Job.SCRAPE_SERIES
              (Api.MkLinks None None (Some {["url" := url]})) s exc Hwf Hok Hearly)
    as [Hget Hjobs].
  assert (Hrun : run = Tasks.execute env task_id call
                         (Api.tables
                            (Api.insert_job Job.SCRAPE_SERIES
                               (Api.MkLinks None None (Some {["url" := url]})) s).1))
    by (subst run; rewrite Hshape; reflexivity).
  fold call in Hget, Hjobs. rewrite <- Hrun in Hget, Hjobs. fold failed in Hget, Hjobs.
  assert (Hretry : Api.retry_job (Api.jobs_seq s) s2
                   = Api.MkAnswer
                       (Api.with_tables
                          (Db.with_jobs
                             (alter Api.set_pending (length (Db.jobs (Api.tables s)))
                                (Db.jobs (Api.tables s2))) (Api.tables s2)) s2)
                       [call] [] (inr "Job requeued")).
  { unfold Api.retry_job. subst s2. cbn [Api.tables Api.with_tables].
    rewrite Hget. cbn [Api.with_tables Api.links Api.jobs_seq].
    rewrite Hshape. cbn [Api.store]. simpl Job.status. cbv iota.
    simpl Job.id. rewrite Hlinks. unfold Api.requeue. simpl Job.job_type. cbv iota.
    unfold Api.input_url. rewrite lookup_singleton_eq.
    destruct (String.eqb_spec url ""); [contradiction | reflexivity]. }
  split; [rewrite Hshape; reflexivity |]. split; [exact Hjobs |].
  rewrite Hretry. cbn [Api.result Api.queued Api.store Api.tables Api.with_tables
                       Db.jobs Db.with_jobs].
  repeat split.
  assert (Hs2 : Db.jobs (Api.tables s2) = Db.jobs (Api.tables s) ++ [failed])
    by exact Hjobs.
  rewrite Hs2. apply list_eq. intros i.
  destruct (decide (i = length (Db.jobs (Api.tables s)))) as [-> | Hne].
  - rewrite list_lookup_alter_eq, !list_lookup_middle by reflexivity. reflexivity.
  - rewrite list_lookup_alter_ne by congruence.
    destruct (Nat.lt_ge_cases i (length (Db.jobs (Api.tables s)))).
    + rewrite !lookup_app_l by assumption. reflexivity.
    + rewrite !lookup_ge_None_2; [reflexivity | |]; rewrite length_app; simpl; lia.
Qed.

Lemma retry_job_requeues_added_series_witness :
  let env := Tasks.MkEnv Registry.urlparse_netloc
               (fun _ _ => inl (Db.AdapterError "timeout"))
               (fun _ _ => inl (Db.AdapterError "unused"))
               (fun _ _ _ _ => inl (Db.StorageError "unused")) 1000 in
  let url := "https://www.mgeko.cc/manga/solo/" in
  let s := Api.MkStore (Db.MkTables [] [] [] [] 1 1 1) 1 ∅ in
  let added := Api.add_series Registry.urlparse_netloc url s in
  let call := Tasks.MkMessage (Tasks.ScrapeSeries url (Some 1)) 0 in
  let s2 := Api.with_tables
              (Db.committed
                 (Tasks.session
                    (Tasks.execute env "task-1" call (Api.tables (Api.store added)))))
              (Api.store added) in
  Api.queued (Api.retry_job 1 s2) = [call].
Proof.
  cbn zeta.
  refine (proj1 (proj2 (proj2 (proj2
            (retry_job_requeues_added_series
               (Tasks.MkEnv Registry.urlparse_netloc
                  (fun _ _ => inl (Db.AdapterError "timeout"))
                  (fun _ _ => inl (Db.AdapterError "unused"))
                  (fun _ _ _ _ => inl (Db.StorageError "unused")) 1000)
               "task-1" "https://www.mgeko.cc/manga/solo/"
               (Api.MkStore (Db.MkTables [] [] [] [] 1 1 1) 1 ∅) 1
               (Db.AdapterError "timeout") _ _ _ _ _))))).
  - split; [reflexivity | constructor].
  - reflexivity.
  - vm_compute. reflexivity.
  - discriminate.
  - vm_compute. reflexivity.
Defined.

(** X23. A job created by [refresh_series] has type CHECK_UPDATES and no
    chapter.  When its scrape fails and [retry_job] is called for it, the
    answer is "Job requeued" and the job goes back to PENDING, but the branch
    for CHECK_UPDATES looks for a chapter and finds none: nothing is queued. *)
Theorem retry_job_of_refresh_queues_nothing (env : Tasks.Env) (task_id : string)
    (series_id : Z) (pos : nat) (row : Series.t) (s : Api.Store) (exc : Db.exn) :
  Api.well_formed s ->
  Db.constraints_ok (Api.tables s) = true ->
  Db.get Series.id (Db.series (Api.tables s)) series_id = Some (pos, row) ->
  Tasks.early_error env (Series.source_url row) = Some exc ->
  let refreshed := Api.refresh_series series_id s in
  let job_id := Api.jobs_seq s in
  let call := Tasks.MkMessage
                (Tasks.ScrapeSeries (Series.source_url row) (Some job_id)) 0 in
  let run := Tasks.execute env task_id call (Api.tables (Api.store refreshed)) in
  let s2 := Api.with_tables (Db.committed (Tasks.session run)) (Api.store refreshed) in
  let failed := Tasks.set_failed exc true
                  (Tasks.set_running task_id (Tasks.now env)
                     (Api.new_job job_id Job.CHECK_UPDATES)) in
  Api.result refreshed = inr job_id
  /\ Api.queued refreshed = [call]
  /\ Db.jobs (Api.tables s2) = Db.jobs (Api.tables s) ++ [failed]
  /\ Api.result (Api.retry_job job_id s2) = inr "Job requeued"
  /\ Api.queued (Api.retry_job job_id s2) = []
  /\ Db.get Job.id (Db.jobs (Api.tables (Api.store (Api.retry_job job_id s2)))) job_id
     = Some (length (Db.jobs (Api.tables s)), Api.set_pending failed).
Proof.
  intros Hwf Hok Hrow Hearly refreshed job_id call run s2 failed.
  set (l := Api.MkLinks (Some series_id) None
              (Some {["url" := Series.source_url row]})).
  assert (Hshape : refreshed
                   = Api.MkAnswer (Api.insert_job Job.CHECK_UPDATES l s).1
                       [call] [] (inr job_id)).
  { subst refreshed. unfold Api.refresh_series. rewrite Hrow. reflexivity. }
  destruct (insert_job_spec Job.CHECK_UPDATES l s Hwf) as (_ & _ & Hlinks & _).
  destruct (failed_after_insert env task_id (Series.source_url row)
              Job.CHECK_UPDATES l s exc Hwf Hok Hearly) as [Hget Hjobs].
  assert (Hrun : run = Tasks.execute env task_id call
                         (Api.tables (Api.insert_job Job.CHECK_UPDATES l s).1))
    by (subst run; rewrite Hshape; reflexivity).
  subst job_id. fold call in Hget, Hjobs. rewrite <- Hrun in Hget, Hjobs.
  fold failed in Hget, Hjobs.
  assert (Hretry : Api.retry_job (Api.jobs_seq s) s2
                   = Api.MkAnswer
                       (Api.with_tables
                          (Db.with_jobs
                             (alter Api.set_pending (length (Db.jobs (Api.tables s)))
                                (Db.jobs (Api.tables s2))) (Api.tables s2)) s2)
                       [] [] (inr "Job requeued")).
  { unfold Api.retry_job. subst s2. cbn [Api.tables Api.with_tables].
    rewrite Hget. cbn [Api.with_tables Api.links Api.jobs_seq].
    rewrite Hshape. cbn [Api.store]. simpl Job.status. cbv iota.
    simpl Job.id. rewrite Hlinks. reflexivity. }
  rewrite Hshape. cbn [Api.result Api.queued]. repeat split; [exact Hjobs | | |];
    rewrite Hretry; cbn [Api.result Api.queued Api.store Api.tables Api.with_tables
                         Db.jobs Db.with_jobs]; try reflexivity.
  apply get_alter; [reflexivity |]. subst s2. exact Hget.
Qed.

Lemma retry_job_of_refresh_queues_nothing_witness :
  let env := Tasks.MkEnv Registry.urlparse_netloc
               (fun _ _ => inl (Db.AdapterError "timeout"))
               (fun _ _ => inl (Db.AdapterError "unused"))
               (fun _ _ _ _ => inl (Db.StorageError "unused")) 1000 in
  let row := Series.Make 4 "solo" "mgeko" "solo" "https://www.mgeko.cc/manga/solo/"
               "Solo" None None None "ongoing" None None None 0 None true None in
  let s := Api.MkStore (Db.MkTables [] [row] [] [] 5 1 1) 1 ∅ in
  let refreshed := Api.refresh_series 4 s in
  let call := Tasks.MkMessage
                (Tasks.ScrapeSeries "https://www.mgeko.cc/manga/solo/" (Some 1)) 0 in
  let s2 := Api.with_tables
              (Db.committed
                 (Tasks.session
                    (Tasks.execute env "task-1" call
                       (Api.tables (Api.store refreshed)))))
              (Api.store refreshed) in
  Api.result (Api.retry_job 1 s2) = inr "Job requeued"
  /\ Api.queued (Api.retry_job 1 s2) = [].
Proof.
  cbn zeta.
  pose proof (retry_job_of_refresh_queues_nothing
                (Tasks.MkEnv Registry.urlparse_netloc
                   (fun _ _ => inl (Db.AdapterError "timeout"))
                   (fun _ _ => inl (Db.AdapterError "unused"))
                   (fun _ _ _ _ => inl (Db.StorageError "unused")) 1000)
                "task-1" 4 0%nat
                (Series.Make 4 "solo" "mgeko" "solo"
                   "https://www.mgeko.cc/manga/solo/" "Solo" None None None
                   "ongoing" None None None 0 None true None)
                (Api.MkStore
                   (Db.MkTables []
                      [Series.Make 4 "solo" "mgeko" "solo"
                         "https://www.mgeko.cc/manga/solo/" "Solo" None None None
                         "ongoing" None None None 0 None true None] [] [] 5 1 1)
                   1 ∅)
                (Db.AdapterError "timeout")
                (conj eq_refl (Forall_nil_2 _)) eq_refl eq_refl
                ltac:(vm_compute; reflexivity)) as H.
  cbn zeta in H. destruct H as (_ & _ & _ & H1 & H2 & _). split; assumption.
Defined.

(** X24. [cancel_job] succeeds on a job that is not finished: it stamps
    [completed_at] and sets CANCELLED, revoking the Celery task when one is
    recorded.  From then on the job counts as finished, so a second
    [cancel_job] is refused with 409; and since [cleanup_old_jobs] selects
    COMPLETED and FAILED only, no later cleanup ever deletes it. *)
Theorem cancelled_job_is_never_cleaned_up (now job_id : Z) (s : Api.Store)
    (message : string) :
  Db.constraints_ok (Api.tables s) = true ->
  Api.result (Api.cancel_job now job_id s) = inr message ->
  let s' := Api.store (Api.cancel_job now job_id s) in
  exists (pos : nat) (job : Job.t),
    Db.get Job.id (Db.jobs (Api.tables s)) job_id = Some (pos, job)
    /\ Job.is_finished job = false
    /\ Db.get Job.id (Db.jobs (Api.tables s')) job_id
       = Some (pos, Api.set_cancelled now job)
    /\ Api.revoked (Api.cancel_job now job_id s)
       = match Job.celery_task_id job with
         | Some task_id => if String.eqb task_id "" then [] else [task_id]
         | None => []
         end
    /\ (forall later : Z,
          Api.result (Api.cancel_job later job_id s')
          = inl (Api.HTTPException 409 (Api.AlreadyFinished Job.CANCELLED)))
    /\ (forall later : Z,
          In (Api.set_cancelled now job)
             (Db.jobs (Db.committed
                         (Tasks.session
                            (Tasks.cleanup_old_jobs later (Api.tables s')))))).
Proof.
  intros Hok Hresult s'. subst s'. unfold Api.cancel_job in *.
  destruct (Db.get Job.id (Db.jobs (Api.tables s)) job_id) as [[pos job] |] eqn:Hget;
    [| discriminate].
  destruct (Job.is_finished job) eqn:Hfinished; [discriminate |].
  exists pos, job. cbn [Api.store Api.revoked Api.tables Api.with_tables
                        Db.jobs Db.with_jobs].
  assert (Hget' : Db.get Job.id
                    (alter (Api.set_cancelled now) pos (Db.jobs (Api.tables s)))
                    job_id
                  = Some (pos, Api.set_cancelled now job))
    by (apply get_alter; [reflexivity | exact Hget]).
  repeat split; try assumption.
  - intros later. rewrite Hget'. reflexivity.
  - intros later.
    destruct (cleanup_old_jobs_deletes later
                (Db.with_jobs
                   (alter (Api.set_cancelled now) pos (Db.jobs (Api.tables s)))
                   (Api.tables s))) as (_ & -> & _).
    { erewrite constraints_ok_rows; [exact Hok | reflexivity | reflexivity]. }
    apply List.filter_In. split; [| reflexivity].
    apply get_spec in Hget' as [Hrow _]. apply list_elem_of_In.
    eapply list_elem_of_lookup_2. exact Hrow.
Qed.

Lemma cancelled_job_is_never_cleaned_up_witness :
  let job := Job.Make 1 (Some "task-1") Job.SCRAPE_SERIES Job.RUNNING None
               (Some 10) None 0 3 None None in
  let s := Api.MkStore (Db.MkTables [job] [] [] [] 1 1 1) 2 ∅ in
  exists (pos : nat) (found : Job.t),
    Db.get Job.id (Db.jobs (Api.tables s)) 1 = Some (pos, found)
    /\ Job.is_finished found = false
    /\ Db.get Job.id (Db.jobs (Api.tables (Api.store (Api.cancel_job 20 1 s)))) 1
       = Some (pos, Api.set_cancelled 20 found)
    /\ Api.revoked (Api.cancel_job 20 1 s)
       = match Job.celery_task_id found with
         | Some task_id => if String.eqb task_id "" then [] else [task_id]
         | None => []
         end
    /\ (forall later : Z,
          Api.result (Api.cancel_job later 1 (Api.store (Api.cancel_job 20 1 s)))
          = inl (Api.HTTPException 409 (Api.AlreadyFinished Job.CANCELLED)))
    /\ (forall later : Z,
          In (Api.set_cancelled 20 found)
             (Db.jobs (Db.committed
                         (Tasks.session
                            (Tasks.cleanup_old_jobs later
                               (Api.tables (Api.store (Api.cancel_job 20 1 s)))))))).
Proof.
  apply (cancelled_job_is_never_cleaned_up 20 1
           (Api.MkStore
              (Db.MkTables
                 [Job.Make 1 (Some "task-1") Job.SCRAPE_SERIES Job.RUNNING None
                    (Some 10) None 0 3 None None] [] [] [] 1 1 1) 2 ∅)
           "Job cancelled"); reflexivity.
Defined.

(** X25. [download_chapter_images] creates a DOWNLOAD_IMAGES job and queues
    [download_images] for the chapter, without the job's id.  Executing the
    queued call leaves every job row as it is: the job the route answered
    with is still PENDING afterwards, whatever the download did. *)
Theorem download_job_is_never_updated (env : Tasks.Env) (task_id : string)
    (chapter_id job_id : Z) (s : Api.Store) :
  Api.well_formed s ->
  Api.result (Api.download_chapter_images chapter_id s) = inr job_id ->
  let answer := Api.download_chapter_images chapter_id s in
  let call := Tasks.MkMessage (Tasks.DownloadImages chapter_id) 0 in
  let run := Tasks.execute env task_id call (Api.tables (Api.store answer)) in
  Api.queued answer = [call]
  /\ Db.jobs (Db.committed (Tasks.session run))
     = Db.jobs (Api.tables (Api.store answer))
  /\ Db.get Job.id (Db.jobs (Db.committed (Tasks.session run))) job_id
     = Some (length (Db.jobs (Api.tables s)),
             Api.new_job job_id Job.DOWNLOAD_IMAGES).
Proof.
  intros Hwf Hresult answer call run.
  assert (Hshape : exists l,
             answer = Api.MkAnswer (Api.insert_job Job.DOWNLOAD_IMAGES l s).1
                        [call] [] (inr (Api.jobs_seq s))).
  { subst answer. unfold Api.download_chapter_images in *.
    destruct (Db.get Chapter.id _ chapter_id) as [[cpos chapter] |]; [| discriminate].
    destruct (negb (Chapter.is_scraped chapter)); [discriminate |]. eauto. }
  destruct Hshape as [l Hshape].
  assert (Hid : job_id = Api.jobs_seq s).
  { fold answer in Hresult. rewrite Hshape in Hresult. simpl in Hresult. congruence. }
  subst job_id.
  assert (Hjobs : Db.jobs (Db.committed (Tasks.session run))
                  = Db.jobs (Api.tables (Api.store answer))).
  { subst run.
    destruct (execute_other_jobs_kept env task_id call
                (Api.tables (Api.store answer))) as (own & [_ [Hlen Hrows]] & Hown).
    assert (Hnone : own = None).
    { destruct own as [pos |]; [| reflexivity].
      destruct (Hown pos eq_refl) as (j & _ & Hj). discriminate. }
    subst own. apply list_eq. intros i. apply Hrows. discriminate. }
  split; [rewrite Hshape; reflexivity |]. split; [exact Hjobs |].
  rewrite Hjobs, Hshape. cbn [Api.store].
  apply (insert_job_spec Job.DOWNLOAD_IMAGES l s Hwf).
Qed.

Lemma download_job_is_never_updated_witness :
  let env := Tasks.MkEnv Registry.urlparse_netloc
               (fun _ _ => inl (Db.AdapterError "unused"))
               (fun _ _ => inl (Db.AdapterError "unused"))
               (fun _ _ _ _ => inr (Tasks.Stored.Make "p" "u" 10 "image/webp")) 1000 in
  let s := Api.MkStore
             (Db.MkTables [] []
                [Chapter.Make 7 1 (5 # 1) "https://www.mgeko.cc/reader/solo-5/"
                   None None true (Some 5) 1]
                [ChapterImage.Make 1 7 1 "https://cdn/1.jpg" None None None None
                   false] 2 8 2) 1 ∅ in
  let answer := Api.download_chapter_images 7 s in
  Db.get Job.id
    (Db.jobs (Db.committed
                (Tasks.session
                   (Tasks.execute env "task-1"
                      (Tasks.MkMessage (Tasks.DownloadImages 7) 0)
                      (Api.tables (Api.store answer)))))) 1
  = Some (0%nat, Api.new_job 1 Job.DOWNLOAD_IMAGES).
Proof.
  cbn zeta.
  refine (proj2 (proj2 (download_job_is_never_updated
                          (Tasks.MkEnv Registry.urlparse_netloc
                             (fun _ _ => inl (Db.AdapterError "unused"))
                             (fun _ _ => inl (Db.AdapterError "unused"))
                             (fun _ _ _ _ =>
                                inr (Tasks.Stored.Make "p" "u" 10 "image/webp"))
                             1000)
                          "task-1" 7 1
                          (Api.MkStore
                             (Db.MkTables [] []
                                [Chapter.Make 7 1 (5 # 1)
                                   "https://www.mgeko.cc/reader/solo-5/"
                                   None None true (Some 5) 1]
                                [ChapterImage.Make 1 7 1 "https://cdn/1.jpg" None
                                   None None None false] 2 8 2) 1 ∅) _ _))).
  - split; [reflexivity | constructor].
  - reflexivity.
Defined.

(** ** The hourly check for updates *)

Section HourlyCheck.
Import Db Tasks Api Scheduler.

Lemma queue_updates_spec (rows : list Series.t) :
  forall (s : Store) (q : list message),
    let r := queue_updates rows s q in
    r.2 = q ++ with_ids (fun id row =>
                           MkMessage (ScrapeSeries (Series.source_url row) (Some id)) 0)
                 (jobs_seq s) rows
    /\ jobs (tables r.1)
       = jobs (tables s)
         ++ with_ids (fun id _ => new_job id Job.CHECK_UPDATES) (jobs_seq s) rows
    /\ series (tables r.1) = series (tables s)
    /\ jobs_seq r.1 = jobs_seq s + Z.of_nat (length rows).
Proof.
  induction rows as [| row rest IH]; intros s q; cbn zeta.
  - simpl. rewrite !app_nil_r. repeat split. lia.
  - cbn [queue_updates]. unfold insert_job. cbn beta iota zeta.
    match goal with
    | |- context [queue_updates rest ?s1 ?q1] =>
        destruct (IH s1 q1) as (Hq & Hjobs & Hseries & Hseq)
    end.
    cbn zeta in Hq, Hjobs, Hseries, Hseq. rewrite Hq, Hjobs, Hseries, Hseq.
    unfold delay. cbn [with_ids jobs_seq tables jobs with_jobs series length].
    rewrite <- !app_assoc. repeat split. lia.
Qed.

Lemma due_later (cutoff cutoff' : Z) (row : Series.t) :
  cutoff <= cutoff' -> due cutoff row = true -> due cutoff' row = true.
Proof.
  unfold due. intros Hle H. apply andb_true_iff in H as [-> H]. simpl.
  destruct (Series.last_checked_at row) as [checked_at |]; [| reflexivity].
  apply Z.ltb_lt in H. apply Z.ltb_lt. lia.
Qed.

Lemma series_list_In (now : Z) (s : Store) (row : Series.t) :
  In row (series_list now s)
  <-> In row (series (tables s)) /\ due (now - one_hour) row = true.
Proof.
  unfold series_list. cbn zeta. rewrite in_map_iff. split.
  - intros ([i r] & <- & Hin). apply where_spec in Hin as [Hr Hdue].
    split; [| exact Hdue]. apply list_elem_of_In.
    eapply list_elem_of_lookup_2. exact Hr.
  - intros [Hin Hdue]. apply list_elem_of_In, list_elem_of_lookup_1 in Hin as [i Hi].
    exists (i, row). split; [reflexivity |]. apply where_spec. auto.
Qed.

End HourlyCheck.

(** X26. [check_all_series_updates] creates one PENDING job of type
    CHECK_UPDATES for each active series not checked within the last hour,
    with the next ids of the sequence in the order of the rows, and queues
    [scrape_series(source_url, job.id)] for each; it answers with their
    number.  It changes no series row: a series it selected is selected
    again by a check at any later time, for as long as no scrape of it has
    been merged. *)
Theorem check_all_series_updates_queues_each_due_series (now : Z) (s : Api.Store) :
  let rows := Scheduler.series_list now s in
  let r := Scheduler.check_all_series_updates now s in
  r.2 = Z.of_nat (length rows)
  /\ r.1.2 = Scheduler.with_ids
               (fun id row =>
                  Tasks.MkMessage
                    (Tasks.ScrapeSeries (Series.source_url row) (Some id)) 0)
               (Api.jobs_seq s) rows
  /\ Db.jobs (Api.tables r.1.1)
     = Db.jobs (Api.tables s)
       ++ Scheduler.with_ids (fun id _ => Api.new_job id Job.CHECK_UPDATES)
            (Api.jobs_seq s) rows
  /\ Db.series (Api.tables r.1.1) = Db.series (Api.tables s)
  /\ forall (later : Z) (row : Series.t),
       now <= later -> In row rows -> In row (Scheduler.series_list later r.1.1).
Proof.
  intros rows r.
  destruct (queue_updates_spec rows s []) as (Hq & Hjobs & Hseries & _).
  cbn zeta in Hq, Hjobs, Hseries.
  assert (Hr : r = (Scheduler.queue_updates rows s [], Z.of_nat (length rows))).
  { subst r rows. unfold Scheduler.check_all_series_updates.
    destruct (Scheduler.queue_updates _ s []). reflexivity. }
  rewrite Hr. cbn [fst snd]. rewrite Hq, Hjobs, Hseries. repeat split.
  intros later row Hle Hin. subst rows.
  apply series_list_In in Hin as [Hin Hdue]. apply series_list_In.
  rewrite Hseries. split; [exact Hin |].
  apply (due_later (now - Scheduler.one_hour)); [lia | exact Hdue].
Qed.

(** ** A scraped series and the next check *)

Section LastChecked.
Import Db Tasks Api Scheduler.

(** A merge that goes through stamps the series row it merged into. *)
Lemma merge_series_checked (now : Z) (d : SeriesData.t) (db db' : Session)
    (sid added : Z) :
  clean db -> merge_series now d db = (db', inr (sid, added)) ->
  constraints_ok (current db') = true
  /\ exists (pos : nat) (s : Series.t),
       series (current db') !! pos = Some s
       /\ matches_series d s = true
       /\ Series.id s = sid
       /\ Series.last_checked_at s = Some now.
Proof.
  intros Hclean H. unfold merge_series in H.
  apply bind_inr in H as (db1 & pos & Hsave & H).
  apply (save_series_inr d db db1 pos Hclean) in Hsave
    as (Hclean1 & _ & _ & _ & _ & _ & s & Hs & Hm & _).
  apply bind_inr in H as (? & series_id & [= <- <-] & H).
  apply bind_inr in H as (db2 & added' & Hchs & H).
  apply save_chapters_inr in Hchs as (Hcur2 & Hns2 & _).
  apply bind_inr in H as (db3 & [] & Hupd & H).
  unfold update_series in Hupd. injection Hupd as <-.
  apply bind_inr in H as (db4 & [] & Hcommit & H).
  injection H as <- <- <-.
  apply commit_inr in Hcommit as [Hok ->].
  destruct Hclean1 as (Hns1 & _).
  cbn [current]. split; [exact Hok |].
  exists pos, (checked now d s). split.
  - unfold flushed. simpl. rewrite Hns2, Hns1, Hcur2. simpl. rewrite app_nil_r.
    rewrite list_lookup_alter_eq, Hs. reflexivity.
  - split; [exact Hm |]. split; [| reflexivity].
    unfold series_id_at. rewrite Hs. reflexivity.
Qed.

(** A [scrape_series] execution that returns leaves the row of the series
    it scraped stamped with the time of the merge. *)
Lemma scrape_series_checked (env : Env) (self : Request) (series_url : string)
    (job_id : option Z) (t : Tables) (q : list message)
    (d : SeriesData.t) (sid added : Z) :
  adapter_output env series_url = Some d ->
  let r := scrape_series env self series_url job_id t q in
  outcome r = inr (SeriesScraped sid added) ->
  constraints_ok (committed (session r)) = true
  /\ exists (pos : nat) (s : Series.t),
       series (committed (session r)) !! pos = Some s
       /\ matches_series d s = true
       /\ Series.id s = sid
       /\ Series.last_checked_at s = Some (now env).
Proof.
  intros Hout r. subst r. unfold scrape_series.
  destruct (scrape_series_try env self series_url _ _) as [dbe [exc | ret]] eqn:Etry.
  { intros H. apply on_error_raises in H. destruct H. }
  simpl. intros [= ->].
  apply adapter_output_Some in Hout as (scraper & Hsc & Hrun).
  unfold scrape_series_try in Etry.
  apply bind_inr in Etry as (dbs & [] & Hstart & Etry).
  unfold start_job in Hstart.
  apply job_block_inr in Hstart as (Hcleans & _); [| apply get_sync_db_clean].
  rewrite Hsc in Etry.
  apply bind_inr in Etry as (dbl & d' & Hlift & Etry).
  unfold lift in Hlift. rewrite Hrun in Hlift. injection Hlift as <- <-.
  apply bind_inr in Etry as (dbm & [sid' added'] & Hmerge & Etry).
  pose proof (merge_series_inr _ _ _ _ _ _ Hcleans Hmerge)
    as (_ & _ & Hcleanm & Hcm & _).
  apply (merge_series_checked _ _ _ _ _ _ Hcleans) in Hmerge
    as (Hok & pos & s & Hs & Hm & Hid & Hchecked).
  apply bind_inr in Etry as (dbe' & [] & Hcomplete & Hret).
  injection Hret as <- <- <-.
  unfold complete_job in Hcomplete.
  apply job_block_inr in Hcomplete as (_ & Hse & Hce & _ & _ & _ & _ & _ & Hjob);
    [| exact Hcleanm].
  assert (Hfinal : series (committed dbe') = series (current dbm)
                   /\ chapters (committed dbe') = chapters (current dbm)).
  { destruct (load_job job_id (get_sync_db t)).
    - destruct Hjob as [_ ->]. auto.
    - subst dbe'. rewrite Hcm. auto. }
  destruct Hfinal as [Hfs Hfc]. split.
  - erewrite constraints_ok_rows; [exact Hok | exact Hfs | exact Hfc].
  - exists pos, s. rewrite Hfs. auto.
Qed.

End LastChecked.

(** X27. A series whose [scrape_series] run returned is stamped with the
    time of that run, and [check_all_series_updates] leaves it out until
    more than an hour has passed since: a check that runs no later than one
    hour after the scrape selects no row of that source.  With the beat
    period of one hour, the check that follows the one which queued the
    scrape skips the series. *)
Theorem scraped_series_is_skipped_for_an_hour (env : Tasks.Env)
    (self : Tasks.Request) (series_url : string) (job_id : option Z)
    (t : Db.Tables) (q : list Tasks.message) (d : Tasks.SeriesData.t)
    (sid added : Z) (s : Api.Store) (later : Z) :
  Tasks.adapter_output env series_url = Some d ->
  Tasks.outcome (Tasks.scrape_series env self series_url job_id t q)
  = inr (Tasks.SeriesScraped sid added) ->
  Db.series (Api.tables s)
  = Db.series (Db.committed
                 (Tasks.session
                    (Tasks.scrape_series env self series_url job_id t q))) ->
  later <= Tasks.now env + Scheduler.one_hour ->
  (exists row, In row (Db.series (Api.tables s))
               /\ Tasks.matches_series d row = true
               /\ Series.id row = sid
               /\ Series.last_checked_at row = Some (Tasks.now env))
  /\ forall row, In row (Scheduler.series_list later s) ->
                 Tasks.matches_series d row = false.
Proof.
  intros Hout Hret Hseries Hlater.
  destruct (scrape_series_checked env self series_url job_id t q d sid added
              Hout Hret) as (Hok & pos & row & Hrow & Hm & Hid & Hchecked).
  rewrite <- Hseries in Hrow.
  apply constraints_ok_parts in Hok as (Hu & _ & _). rewrite <- Hseries in Hu.
  split.
  - exists row. split; [| auto].
    apply list_elem_of_In. eapply list_elem_of_lookup_2. exact Hrow.
  - intros row' Hin. apply series_list_In in Hin as [Hin Hdue].
    destruct (Tasks.matches_series d row') eqn:Hm'; [| reflexivity].
    apply list_elem_of_In, list_elem_of_lookup_1 in Hin as [i Hi].
    assert (Hwhere : Db.where_ (Tasks.matches_series d) (Db.series (Api.tables s))
                     = [(pos, row)]).
    { apply (unique_where Db.same_source Db.series_source _ _ pos row Hu Hrow);
        [| exact Hm].
      intros r'. unfold Tasks.matches_series in *.
      unfold Db.same_source, Db.series_source. simpl.
      apply andb_true_iff in Hm as [H1 H2].
      apply String.eqb_eq in H1, H2. rewrite H1, H2.
      rewrite (String.eqb_sym (Series.source_site r')),
              (String.eqb_sym (Series.source_id r')).
      reflexivity. }
    assert (Hi' : In (i, row') (Db.where_ (Tasks.matches_series d)
                                  (Db.series (Api.tables s))))
      by (apply where_spec; auto).
    rewrite Hwhere in Hi'. destruct Hi' as [[= <- <-] | []].
    unfold Scheduler.due in Hdue. rewrite Hchecked in Hdue.
    apply andb_true_iff in Hdue as [_ Hdue]. apply Z.ltb_lt in Hdue. lia.
Qed.

Lemma scraped_series_is_skipped_for_an_hour_witness :
  let url := "https://www.mgeko.cc/manga/solo/" in
  let d := Tasks.SeriesData.Make "mgeko" "solo" url "solo" "Solo" None None None
             "ongoing" None None None
             [Tasks.ChapterData.Make (1 # 1) "https://www.mgeko.cc/reader/solo/"
                None None] in
  let env := Tasks.MkEnv Registry.urlparse_netloc
               (fun _ _ => inr d)
               (fun _ _ => inl (Db.AdapterError "unused"))
               (fun _ _ _ _ => inl (Db.StorageError "unused")) 1000 in
  let self := Tasks.MkRequest "task-1" 0 in
  let t := Db.MkTables [] [] [] [] 1 1 1 in
  let r := Tasks.scrape_series env self url None t [] in
  let s := Api.MkStore (Db.committed (Tasks.session r)) 1 ∅ in
  (exists row, In row (Db.series (Api.tables s))
               /\ Tasks.matches_series d row = true
               /\ Series.id row = 1
               /\ Series.last_checked_at row = Some 1000)
  /\ forall row, In row (Scheduler.series_list (1000 + Scheduler.one_hour) s) ->
                 Tasks.matches_series d row = false.
Proof.
  intros url d env self t r s.
  apply (scraped_series_is_skipped_for_an_hour env self url None t [] d 1 1 s
           (1000 + Scheduler.one_hour)).
  - vm_compute. reflexivity.
  - vm_compute. reflexivity.
  - reflexivity.
  - apply Z.le_refl.
Defined.

(** ** Image lists of the scrapers *)

Section ChapterImages.
Import Tasks Html.

Variables (image_url : Img -> option string) (skip_words : list string)
          (absolute : string -> string).

Let url_of : Img -> option string := taken image_url skip_words absolute.

Lemma consecutive_snoc (images : list ImageData.t) (u : string) :
  consecutive images ->
  consecutive (images ++ [ImageData.Make (Z.of_nat (length images) + 1) u]).
Proof.
  unfold consecutive. intros H.
  rewrite map_app, length_app, seq_app, map_app, H. reflexivity.
Qed.

Lemma unique_images_spec (img_elems : list Img) :
  forall (seen_urls : gset string) (images : list ImageData.t),
    consecutive images ->
    NoDup (map ImageData.source_url images) ->
    (forall u, u ∈ seen_urls <-> In u (map ImageData.source_url images)) ->
    let result := unique_images image_url skip_words absolute img_elems
                    seen_urls images in
    consecutive result
    /\ NoDup (map ImageData.source_url result)
    /\ (forall u, In u (map ImageData.source_url result)
                  <-> In u (map ImageData.source_url images)
                      \/ exists img, In img img_elems /\ url_of img = Some u).
Proof.
  induction img_elems as [| img rest IH]; intros seen_urls images Hc Hn Hs.
  - simpl. split; [exact Hc |]. split; [exact Hn |].
    intros u. split; [auto |]. intros [H | (img & [] & _)]. exact H.
  - assert (Hskip : url_of img = None ->
              let result := unique_images image_url skip_words absolute rest
                              seen_urls images in
              consecutive result
              /\ NoDup (map ImageData.source_url result)
              /\ (forall u, In u (map ImageData.source_url result)
                            <-> In u (map ImageData.source_url images)
                                \/ exists img', In img' (img :: rest)
                                                /\ url_of img' = Some u)).
    { intros Hnone. destruct (IH seen_urls images Hc Hn Hs) as (H1 & H2 & H3).
      split; [exact H1 |]. split; [exact H2 |]. intros u. rewrite H3.
      split; (intros [H | (img' & Hin & Hu)]; [left; exact H | right]).
      - exists img'. split; [right; exact Hin | exact Hu].
      - destruct Hin as [<- | Hin]; [congruence |]. exists img'. auto. }
    cbn [unique_images]. cbn zeta. unfold url_of, taken in Hskip.
    destruct (image_url img) as [img_url |] eqn:Hurl; [| apply Hskip; reflexivity].
    destruct (truthy (Some img_url)) eqn:Htruthy; cbn [negb];
      [| apply Hskip; reflexivity].
    destruct (any_skip skip_words img_url) eqn:Hany; [apply Hskip; reflexivity |].
    clear Hskip.
    assert (Hof : url_of img = Some (absolute (Scraper.strip img_url)))
      by (unfold url_of, taken; rewrite Hurl, Htruthy, Hany; reflexivity).
    set (u0 := absolute (Scraper.strip img_url)) in *.
    destruct (bool_decide (u0 ∈ seen_urls)) eqn:Hseen.
    + apply bool_decide_eq_true in Hseen. apply Hs in Hseen.
      destruct (IH seen_urls images Hc Hn Hs) as (H1 & H2 & H3).
      split; [exact H1 |]. split; [exact H2 |]. intros u. rewrite H3.
      split; (intros [H | (img' & Hin & Hu)]; [left; exact H |]).
      * right. exists img'. split; [right; exact Hin | exact Hu].
      * destruct Hin as [<- | Hin]; [left; congruence | right; eauto].
    + apply bool_decide_eq_false in Hseen.
      assert (Hnew : ~ In u0 (map ImageData.source_url images))
        by (intros H; apply Hseen, Hs, H).
      destruct (IH ({[u0]} ∪ seen_urls)
                  (images ++ [ImageData.Make (Z.of_nat (length images) + 1) u0]))
        as (H1 & H2 & H3).
      * apply consecutive_snoc, Hc.
      * rewrite map_app. simpl. apply NoDup_app.
        split; [exact Hn |].
        split; [| apply NoDup_singleton].
        intros x Hx Hx'. apply list_elem_of_In in Hx.
        apply list_elem_of_singleton in Hx'. subst x. contradiction.
      * intros u. rewrite map_app, in_app_iff, elem_of_union, elem_of_singleton, Hs.
        simpl. intuition.
      * split; [exact H1 |]. split; [exact H2 |]. intros u. rewrite H3.
        rewrite map_app, in_app_iff. simpl. split.
        -- intros [[H | [<- | []]] | (img' & Hin & Hu)]; [left; exact H | |];
             right; [exists img | exists img']; auto with datatypes.
        -- intros [H | (img' & [<- | Hin] & Hu)]; [auto | | right; eauto].
           left. right. left. congruence.
Qed.

End ChapterImages.

(** X28. The image lists of [AsuraScraper.scrape_chapter] and
    [ManhwatopScraper.scrape_chapter] are numbered 1, 2, ... without a gap
    and hold no URL twice; the URLs are exactly the absolute forms of the
    stripped URLs of the selected elements that have one and contain none
    of the skipped words. *)
Theorem scrape_chapter_pages_consecutive_and_unique
    (urljoin : string -> string -> string) (soup : string -> list Html.Img) :
  let asura := Asura.scrape_chapter urljoin soup in
  let manhwatop := Manhwatop.scrape_chapter urljoin soup in
  (Html.consecutive asura
   /\ NoDup (map Tasks.ImageData.source_url asura)
   /\ forall u, In u (map Tasks.ImageData.source_url asura)
                <-> exists img,
                      In img (Html.first_selected soup Asura.img_selectors [])
                      /\ Html.taken Asura.image_url Asura.skip_words
                           (Html.absolute_url urljoin Registry.AsuraScraper) img
                         = Some u)
  /\ (Html.consecutive manhwatop
      /\ NoDup (map Tasks.ImageData.source_url manhwatop)
      /\ forall u, In u (map Tasks.ImageData.source_url manhwatop)
                   <-> exists img,
                         In img (Html.first_selected soup Manhwatop.img_selectors [])
                         /\ Html.taken Manhwatop.image_url Manhwatop.skip_words
                              (Html.absolute_url urljoin Registry.ManhwatopScraper)
                              img
                            = Some u).
Proof.
  intros asura manhwatop. split.
  - destruct (unique_images_spec Asura.image_url Asura.skip_words
                (Html.absolute_url urljoin Registry.AsuraScraper)
                (Html.first_selected soup Asura.img_selectors []) ∅ [])
      as (H1 & H2 & H3);
      [reflexivity | constructor | intros u; simpl; set_solver |].
    split; [exact H1 |]. split; [exact H2 |]. intros u.
    unfold asura, Asura.scrape_chapter. rewrite H3. simpl. tauto.
  - destruct (unique_images_spec Manhwatop.image_url Manhwatop.skip_words
                (Html.absolute_url urljoin Registry.ManhwatopScraper)
                (Html.first_selected soup Manhwatop.img_selectors []) ∅ [])
      as (H1 & H2 & H3);
      [reflexivity | constructor | intros u; simpl; set_solver |].
    split; [exact H1 |]. split; [exact H2 |]. intros u.
    unfold manhwatop, Manhwatop.scrape_chapter. rewrite H3. simpl. tauto.
Qed.

Section Positions.
Import Tasks Html Mgeko.

Variable absolute : string -> string.

Lemma enumerated_images_cons (idx : Z) (img : Img) (rest : list Img) :
  enumerated_images absolute idx (img :: rest)
  = match kept absolute img with
    | Some u => ImageData.Make idx u :: enumerated_images absolute (idx + 1) rest
    | None => enumerated_images absolute (idx + 1) rest
    end.
Proof.
  cbn [enumerated_images]. cbn zeta. unfold kept.
  destruct (image_url img) as [img_url |]; [| reflexivity].
  destruct (truthy (Some img_url)); [| reflexivity]. cbn [negb andb].
  destruct (is_placeholder img_url); reflexivity.
Qed.

Lemma enumerated_images_app (a b : list Img) :
  forall idx : Z,
    enumerated_images absolute idx (a ++ b)
    = enumerated_images absolute idx a
      ++ enumerated_images absolute (idx + Z.of_nat (length a)) b.
Proof.
  induction a as [| img a IH]; intros idx.
  - simpl. rewrite Z.add_0_r. reflexivity.
  - change ((img :: a) ++ b) with (img :: (a ++ b)).
    rewrite !enumerated_images_cons, IH.
    replace (idx + 1 + Z.of_nat (length a))
      with (idx + Z.of_nat (length (img :: a))) by (simpl length; lia).
    destruct (kept absolute img); reflexivity.
Qed.

Lemma enumerated_images_length (img_elems : list Img) :
  forall idx : Z,
    (length (enumerated_images absolute idx img_elems) <= length img_elems)%nat.
Proof.
  induction img_elems as [| img rest IH]; intros idx; [simpl; lia |].
  rewrite enumerated_images_cons. specialize (IH (idx + 1)).
  destruct (kept absolute img); simpl; lia.
Qed.

(** The entry at place [k] stands for an element at place [k] or later. *)
Lemma enumerated_images_lookup (img_elems : list Img) :
  forall (idx : Z) (k : nat) (e : ImageData.t),
    enumerated_images absolute idx img_elems !! k = Some e ->
    idx + Z.of_nat k <= ImageData.page_number e.
Proof.
  induction img_elems as [| img rest IH]; intros idx k e; [discriminate |].
  rewrite enumerated_images_cons. destruct (kept absolute img) as [u |].
  - destruct k as [| k]; simpl.
    + intros [= <-]. simpl. lia.
    + intros H. apply IH in H. lia.
  - intros H. apply IH in H. lia.
Qed.

Lemma enumerated_images_In (img_elems : list Img) :
  forall (idx : Z) (e : ImageData.t),
    In e (enumerated_images absolute idx img_elems)
    <-> exists (i : nat) (img : Img),
          img_elems !! i = Some img
          /\ kept absolute img = Some (ImageData.source_url e)
          /\ ImageData.page_number e = idx + Z.of_nat i.
Proof.
  induction img_elems as [| img rest IH]; intros idx e.
  - simpl. split; [intros [] | intros (i & img & H & _); discriminate].
  - rewrite enumerated_images_cons. split.
    + intros H.
      assert (Hrest : In e (enumerated_images absolute (idx + 1) rest) ->
                exists (i : nat) (img' : Img),
                  (img :: rest) !! i = Some img'
                  /\ kept absolute img' = Some (ImageData.source_url e)
                  /\ ImageData.page_number e = idx + Z.of_nat i).
      { intros Hin. apply IH in Hin as (i & img' & Hi & Hk & Hp).
        exists (S i), img'. split; [exact Hi |]. split; [exact Hk | lia]. }
      destruct (kept absolute img) as [u |] eqn:Hkept; [| auto].
      destruct H as [<- | H]; [| auto].
      exists 0%nat, img. simpl. split; [reflexivity |]. split; [exact Hkept | lia].
    + intros (i & img' & Hi & Hk & Hp). destruct i as [| i].
      * injection Hi as <-. rewrite Hk. left. destruct e. simpl in *.
        f_equal. lia.
      * assert (Hin : In e (enumerated_images absolute (idx + 1) rest)).
        { apply IH. exists i, img'. split; [exact Hi |]. split; [exact Hk | lia]. }
        destruct (kept absolute img); [right |]; exact Hin.
Qed.

Lemma enumerated_images_sorted (img_elems : list Img) :
  forall idx : Z,
    StronglySorted
      (fun a b => ImageData.page_number a < ImageData.page_number b)
      (enumerated_images absolute idx img_elems).
Proof.
  induction img_elems as [| img rest IH]; intros idx; [constructor |].
  rewrite enumerated_images_cons. destruct (kept absolute img) as [u |]; [| apply IH].
  constructor; [apply IH |]. apply List.Forall_forall. intros e He.
  apply enumerated_images_In in He as (i & _ & _ & _ & Hp). simpl. lia.
Qed.

(** A skipped element before a kept one leaves a page number above the
    number of images. *)
Lemma enumerated_images_gap (img_elems : list Img) (i j : nat)
    (skipped img : Img) :
  (i < j)%nat ->
  img_elems !! i = Some skipped -> kept absolute skipped = None ->
  img_elems !! j = Some img -> kept absolute img <> None ->
  exists e, In e (enumerated_images absolute 1 img_elems)
            /\ Z.of_nat (length (enumerated_images absolute 1 img_elems))
               < ImageData.page_number e.
Proof.
  intros Hij Hi Hskipped Hj Hkept.
  pose proof (take_drop_middle img_elems i skipped Hi) as Hsplit.
  assert (Hlen : length (take i img_elems) = i).
  { apply length_take_le. apply lookup_lt_Some in Hi. lia. }
  set (a := take i img_elems) in *. set (b := drop (S i) img_elems) in *.
  assert (Hb : b !! (j - S i)%nat = Some img).
  { rewrite <- Hsplit in Hj. rewrite lookup_app_r in Hj by lia.
    rewrite Hlen in Hj. destruct (j - i)%nat as [| n] eqn:Hn; [lia |].
    simpl in Hj. replace (j - S i)%nat with n by lia. exact Hj. }
  assert (Hresult : enumerated_images absolute 1 img_elems
                    = enumerated_images absolute 1 a
                      ++ enumerated_images absolute (Z.of_nat i + 2) b).
  { rewrite <- Hsplit at 1. rewrite enumerated_images_app, Hlen.
    rewrite enumerated_images_cons, Hskipped. do 2 f_equal. lia. }
  destruct (kept absolute img) as [u |] eqn:Hu; [| contradiction].
  assert (Hin : In (ImageData.Make (Z.of_nat i + 2 + Z.of_nat (j - S i)) u)
                  (enumerated_images absolute (Z.of_nat i + 2) b)).
  { apply enumerated_images_In. exists (j - S i)%nat, img. auto. }
  destruct (enumerated_images absolute (Z.of_nat i + 2) b) as [| e0 tail] eqn:Htail
    using rev_ind; [destruct Hin |].
  exists e0. rewrite Hresult. split.
  - apply in_or_app. right. apply in_or_app. right. left. reflexivity.
  - assert (He0 : (tail ++ [e0]) !! length tail = Some e0)
      by (apply list_lookup_middle; reflexivity).
    rewrite <- Htail in He0. apply enumerated_images_lookup in He0.
    pose proof (enumerated_images_length a 1) as Ha. rewrite Hlen in Ha.
    rewrite !length_app. simpl. lia.
Qed.

End Positions.

(** X29. [MgekoScraper.scrape_chapter] numbers a page by the place of its
    element among the selected ones, skipped elements included: an entry
    of the list is an element at place [i] that has a URL which is no
    placeholder, with page number [i + 1]; the page numbers increase
    strictly; and when a skipped element comes before a kept one, the list
    holds a page number above its own length, the number [scrape_chapter]
    of the worker stores as [total_images]. *)
Theorem mgeko_page_numbers_are_positions
    (urljoin : string -> string -> string) (soup : string -> list Html.Img) :
  let absolute := Html.absolute_url urljoin Registry.MgekoScraper in
  let img_elems := Html.first_selected soup Mgeko.img_selectors [] in
  let images := Mgeko.scrape_chapter urljoin soup in
  (forall e, In e images
             <-> exists (i : nat) (img : Html.Img),
                   img_elems !! i = Some img
                   /\ Mgeko.kept absolute img = Some (Tasks.ImageData.source_url e)
                   /\ Tasks.ImageData.page_number e = Z.of_nat i + 1)
  /\ StronglySorted
       (fun a b => Tasks.ImageData.page_number a < Tasks.ImageData.page_number b)
       images
  /\ forall (i j : nat) (skipped img : Html.Img),
       (i < j)%nat ->
       img_elems !! i = Some skipped -> Mgeko.kept absolute skipped = None ->
       img_elems !! j = Some img -> Mgeko.kept absolute img <> None ->
       exists e, In e images
                 /\ Z.of_nat (length images) < Tasks.ImageData.page_number e.
Proof.
  intros absolute img_elems images. split; [| split].
  - intros e. unfold images, Mgeko.scrape_chapter.
    rewrite enumerated_images_In. fold absolute img_elems.
    split; intros (i & img & H1 & H2 & H3); exists i, img;
      (split; [exact H1 |]); (split; [exact H2 | lia]).
  - apply enumerated_images_sorted.
  - intros i j skipped img. apply enumerated_images_gap.
Qed.

(** A chapter page whose first image is a loading placeholder, with
    concatenation standing for [urljoin]: the two pages that follow are
    numbered 2 and 3, and there are two of them. *)
Example mgeko_placeholder_first :
  let soup := fun selector : string =>
    if String.eqb selector ".reading-content img"
    then [Html.MkImg (Some "/static/loading.gif") None None;
          Html.MkImg (Some "/static/loading.gif") (Some " /media/1.jpg ") None;
          Html.MkImg (Some "/media/2.jpg") None None]
    else [] in
  Mgeko.scrape_chapter (fun base url => base +:+ url) soup
  = [Tasks.ImageData.Make 2 "https://www.mgeko.cc/media/1.jpg";
     Tasks.ImageData.Make 3 "https://www.mgeko.cc/media/2.jpg"].
Proof. vm_compute. reflexivity. Qed.

(** ** Job statistics *)

Section JobStatistics.
Import Db Api Stats.

Lemma count_filter (status : Job.JobStatus) (s : Store) :
  count status s
  = Z.of_nat (length (List.filter (has_status status) (jobs (tables s)))).
Proof. unfold count. rewrite <- where_rows, length_map. reflexivity. Qed.

(** Every job is counted under its status and no other. *)
Lemma counts_partition (rows : list Job.t) :
  let n := fun status => Z.of_nat (length (List.filter (has_status status) rows)) in
  n Job.PENDING + n Job.RUNNING + n Job.COMPLETED + n Job.FAILED
  + n Job.CANCELLED + n Job.RETRY
  = Z.of_nat (length rows).
Proof.
  cbn zeta. unfold has_status. induction rows as [| j rows IH]; [reflexivity |].
  cbn [List.filter]. destruct (Job.status j); cbn [length]; lia.
Qed.

(** The count of a status after one row has changed. *)
Lemma count_alter (status : Job.JobStatus) (f : Job.t -> Job.t) (rows : list Job.t) :
  forall (pos : nat) (j : Job.t),
    rows !! pos = Some j ->
    Z.of_nat (length (List.filter (has_status status) (alter f pos rows)))
    = Z.of_nat (length (List.filter (has_status status) rows))
      - (if has_status status j then 1 else 0)
      + (if has_status status (f j) then 1 else 0).
Proof.
  induction rows as [| r rows IH]; intros pos j Hj; [discriminate |].
  destruct pos as [| pos].
  - injection Hj as ->. cbn [alter list_alter List.filter].
    destruct (has_status status j), (has_status status (f j)); cbn [length]; lia.
  - simpl in Hj. specialize (IH pos j Hj).
    change (alter f (S pos) (r :: rows)) with (r :: alter f pos rows).
    cbn [List.filter]. destruct (has_status status r); cbn [length]; lia.
Qed.

End JobStatistics.

(** X30. [get_job_stats] counts PENDING, RUNNING, COMPLETED and FAILED
    jobs and gives their sum as [total]: the total is the number of job rows
    less the CANCELLED and RETRY ones.  Cancelling a PENDING or RUNNING job
    keeps its row but takes it out of every count, the total included. *)
Theorem get_job_stats_total_leaves_out_cancelled (now job_id : Z)
    (s : Api.Store) (pos : nat) (job : Job.t) :
  Db.get Job.id (Db.jobs (Api.tables s)) job_id = Some (pos, job) ->
  Job.status job = Job.PENDING \/ Job.status job = Job.RUNNING ->
  let s' := Api.store (Api.cancel_job now job_id s) in
  Stats.total (Stats.get_job_stats s)
  = Z.of_nat (length (Db.jobs (Api.tables s)))
    - Stats.count Job.CANCELLED s - Stats.count Job.RETRY s
  /\ Api.result (Api.cancel_job now job_id s) = inr "Job cancelled"
  /\ length (Db.jobs (Api.tables s')) = length (Db.jobs (Api.tables s))
  /\ Stats.total (Stats.get_job_stats s') = Stats.total (Stats.get_job_stats s) - 1
  /\ Stats.pending (Stats.get_job_stats s') + Stats.running (Stats.get_job_stats s')
     = Stats.pending (Stats.get_job_stats s) + Stats.running (Stats.get_job_stats s)
       - 1
  /\ Stats.completed (Stats.get_job_stats s') = Stats.completed (Stats.get_job_stats s)
  /\ Stats.failed (Stats.get_job_stats s') = Stats.failed (Stats.get_job_stats s).
Proof.
  intros Hget Hstatus s'.
  assert (Hfinished : Job.is_finished job = false)
    by (unfold Job.is_finished; destruct Hstatus as [-> | ->]; reflexivity).
  assert (Hs' : s' = Api.with_tables
                       (Db.with_jobs
                          (alter (Api.set_cancelled now) pos (Db.jobs (Api.tables s)))
                          (Api.tables s)) s
                /\ Api.result (Api.cancel_job now job_id s) = inr "Job cancelled").
  { subst s'. unfold Api.cancel_job. rewrite Hget, Hfinished. auto. }
  destruct Hs' as [Hs' Hresult].
  apply get_spec in Hget as [Hrow _].
  assert (Hcount : forall status,
            Stats.count status s'
            = Stats.count status s
              - (if Stats.has_status status job then 1 else 0)
              + (if Stats.has_status status (Api.set_cancelled now job)
                 then 1 else 0)).
  { intros status. rewrite !count_filter, Hs'.
    cbn [Api.tables Api.with_tables Db.jobs Db.with_jobs].
    apply count_alter. exact Hrow. }
  pose proof (counts_partition (Db.jobs (Api.tables s))) as Hall.
  cbv beta zeta in Hall. rewrite <- !count_filter in Hall.
  unfold Stats.get_job_stats. cbn [map nth fold_right Stats.total Stats.pending
    Stats.running Stats.completed Stats.failed].
  rewrite !Hcount. unfold Stats.has_status. simpl Job.status.
  split; [lia |]. split; [exact Hresult |]. split.
  { rewrite Hs'. cbn [Api.tables Api.with_tables Db.jobs Db.with_jobs].
    apply length_alter. }
  destruct Hstatus as [-> | ->]; repeat split; lia.
Qed.

Lemma get_job_stats_total_leaves_out_cancelled_witness :
  let job := fun id status =>
    Job.Make id None Job.SCRAPE_SERIES status None None None 0 3 None None in
  let s := Api.MkStore
             (Db.MkTables [job 1 Job.COMPLETED; job 2 Job.RUNNING; job 3 Job.PENDING]
                [] [] [] 1 1 1) 4 ∅ in
  Stats.total (Stats.get_job_stats s) = 3
  /\ Stats.total (Stats.get_job_stats (Api.store (Api.cancel_job 50 2 s))) = 2
  /\ length (Db.jobs (Api.tables (Api.store (Api.cancel_job 50 2 s)))) = 3%nat.
Proof.
  intros job s.
  destruct (get_job_stats_total_leaves_out_cancelled 50 2 s 1%nat (job 2 Job.RUNNING)
              eq_refl (or_intror eq_refl)) as (H1 & _ & H2 & H3 & _).
  split; [rewrite H1; reflexivity |]. split; [rewrite H3, H1; reflexivity |].
  rewrite H2. reflexivity.
Defined.
